(** * simple_yolo.cu: a shallow embedding and its verified properties

    The development follows the source file top down: the logging macros,
    [MixMemory], [Tensor], the decode and NMS kernels, the bounded pool
    [MonopolyAllocator], the generic dispatcher [InferController] and its
    specialisation [YoloInferImpl].

    Conventions of the embedding.
    - C++ [int] and [size_t] values are integers of [Z]; where the source
      relies on a conversion between the two, the wrap-around is written
      out ([int32], [size_t_of]).
    - [float] values are modelled twice.  The modules [Kernel] and
      [WarpKernel] take them as rationals of [Q], with exact comparisons
      and arithmetic, and leave rounding, infinities and NaN out: this is
      the model of the properties that do not depend on the values, such
      as which slots a kernel writes and how many boxes are read back.
      The modules [Binary32] and [Kernel32] take them as IEEE 754 binary32
      values with rounding to nearest, infinities and NaN: this is the
      model of the properties that are decided by the values, such as
      which detections pass the confidence threshold, what the counter of
      the box array holds and how many blocks a kernel is launched with.
    - Raw device and host arrays ([float*]) are lists read and written by
      index; an access outside the list, which is undefined in the source,
      reads [0] and writes nothing.
    - Code that runs under a mutex is one atomic transition of the state;
      a blocking wait splits an operation in the transition before and the
      transition after the wait.
    - CUDA runtime calls are assumed to succeed; the ones that matter for
      the properties are recorded in a trace of events. *)

From Stdlib Require Import ZArith QArith Qminmax Qround Lia Lqa String.
From Stdlib Require SpecFloat.
From stdpp Require Import base option list strings gmap.

Local Open Scope Z_scope.

(** ** Integer conversions *)

Definition int32 (z : Z) : Z := (z + 2 ^ 31) mod 2 ^ 32 - 2 ^ 31.
Definition size_t_of (z : Z) : Z := z mod 2 ^ 64.

(** ** Logging ([__log_func] and the INFO macros) *)

Inductive LogLevel := Debug | Verbose | Info | Warning | Error | Fatal.

#[global] Instance LogLevel_eq_dec : EqDecision LogLevel.
Proof. solve_decision. Defined.

Definition level_value (l : LogLevel) : Z :=
  match l with
  | Debug => 5 | Verbose => 4 | Info => 3 | Warning => 2 | Error => 1 | Fatal => 0
  end.

Definition CURRENT_LOG_LEVEL : LogLevel := Info.

(** What the code does to the outside world. *)
Inductive event :=
| Printed (level : LogLevel) (msg : string)
| CudaMalloc (bytes : Z)
| CudaMallocHost (bytes : Z)
| CudaFree
| CudaFreeHost
| MemcpyAsync (kind : string) (offset bytes : Z)
| MemcpyPeerAsync (offset bytes : Z)
| StreamSynchronize
| NotifyOne (cv : string)
| NotifyAll (cv : string).

(** A computation either returns, or the process aborts, or a C++ exception
    propagates out of it; in each case it leaves the events it produced. *)
Inductive failure := promise_already_satisfied | null_dereference | length_error.

Inductive outcome (A : Type) :=
| Returns (a : A)
| Aborts
| Throws (e : failure).
Arguments Returns {A} a.
Arguments Aborts {A}.
Arguments Throws {A} e.

Definition prog (A : Type) : Type := (outcome A * list event)%type.

Definition result {A} (m : prog A) : outcome A := fst m.
Definition trace {A} (m : prog A) : list event := snd m.

Definition prog_ret {A} (a : A) : prog A := (Returns a, []).

Definition prog_bind {A B} (f : A -> prog B) (m : prog A) : prog B :=
  match m with
  | (Returns a, tr) => let '(r, tr') := f a in (r, tr ++ tr')
  | (Aborts, tr) => (Aborts, tr)
  | (Throws e, tr) => (Throws e, tr)
  end.

#[global] Instance prog_mret : MRet prog := @prog_ret.
#[global] Instance prog_mbind : MBind prog := @prog_bind.

Definition emit (e : event) : prog unit := (Returns tt, [e]).
Definition abort {A} : prog A := (Aborts, []).
Definition throw {A} (e : failure) : prog A := (Throws e, []).

(** [__log_func]: nothing is printed above the current level; a fatal
    message aborts the process after it is printed. *)
Definition log_func (level : LogLevel) (msg : string) : prog unit :=
  if level_value CURRENT_LOG_LEVEL <? level_value level then mret tt
  else
    _ ← emit (Printed level msg);
    if decide (level = Fatal) then abort else mret tt.

Definition INFOE (msg : string) : prog unit := log_func Error msg.
Definition INFOF (msg : string) : prog unit := log_func Fatal msg.
Definition INFO (msg : string) : prog unit := log_func Info msg.

(** The [Assert] macro: a failed assertion is a fatal log. *)
Definition Assert (cond : bool) (op : string) : prog unit :=
  if cond then mret tt else INFOF ("Assert failed, " ++ op).

(** A pointer is [None] when it is [nullptr]. *)
Definition is_null {A} (p : option A) : bool :=
  match p with None => true | Some _ => false end.

(** ** Ambient CUDA state: the device that is current, and how many exist *)

Record cuda_env := { current_device : Z; device_count : Z }.

Definition check_device_id (env : cuda_env) (device_id : Z) : prog bool :=
  if (device_id <? 0) || (device_count env <=? device_id) then
    _ ← INFOE "Invalid device id"; mret false
  else mret true.

Definition CURRENT_DEVICE_ID : Z := -1.

Definition get_device (env : cuda_env) (device_id : Z) : prog Z :=
  if negb (device_id =? CURRENT_DEVICE_ID) then
    _ ← check_device_id env device_id; mret device_id
  else mret (current_device env).

(** ** MixMemory: a host and a device allocation, each grown on demand *)

Module MixMemory.

Record t := mk {
  cpu_ : option (list Byte.byte);
  cpu_size_ : Z;
  owner_cpu_ : bool;
  device_id_ : Z;
  gpu_ : option (list Byte.byte);
  gpu_size_ : Z;
  owner_gpu_ : bool
}.

Definition zeros (size : Z) : list Byte.byte := replicate (Z.to_nat size) Byte.x00.

(** [MixMemory(int device_id)] *)
Definition create (env : cuda_env) (device_id : Z) : prog t :=
  d ← get_device env device_id;
  mret (mk None 0 true d None 0 true).

Definition release_cpu (m : t) : prog t :=
  _ ← (if is_null (cpu_ m) then mret tt
       else if owner_cpu_ m then emit CudaFreeHost else mret tt);
  mret (mk None 0 (owner_cpu_ m) (device_id_ m) (gpu_ m) (gpu_size_ m) (owner_gpu_ m)).

Definition release_gpu (m : t) : prog t :=
  _ ← (if is_null (gpu_ m) then mret tt
       else if owner_gpu_ m then emit CudaFree else mret tt);
  mret (mk (cpu_ m) (cpu_size_ m) (owner_cpu_ m) (device_id_ m) None 0 (owner_gpu_ m)).

Definition release_all (m : t) : prog t :=
  m ← release_cpu m; release_gpu m.

(** [gpu(size)]: reallocates, zero filled, only when the request exceeds
    the current size. *)
Definition gpu (size : Z) (m : t) : prog t :=
  if gpu_size_ m <? size then
    m ← release_gpu m;
    _ ← emit (CudaMalloc size);
    mret (mk (cpu_ m) (cpu_size_ m) (owner_cpu_ m) (device_id_ m)
             (Some (zeros size)) size (owner_gpu_ m))
  else mret m.

Definition cpu (size : Z) (m : t) : prog t :=
  if cpu_size_ m <? size then
    m ← release_cpu m;
    _ ← emit (CudaMallocHost size);
    mret (mk (Some (zeros size)) size (owner_cpu_ m) (device_id_ m)
             (gpu_ m) (gpu_size_ m) (owner_gpu_ m))
  else mret m.

End MixMemory.

(** ** Tensor *)

Inductive DataHead := Init | Device | Host.

#[global] Instance DataHead_eq_dec : EqDecision DataHead.
Proof. solve_decision. Defined.

Module Tensor.

(** The two fixed-size text buffers ([shape_string_], [descriptor_string_])
    only hold formatted text and are left out. *)
Record t := mk {
  shape_ : list Z;
  strides_ : list Z;
  bytes_ : Z;
  head_ : DataHead;
  stream_ : Z;
  device_id_ : Z;
  data_ : MixMemory.t;
  workspace_ : option MixMemory.t
}.

Definition element_size : Z := 4.

Definition set_head (h : DataHead) (x : t) : t :=
  mk (shape_ x) (strides_ x) (bytes_ x) h (stream_ x) (device_id_ x) (data_ x) (workspace_ x).

Definition set_data (d : MixMemory.t) (x : t) : t :=
  mk (shape_ x) (strides_ x) (bytes_ x) (head_ x) (stream_ x) (device_id_ x) d (workspace_ x).

Definition set_stream (stream : Z) (x : t) : t :=
  mk (shape_ x) (strides_ x) (bytes_ x) (head_ x) stream (device_id_ x) (data_ x) (workspace_ x).

Definition set_workspace (w : option MixMemory.t) (x : t) : t :=
  mk (shape_ x) (strides_ x) (bytes_ x) (head_ x) (stream_ x) (device_id_ x) (data_ x) w.

(** [empty] *)
Definition empty (x : t) : bool :=
  is_null (MixMemory.cpu_ (data_ x)) && is_null (MixMemory.gpu_ (data_ x)).

(** [numel]: an [int] product, [0] for the empty shape. *)
Definition numel (x : t) : Z :=
  fold_left (fun value d => int32 (value * d)) (shape_ x)
            (if decide (shape_ x = []) then 0 else 1).

(** [count(start_axis)] *)
Definition count (start_axis : Z) (x : t) : Z :=
  if (0 <=? start_axis) && (start_axis <? Z.of_nat (length (shape_ x))) then
    fold_left (fun size d => int32 (size * d)) (drop (Z.to_nat start_axis) (shape_ x)) 1
  else 0.

(** The stride loop of [resize], last dimension first: the last stride is
    the element size, each other one is the next stride times the next
    dimension, as [size_t]. *)
Fixpoint compute_strides (shape : list Z) : list Z :=
  match shape with
  | [] => []
  | _ :: rest =>
      let tail := compute_strides rest in
      match head rest, head tail with
      | Some next_dim, Some next_stride =>
          size_t_of (next_stride * size_t_of next_dim) :: tail
      | _, _ => [size_t_of (element_size * 1)]
      end
  end.

(** The first loop of [resize]: a dimension given as [-1] keeps the old
    one, after asserting that the number of dimensions is unchanged. *)
Fixpoint setup_dims (x : t) (ndims : nat) (i : nat) (dims : list Z) : prog (list Z) :=
  match dims with
  | [] => mret []
  | dim :: rest =>
      dim ← (if dim =? -1 then
               _ ← Assert (bool_decide (ndims = length (shape_ x))) "ndims == shape_.size()";
               mret (nth i (shape_ x) 0)
             else mret dim);
      rest ← setup_dims x ndims (S i) rest;
      mret (dim :: rest)
  end.

(** [adajust_memory_by_update_dims_or_type]: [needed_size] is an [int], the
    comparison with [bytes_] and the assignment to it are done in [size_t]. *)
Definition adajust_memory_by_update_dims_or_type (x : t) : t :=
  let needed_size := int32 (numel x * element_size) in
  let x := if bytes_ x <? size_t_of needed_size then set_head Init x else x in
  mk (shape_ x) (strides_ x) (size_t_of needed_size) (head_ x) (stream_ x)
     (device_id_ x) (data_ x) (workspace_ x).

(** [resize(ndims, dims)] *)
Definition resize (dims : list Z) (x : t) : prog t :=
  dims' ← setup_dims x (length dims) 0 dims;
  let x := mk dims' (compute_strides dims') (bytes_ x) (head_ x) (stream_ x)
              (device_id_ x) (data_ x) (workspace_ x) in
  mret (adajust_memory_by_update_dims_or_type x).

(** [resize_single_dim(idim, size)] *)
Definition resize_single_dim (idim : Z) (size : Z) (x : t) : prog t :=
  _ ← Assert ((0 <=? idim) && (idim <? Z.of_nat (length (shape_ x))))
        "idim >= 0 && idim < shape_.size()";
  resize (<[Z.to_nat idim := size]> (shape_ x)) x.

(** An asynchronous copy of [n] bytes of [src] to [dst + off]; the stream
    executes its operations in order, so the copy is applied at once. *)
Definition blit (dst : option (list Byte.byte)) (off : Z) (src : list Byte.byte) (n : Z)
  : option (list Byte.byte) :=
  match dst with
  | None => None
  | Some d => Some (list_inserts (Z.to_nat off) (take (Z.to_nat n) src) d)
  end.

(** [to_gpu(copy)] *)
Definition to_gpu (copy : bool) (x : t) : prog t :=
  if decide (head_ x = Device) then mret x
  else
    let x := set_head Device x in
    d ← MixMemory.gpu (bytes_ x) (data_ x);
    if copy && negb (is_null (MixMemory.cpu_ d)) then
      _ ← emit (MemcpyAsync "HostToDevice" 0 (bytes_ x));
      let g := blit (MixMemory.gpu_ d) 0 (default [] (MixMemory.cpu_ d)) (bytes_ x) in
      mret (set_data (MixMemory.mk (MixMemory.cpu_ d) (MixMemory.cpu_size_ d)
                        (MixMemory.owner_cpu_ d) (MixMemory.device_id_ d)
                        g (MixMemory.gpu_size_ d) (MixMemory.owner_gpu_ d)) x)
    else mret (set_data d x).

(** [to_cpu(copy)] *)
Definition to_cpu (copy : bool) (x : t) : prog t :=
  if decide (head_ x = Host) then mret x
  else
    let x := set_head Host x in
    d ← MixMemory.cpu (bytes_ x) (data_ x);
    if copy && negb (is_null (MixMemory.gpu_ d)) then
      _ ← emit (MemcpyAsync "DeviceToHost" 0 (bytes_ x));
      _ ← emit StreamSynchronize;
      let c := blit (MixMemory.cpu_ d) 0 (default [] (MixMemory.gpu_ d)) (bytes_ x) in
      mret (set_data (MixMemory.mk c (MixMemory.cpu_size_ d)
                        (MixMemory.owner_cpu_ d) (MixMemory.device_id_ d)
                        (MixMemory.gpu_ d) (MixMemory.gpu_size_ d)
                        (MixMemory.owner_gpu_ d)) x)
    else mret (set_data d x).

(** [copy_from_gpu(offset, src, num_element, device_id)]; [src] is the
    device memory the source pointer refers to. *)
Definition copy_from_gpu (env : cuda_env) (offset : Z) (src : list Byte.byte)
    (num_element : Z) (device_id : Z) (x : t) : prog t :=
  x ← (if decide (head_ x = Init) then to_gpu false x else mret x);
  let offset_location := size_t_of (offset * element_size) in
  if bytes_ x <=? offset_location then
    _ ← INFOE "Offset location >= bytes_, out of range";
    mret x
  else
    let copyed_bytes := size_t_of (num_element * element_size) in
    let remain_bytes := bytes_ x - offset_location in
    if remain_bytes <? copyed_bytes then
      _ ← INFOE "Copyed bytes > remain bytes, out of range";
      mret x
    else
      match head_ x with
      | Device =>
          current_device_id ← get_device env device_id;
          let gpu_device_id := device_id_ x in
          _ ← (if negb (current_device_id =? gpu_device_id)
               then emit (MemcpyPeerAsync offset_location copyed_bytes)
               else emit (MemcpyAsync "DeviceToDevice" offset_location copyed_bytes));
          let d := data_ x in
          mret (set_data (MixMemory.mk (MixMemory.cpu_ d) (MixMemory.cpu_size_ d)
                            (MixMemory.owner_cpu_ d) (MixMemory.device_id_ d)
                            (blit (MixMemory.gpu_ d) offset_location src copyed_bytes)
                            (MixMemory.gpu_size_ d) (MixMemory.owner_gpu_ d)) x)
      | Host =>
          _ ← emit (MemcpyAsync "DeviceToHost" offset_location copyed_bytes);
          let d := data_ x in
          mret (set_data (MixMemory.mk
                            (blit (MixMemory.cpu_ d) offset_location src copyed_bytes)
                            (MixMemory.cpu_size_ d)
                            (MixMemory.owner_cpu_ d) (MixMemory.device_id_ d)
                            (MixMemory.gpu_ d) (MixMemory.gpu_size_ d)
                            (MixMemory.owner_gpu_ d)) x)
      | Init =>
          _ ← INFOE "Unsupport head type";
          mret x
      end.

(** A tensor as [Tensor()] makes it, on device [0]. *)
Definition fresh : t :=
  mk [] [] 0 Init 0 0 (MixMemory.mk None 0 true 0 None 0 true) None.

(** The same tensor after [resize(2, 2)]: sixteen bytes, nothing
    materialised yet. *)
Definition fresh_2x2 : t :=
  mk [2; 2] [8; 4] 16 Init 0 0 (MixMemory.mk None 0 true 0 None 0 true) None.

End Tensor.

(** The events that move data. *)
Definition is_copy (e : event) : bool :=
  match e with
  | MemcpyAsync _ _ _ | MemcpyPeerAsync _ _ => true
  | _ => false
  end.

Definition one_device : cuda_env := {| current_device := 0; device_count := 1 |}.

(** ** Single precision *)

(** The [float] of the source as IEEE 754 binary32, for the properties
    that rounding, the infinities or NaN decide, and for the launch
    dimensions of the kernels.  The operations are the
    ones of the Standard Library's specification of floating-point
    arithmetic, at 24 bits of precision: they round to the nearest value,
    ties to even.  A NaN has no payload. *)
Module Binary32.

Definition prec : Z := 24.
Definition emax : Z := 128.

Definition float : Type := SpecFloat.spec_float.

#[global] Instance float_eq_dec : EqDecision float.
Proof. solve_decision. Defined.

Definition zero : float := SpecFloat.S754_zero false.
Definition nan : float := SpecFloat.S754_nan.

Definition is_nan (x : float) : bool :=
  match x with SpecFloat.S754_nan => true | _ => false end.

(** [x + y], [x - y], [x * y], [x / y] *)
Definition fadd : float -> float -> float := SpecFloat.SFadd prec emax.
Definition fsub : float -> float -> float := SpecFloat.SFsub prec emax.
Definition fmul : float -> float -> float := SpecFloat.SFmul prec emax.
Definition fdiv : float -> float -> float := SpecFloat.SFdiv prec emax.

(** [x < y], [x <= y], [x == y] and the comparisons written with them;
    each is false when an operand is NaN, [x != y] is true then. *)
Definition flt (x y : float) : bool := SpecFloat.SFltb x y.
Definition fle (x y : float) : bool := SpecFloat.SFleb x y.
Definition feq (x y : float) : bool := SpecFloat.SFeqb x y.
Definition fgt (x y : float) : bool := flt y x.
Definition fge (x y : float) : bool := fle y x.
Definition fne (x y : float) : bool := negb (feq x y).

(** The conversion of an [int] to [float]. *)
Definition of_int (z : Z) : float := SpecFloat.binary_normalize prec emax z 0 false.

Definition one : float := of_int 1.
Definition half : float := fdiv (of_int 1) (of_int 2).

(** The literal [n / d] with [d] a power of ten, that is the float nearest
    to it. *)
Definition literal (n d : Z) : float := fdiv (of_int n) (of_int d).

(** The integer part of a number, towards zero; [None] for an infinity
    and for NaN. *)
Definition truncate (x : float) : option Z :=
  match x with
  | SpecFloat.S754_zero _ => Some 0
  | SpecFloat.S754_finite s m e =>
      let v := if 0 <=? e then Z.pos m * 2 ^ e else Z.pos m / 2 ^ (- e) in
      Some (if s then - v else v)
  | _ => None
  end.

(** [(int)x] in host code.  Outside the range of [int] the conversion is
    undefined in C++; the processor gives the smallest [int]. *)
Definition to_int (x : float) : Z :=
  match truncate x with
  | Some v => if (- 2 ^ 31 <=? v) && (v <? 2 ^ 31) then v else - 2 ^ 31
  | None => - 2 ^ 31
  end.

(** [(unsigned int)x] in host code.  Outside the range of [unsigned int]
    the conversion is undefined in C++; the processor converts to 64 bits
    and keeps the lower half, and gives [0] where 64 bits do not hold the
    value. *)
Definition to_uint (x : float) : Z :=
  match truncate x with
  | Some v => if (- 2 ^ 63 <=? v) && (v <? 2 ^ 63) then v mod 2 ^ 32 else 0
  | None => 0
  end.

(** [(int)x] in device code: the conversion saturates, and gives [0] for
    NaN. *)
Definition to_int_device (x : float) : Z :=
  match x with
  | SpecFloat.S754_nan => 0
  | SpecFloat.S754_infinity s => if s then - 2 ^ 31 else 2 ^ 31 - 1
  | _ => Z.max (- 2 ^ 31) (Z.min (2 ^ 31 - 1) (default 0 (truncate x)))
  end.

(** [max(x, y)] and [min(x, y)] in device code ([fmaxf], [fminf]): the
    other operand when one is NaN, and the positive zero is the larger
    zero. *)
Definition fmax (x y : float) : float :=
  if is_nan x then y else if is_nan y then x
  else match x, y with
       | SpecFloat.S754_zero sx, SpecFloat.S754_zero sy => SpecFloat.S754_zero (sx && sy)
       | _, _ => if flt x y then y else x
       end.

Definition fmin (x y : float) : float :=
  if is_nan x then y else if is_nan y then x
  else match x, y with
       | SpecFloat.S754_zero sx, SpecFloat.S754_zero sy => SpecFloat.S754_zero (sx || sy)
       | _, _ => if flt y x then y else x
       end.

End Binary32.

(** ** The decode and NMS kernels *)

Module Kernel.

Definition GPU_BLOCK_THREADS : Z := 512.

(** left, top, right, bottom, confidence, class, keepflag *)
Definition NUM_BOX_ELEMENT : Z := 7.

(** Reading and writing a [float*] at an element offset. *)
Definition rd (a : list Q) (i : Z) : Q :=
  if i <? 0 then 0%Q else nth (Z.to_nat i) a 0%Q.

Definition wr (a : list Q) (i : Z) (v : Q) : list Q :=
  if i <? 0 then a else <[Z.to_nat i := v]> a.

(** [x < y] on floats. *)
Definition Qltb (x y : Q) : bool := negb (Qle_bool y x).

(** The conversions [(int)f], towards zero, and [(float)i]. *)
Definition float_to_int (q : Q) : Z := Z.quot (Qnum q) (Zpos (Qden q)).
Definition int_to_float (z : Z) : Q := inject_Z z.

(** [grid_dims] and [block_dims]: the kernel is launched with
    [grid * block] threads.  The number of blocks is a quotient of
    [float]s, converted to the [unsigned int] that [dim3] takes. *)
Definition block_dims (numJobs : Z) : Z :=
  if numJobs <? GPU_BLOCK_THREADS then numJobs else GPU_BLOCK_THREADS.

Definition grid_dims (numJobs : Z) : Z :=
  let numBlockThreads := block_dims numJobs in
  Binary32.to_uint
    (Binary32.fdiv (Binary32.of_int (int32 (int32 (numJobs + numBlockThreads) - 1)))
                   (Binary32.of_int numBlockThreads)).

Definition launched (numJobs : Z) : list Z :=
  seqZ 0 (grid_dims numJobs * block_dims numJobs).

Definition affine_project (matrix : list Q) (x y : Q) : Q * Q :=
  (rd matrix 0 * x + rd matrix 1 * y + rd matrix 2,
   rd matrix 3 * x + rd matrix 4 * y + rd matrix 5)%Q.

(** The class loop of [decode_kernel]: [n] iterations are left, the next
    one reads class [i] at [predict + p]. *)
Fixpoint scan_classes (predict : list Q) (n : nat) (p i : Z) (confidence : Q) (label : Z)
  : Q * Z :=
  match n with
  | O => (confidence, label)
  | S n =>
      if Qltb confidence (rd predict p)
      then scan_classes predict n (p + 1) (i + 1) (rd predict p) i
      else scan_classes predict n (p + 1) (i + 1) confidence label
  end.

(** The whole loop for the detection at [pitem]: it starts from class 0
    and returns the confidence and the label it ends with. *)
Definition best_class (predict : list Q) (num_classes pitem : Z) : Q * Z :=
  scan_classes predict (Z.to_nat (num_classes - 1)) (pitem + 6) 1 (rd predict (pitem + 5)) 0.

(** One thread of [decode_kernel].  [atomicAdd] on the [float] counter
    [parray[0]] returns the value before the addition. *)
Definition decode_thread (predict : list Q) (num_bboxes num_classes : Z)
    (confidence_threshold : Q) (invert_affine_matrix : list Q) (max_objects : Z)
    (parray : list Q) (position : Z) : list Q :=
  if num_bboxes <=? position then parray
  else
    let pitem := (5 + num_classes) * position in
    let objectness := rd predict (pitem + 4) in
    if Qltb objectness confidence_threshold then parray
    else
      let '(confidence, label) := best_class predict num_classes pitem in
      let confidence := (confidence * objectness)%Q in
      if Qltb confidence confidence_threshold then parray
      else
        let old := rd parray 0 in
        let parray := wr parray 0 (old + 1)%Q in
        let index := float_to_int old in
        if max_objects <=? index then parray
        else
          let cx := rd predict pitem in
          let cy := rd predict (pitem + 1) in
          let width := rd predict (pitem + 2) in
          let height := rd predict (pitem + 3) in
          let left_ := (cx - width * (1 # 2))%Q in
          let top_ := (cy - height * (1 # 2))%Q in
          let right_ := (cx + width * (1 # 2))%Q in
          let bottom_ := (cy + height * (1 # 2))%Q in
          let '(left_, top_) := affine_project invert_affine_matrix left_ top_ in
          let '(right_, bottom_) := affine_project invert_affine_matrix right_ bottom_ in
          let pout_item := 1 + index * NUM_BOX_ELEMENT in
          let parray := wr parray pout_item left_ in
          let parray := wr parray (pout_item + 1) top_ in
          let parray := wr parray (pout_item + 2) right_ in
          let parray := wr parray (pout_item + 3) bottom_ in
          let parray := wr parray (pout_item + 4) confidence in
          let parray := wr parray (pout_item + 5) (int_to_float label) in
          wr parray (pout_item + 6) 1%Q.

(** The kernel: every thread runs once; [schedule] lists the thread
    positions in the order in which the threads reach their atomic
    increment, some permutation of [launched num_bboxes]. *)
Definition decode_kernel (schedule : list Z) (predict : list Q) (num_bboxes num_classes : Z)
    (confidence_threshold : Q) (invert_affine_matrix : list Q) (parray : list Q)
    (max_objects : Z) : list Q :=
  fold_left (decode_thread predict num_bboxes num_classes confidence_threshold
               invert_affine_matrix max_objects) schedule parray.

Definition box_iou (aleft atop aright abottom bleft btop bright bbottom : Q) : Q :=
  let cleft := Qmax aleft bleft in
  let ctop := Qmax atop btop in
  let cright := Qmin aright bright in
  let cbottom := Qmin abottom bbottom in
  let c_area := (Qmax (cright - cleft) 0 * Qmax (cbottom - ctop) 0)%Q in
  if Qeq_bool c_area 0 then 0%Q
  else
    let a_area := (Qmax 0 (aright - aleft) * Qmax 0 (abottom - atop))%Q in
    let b_area := (Qmax 0 (bright - bleft) * Qmax 0 (bbottom - btop))%Q in
    (c_area / (a_area + b_area - c_area))%Q.

(** The body of the loop of [nms_kernel] for one [i]: does box [i]
    suppress the box at [position]? *)
Definition nms_suppresses (bboxes : list Q) (threshold : Q) (position i : Z) : bool :=
  let pcurrent := 1 + position * NUM_BOX_ELEMENT in
  let pitem := 1 + i * NUM_BOX_ELEMENT in
  if (i =? position) || negb (Qeq_bool (rd bboxes (pcurrent + 5)) (rd bboxes (pitem + 5)))
  then false
  else if Qle_bool (rd bboxes (pcurrent + 4)) (rd bboxes (pitem + 4)) then
    if Qeq_bool (rd bboxes (pitem + 4)) (rd bboxes (pcurrent + 4)) && (i <? position)
    then false
    else
      let iou := box_iou
        (rd bboxes pcurrent) (rd bboxes (pcurrent + 1))
        (rd bboxes (pcurrent + 2)) (rd bboxes (pcurrent + 3))
        (rd bboxes pitem) (rd bboxes (pitem + 1))
        (rd bboxes (pitem + 2)) (rd bboxes (pitem + 3)) in
      Qltb threshold iou
  else false.

(** The loop itself, [n] iterations left, leaving at the first hit. *)
Fixpoint nms_scan (bboxes : list Q) (threshold : Q) (position : Z) (n : nat) (i : Z) : bool :=
  match n with
  | O => false
  | S n =>
      if nms_suppresses bboxes threshold position i then true
      else nms_scan bboxes threshold position n (i + 1)
  end.

(** The offset of field [f] of box [i] in a box array: the counter is at
    offset [0], the fields of a box are left, top, right, bottom,
    confidence, class and keep-flag. *)
Definition field (i f : Z) : Z := 1 + i * NUM_BOX_ELEMENT + f.

(** [min((int)*bboxes, max_objects)]: the number of boxes the NMS kernel
    looks at. *)
Definition nms_count (bboxes : list Q) (max_objects : Z) : Z :=
  Z.min (float_to_int (rd bboxes 0)) max_objects.

(** One thread of [nms_kernel]; [pcurrent[6]] is the keep-flag of its
    box. *)
Definition nms_thread (max_objects : Z) (threshold : Q) (bboxes : list Q) (position : Z)
  : list Q :=
  let count := nms_count bboxes max_objects in
  if count <=? position then bboxes
  else if nms_scan bboxes threshold position (Z.to_nat count) 0
  then wr bboxes (field position 6) 0%Q
  else bboxes.

(** The kernel, with the thread positions in the order [schedule], some
    permutation of [launched max_objects]. *)
Definition nms_kernel (schedule : list Z) (bboxes : list Q) (max_objects : Z) (threshold : Q)
  : list Q :=
  fold_left (nms_thread max_objects threshold) schedule bboxes.

(** [decode_kernel_invoker]: both kernels go to the same stream, so the NMS
    kernel starts when the decode kernel is done. *)
Definition decode_kernel_invoker (schedule_decode schedule_nms : list Z)
    (predict : list Q) (num_bboxes num_classes : Z) (confidence_threshold nms_threshold : Q)
    (invert_affine_matrix : list Q) (parray : list Q) (max_objects : Z) : list Q :=
  let parray := decode_kernel schedule_decode predict num_bboxes num_classes
                  confidence_threshold invert_affine_matrix parray max_objects in
  nms_kernel schedule_nms parray max_objects nms_threshold.

(** Two arrays with the same counter and the same box fields, the
    keep-flags apart. *)
Definition same_fields (a b : list Q) : Prop :=
  rd a 0 = rd b 0 /\ forall i f, 0 <= f <= 5 -> rd a (field i f) = rd b (field i f).

Definition identity_matrix : list Q := [1; 0; 0; 0; 1; 0]%Q.

(** Two class-0 boxes with confidences 0.9 and 0.8 and an IoU of 0.6. *)
Definition two_boxes : list Q :=
  [2; 0; 0; 8; 1; 9 # 10; 0; 1;
      2; 0; 10; 1; 8 # 10; 0; 1]%Q.

(** The same two boxes, both with confidence 0.9. *)
Definition two_boxes_tie : list Q :=
  [2; 0; 0; 8; 1; 9 # 10; 0; 1;
      2; 0; 10; 1; 9 # 10; 0; 1]%Q.

End Kernel.

(** ** MonopolyAllocator: a pool of a fixed number of slots *)

Module MonopolyAllocator.

Section Pool.

(** [_ItemType] *)
Context {Item : Type}.

(** [MonopolyData]: the item, empty until its first use, and the flag. *)
Record MonopolyData := mkData {
  data_ : option Item;
  available_ : bool
}.

Record t := mk {
  datas_ : list MonopolyData;
  capacity_ : Z;
  num_available_ : Z;
  num_wait_thread_ : Z;
  run_ : bool
}.

(** [MonopolyAllocator(int size)]; [datas_.resize] throws for a negative
    size, which it receives as a huge unsigned one. *)
Definition create (size : Z) : prog t :=
  if size <? 0 then throw length_error
  else mret (mk (replicate (Z.to_nat size) (mkData None true)) size size 0 true).

(** [std::find_if] with the predicate [item->available_]. *)
Fixpoint find_available (datas : list MonopolyData) : option nat :=
  match datas with
  | [] => None
  | d :: rest => if available_ d then Some 0%nat else S <$> find_available rest
  end.

(** The end of [query], from [find_if] on. *)
Definition take_slot (s : t) : t * option nat :=
  match find_available (datas_ s) with
  | None => (s, None)
  | Some item =>
      (mk (alter (fun d => mkData (data_ d) false) item (datas_ s))
          (capacity_ s) (num_available_ s - 1) (num_wait_thread_ s) (run_ s),
       Some item)
  end.

(** The predicate of [cv_.wait_for]. *)
Definition wait_predicate (s : t) : bool := (0 <? num_available_ s) || negb (run_ s).

(** [query] up to its wait: it returns at once, or blocks with the lock
    released. *)
Inductive entered := Returned (slot : option nat) | Blocked.

Definition query_enter (s : t) : t * entered :=
  if negb (run_ s) then (s, Returned None)
  else if num_available_ s =? 0 then
    (mk (datas_ s) (capacity_ s) (num_available_ s) (num_wait_thread_ s + 1) (run_ s),
     Blocked)
  else let '(s, slot) := take_slot s in (s, Returned slot).

(** [num_wait_thread_--] *)
Definition waiter_left (s : t) : t :=
  mk (datas_ s) (capacity_ s) (num_available_ s) (num_wait_thread_ s - 1) (run_ s).

(** [query] from the return of [wait_for] on, in the state the other
    threads have left.  [wait_for] returns its predicate: [false] is a wait
    that timed out. *)
Definition query_wake (s : t) : prog (t * option nat) :=
  let state := wait_predicate s in
  let s := waiter_left s in
  _ ← emit (NotifyOne "cv_exit_");
  if negb state || (num_available_ s =? 0) || negb (run_ s) then mret (s, None)
  else mret (take_slot s).

(** [release_one] *)
Definition release_one (prq : nat) (s : t) : prog t :=
  match datas_ s !! prq with
  | Some d =>
      if negb (available_ d) then
        let s := mk (<[prq := mkData (data_ d) true]> (datas_ s)) (capacity_ s)
                    (num_available_ s + 1) (num_wait_thread_ s) (run_ s) in
        _ ← emit (NotifyOne "cv_");
        mret s
      else mret s
  | None => mret s
  end.

(** The destructor, up to its wait for the threads inside [query]. *)
Definition shutdown (s : t) : prog t :=
  _ ← emit (NotifyAll "cv_");
  mret (mk (datas_ s) (capacity_ s) (num_available_ s) (num_wait_thread_ s) false).

(** [query] as one call: [interference] is what the other threads do to
    the pool while this one waits. *)
Definition query (interference : t -> t) (s : t) : prog (t * option nat) :=
  match query_enter s with
  | (s, Returned slot) => mret (s, slot)
  | (s, Blocked) => query_wake (interference s)
  end.

Definition num_available (s : t) : Z := num_available_ s.
Definition capacity (s : t) : Z := capacity_ s.

(** The holder of a slot stores an item in it through [data()]. *)
Definition assign (prq : nat) (item : Item) (s : t) : t :=
  mk (alter (fun d => mkData (Some item) (available_ d)) prq (datas_ s))
     (capacity_ s) (num_available_ s) (num_wait_thread_ s) (run_ s).

(** The transitions of a pool that is shared by any number of threads. *)
Inductive action :=
| QueryEnter
| QueryWake
| Release (prq : nat)
| Assign (prq : nat) (item : Item)
| Shutdown.

Definition enabled (a : action) (s : t) : bool :=
  match a with
  | QueryWake => 0 <? num_wait_thread_ s
  | Release prq => bool_decide (prq < length (datas_ s))%nat
  | _ => true
  end.

Definition exec (a : action) (s : t) : t :=
  match a with
  | QueryEnter => fst (query_enter s)
  | QueryWake => match result (query_wake s) with Returns (s, _) => s | _ => s end
  | Release prq => match result (release_one prq s) with Returns s => s | _ => s end
  | Assign prq item => assign prq item s
  | Shutdown => match result (shutdown s) with Returns s => s | _ => s end
  end.

Inductive reachable : t -> Prop :=
| reachable_create size s : result (create size) = Returns s -> reachable s
| reachable_exec a s : reachable s -> enabled a s = true -> reachable (exec a s).

(** How many slots are available, how many are in use. *)
Definition avail (ds : list MonopolyData) : nat :=
  length (filter (fun d => available_ d = true) ds).

Definition count_available (s : t) : nat := avail (datas_ s).

Definition count_in_use (s : t) : nat :=
  length (filter (fun d => available_ d = false) (datas_ s)).

(** The counter agrees with the flags, and there are [capacity_] slots. *)
Definition pool_inv (s : t) : Prop :=
  Z.of_nat (length (datas_ s)) = capacity_ s /\
  num_available_ s = Z.of_nat (avail (datas_ s)).

(** Slot [i] went from available to in use, and nothing else changed. *)
Definition slot_taken (s s' : t) (i : nat) : Prop :=
  exists d, datas_ s !! i = Some d /\ available_ d = true /\
    datas_ s' = <[i := mkData (data_ d) false]> (datas_ s) /\
    num_available_ s' = num_available_ s - 1 /\
    capacity_ s' = capacity_ s /\
    num_wait_thread_ s' = num_wait_thread_ s /\ run_ s' = run_ s.

(** A pool of two slots, the first of which is taken. *)
Definition two_slots_one_taken : t :=
  mk [mkData None false; mkData None true] 2 1 0 true.

(** [k] calls of [query] in a row, none of them with a release in between:
    what each call does at its entry. *)
Fixpoint queries (k : nat) (s : t) : list entered :=
  match k with
  | O => []
  | S k => let '(s, r) := query_enter s in r :: queries k s
  end.

(** The slots [from], [from + 1], ... as [query] returns them. *)
Fixpoint served (from : nat) (k : nat) : list entered :=
  match k with
  | O => []
  | S k => Returned (Some from) :: served (S from) k
  end.

End Pool.

Arguments MonopolyData : clear implicits.
Arguments t : clear implicits.

End MonopolyAllocator.

(** ** InferController: the job queue and its worker thread *)

Module InferController.

(** The worker thread behind [worker_]: it is inside its loop, or it has
    returned from [worker]. *)
Inductive thread := Looping | Finished.

Section Controller.

(** The template parameters, with the values their default constructors
    give. *)
Context {Input Output StartParam JobAdditional Item Derived : Type}.
Context (default_input : Input) (default_output : Output)
        (default_additional : JobAdditional).

(** [mono_tensor] is the slot of the pool the job holds, [pro] the promise
    it shares with the future handed to the caller; both are pointers. *)
Record Job := mkJob {
  input : Input;
  output : Output;
  additional : JobAdditional;
  mono_tensor : option nat;
  pro : option nat
}.

(** The controller.  [promises] is the store of the shared states of all
    promises made so far: [None] while nothing was set, then the value.
    [derived_] holds the members of the class that derives from the
    controller. *)
Record t := mk {
  start_param_ : option StartParam;
  run_ : bool;
  jobs_ : list Job;
  worker_ : option thread;
  tensor_allocator_ : option (MonopolyAllocator.t Item);
  promises : list (option Output);
  derived_ : Derived
}.

Definition set_jobs (jobs : list Job) (s : t) : t :=
  mk (start_param_ s) (run_ s) jobs (worker_ s) (tensor_allocator_ s) (promises s) (derived_ s).

Definition set_run (run : bool) (s : t) : t :=
  mk (start_param_ s) run (jobs_ s) (worker_ s) (tensor_allocator_ s) (promises s) (derived_ s).

Definition set_worker (w : option thread) (s : t) : t :=
  mk (start_param_ s) (run_ s) (jobs_ s) w (tensor_allocator_ s) (promises s) (derived_ s).

Definition set_allocator (a : option (MonopolyAllocator.t Item)) (s : t) : t :=
  mk (start_param_ s) (run_ s) (jobs_ s) (worker_ s) a (promises s) (derived_ s).

Definition set_promises (p : list (option Output)) (s : t) : t :=
  mk (start_param_ s) (run_ s) (jobs_ s) (worker_ s) (tensor_allocator_ s) p (derived_ s).

Definition set_derived (d : Derived) (s : t) : t :=
  mk (start_param_ s) (run_ s) (jobs_ s) (worker_ s) (tensor_allocator_ s) (promises s) d.

(** [std::make_shared<std::promise<Output>>()] *)
Definition make_promise (s : t) : t * nat :=
  (set_promises (promises s ++ [None]) s, length (promises s)).

(** [promise::set_value]: a second call on the same shared state throws
    [std::future_error]. *)
Definition set_value (p : option nat) (v : Output) (s : t) : prog t :=
  match p with
  | None => throw null_dereference
  | Some p =>
      match promises s !! p with
      | Some None => mret (set_promises (<[p := Some v]> (promises s)) s)
      | Some (Some _) => throw promise_already_satisfied
      | None => throw null_dereference
      end
  end.

(** The two pure virtual functions, and what is left of [worker] once it
    has seen [run_] false. *)
Context (preprocess : t -> Job -> Input -> prog (t * Job * bool)).
Context (worker_start : t -> prog (t * bool)).
Context (worker_exit : t -> prog t).

(** [commit] *)
Definition commit (input : Input) (s : t) : prog (t * option nat) :=
  let '(s, p) := make_promise s in
  let job := mkJob default_input default_output default_additional None (Some p) in
  '(s, job, ok) ← preprocess s job input;
  if negb ok then
    s ← set_value (pro job) default_output s;
    mret (s, pro job)
  else
    let s := set_jobs (jobs_ s ++ [job]) s in
    _ ← emit (NotifyOne "cond_");
    mret (s, pro job).

(** The first inner loop of [commits], over the inputs of one epoch. *)
Fixpoint commits_prepare (inputs : list Input) (s : t)
  : prog (t * list Job * list (option nat)) :=
  match inputs with
  | [] => mret (s, @nil Job, @nil (option nat))
  | input :: rest =>
      let '(s, p) := make_promise s in
      let job := mkJob default_input default_output default_additional None (Some p) in
      '(s, job, ok) ← preprocess s job input;
      s ← (if negb ok then set_value (pro job) default_output s else mret s);
      '(s, jobs, results) ← commits_prepare rest s;
      mret (s, job :: jobs, pro job :: results)
  end.

(** The loop over the epochs: [nepoch] of them are left, the next one
    starts at [begin_]. *)
Fixpoint commits_epochs (nepoch : nat) (begin_ : Z) (batch_size : Z) (inputs : list Input)
    (s : t) : prog (t * list (option nat)) :=
  match nepoch with
  | O => mret (s, @nil (option nat))
  | S nepoch =>
      let end_ := Z.min (Z.of_nat (length inputs)) (begin_ + batch_size) in
      let epoch_inputs :=
        take (Z.to_nat (end_ - begin_)) (drop (Z.to_nat begin_) inputs) in
      '(s, jobs, results) ← commits_prepare epoch_inputs s;
      let s := set_jobs (jobs_ s ++ jobs) s in
      _ ← emit (NotifyOne "cond_");
      '(s, more) ← commits_epochs nepoch (begin_ + batch_size) batch_size inputs s;
      mret (s, results ++ more)
  end.

(** [commits]; the division by a zero [batch_size] stops the process. *)
Definition commits (inputs : list Input) (s : t) : prog (t * list (option nat)) :=
  match tensor_allocator_ s with
  | None => throw null_dereference
  | Some allocator =>
      let size := Z.of_nat (length inputs) in
      let batch_size := Z.min size (MonopolyAllocator.capacity allocator) in
      if batch_size =? 0 then abort
      else
        let nepoch := (size + batch_size - 1) / batch_size in
        commits_epochs (Z.to_nat nepoch) 0 batch_size inputs s
  end.

(** The cleanup loop of [stop]. *)
Fixpoint stop_cleanup (jobs : list Job) (s : t) : prog t :=
  match jobs with
  | [] => mret (set_jobs [] s)
  | item :: rest =>
      s ← (if is_null (pro item) then mret s else set_value (pro item) default_output s);
      stop_cleanup rest (set_jobs rest s)
  end.

(** [stop]; joining the thread lets a worker that is still in its loop
    leave it. *)
Definition stop (s : t) : prog t :=
  let s := set_run false s in
  _ ← emit (NotifyAll "cond_");
  s ← stop_cleanup (jobs_ s) s;
  match worker_ s with
  | Some th =>
      s ← (match th with Looping => worker_exit s | Finished => mret s end);
      mret (set_worker None s)
  | None => mret s
  end.

(** [startup]: the caller waits for the value the worker reports. *)
Definition startup (param : StartParam) (s : t) : prog (t * bool) :=
  let s := set_run true s in
  let s := mk (Some param) (run_ s) (jobs_ s) (worker_ s) (tensor_allocator_ s)
              (promises s) (derived_ s) in
  r ← worker_start (set_worker (Some Looping) s);
  let '(s, ok) := r in
  mret (if ok : bool then s else set_worker (Some Finished) s, ok).

(** [get_jobs_and_wait], from the return of its wait on: [None] is the
    result [false]. *)
Definition get_jobs_and_wait (max_size : Z) (s : t) : t * option (list Job) :=
  if negb (run_ s) then (s, None)
  else
    (set_jobs (drop (Z.to_nat max_size) (jobs_ s)) s,
     Some (take (Z.to_nat max_size) (jobs_ s))).

(** Every job in the queue has a promise of its own on which nothing was
    set yet. *)
Definition queue_pending (s : t) : Prop :=
  NoDup (map pro (jobs_ s)) /\
  forall job, In job (jobs_ s) ->
    exists p, pro job = Some p /\ promises s !! p = Some None.

End Controller.

Arguments Job : clear implicits.
Arguments t : clear implicits.

End InferController.

(** ** YoloInferImpl: the detector built on the controller *)

Inductive NormType := NormNone | MeanStd | AlphaBeta.
Inductive ChannelType := ChannelNone | Invert.

Record Norm := mkNorm {
  mean : list Q;
  std : list Q;
  alpha : Q;
  beta : Q;
  type : NormType;
  channel_type : ChannelType
}.

(** [Norm::alpha_beta] and [Norm::None]; members that the source leaves
    unset are [0] here. *)
Definition Norm_alpha_beta (alpha beta : Q) (channel_type : ChannelType) : Norm :=
  mkNorm [] [] alpha beta AlphaBeta channel_type.

Definition Norm_None : Norm := mkNorm [] [] 0 0 NormNone ChannelNone.

(** [upbound]: the sum, the difference and the product are [int]s and wrap
    around; the division of [int]s rounds towards zero. *)
Definition upbound (n align : Z) : Z :=
  int32 (Z.quot (int32 (int32 (n + align) - 1)) align * align).

(** Modelled from the spec: the enumeration [Type] is declared in
    simple_yolo.hpp, which is not among the sources.  The code names the two
    members [V5] and [X] and has a branch for every other value. *)
Inductive YoloType := V5 | X | OtherType (value : Z).

(** Modelled from the spec: [Box] is declared in simple_yolo.hpp as well; a
    box list element holds left, top, right, bottom, confidence and class,
    the six arguments the worker constructs it from. *)
Record Box := mkBox {
  box_left : Q;
  box_top : Q;
  box_right : Q;
  box_bottom : Q;
  box_confidence : Q;
  box_class_label : Z
}.

Definition type_name (t : YoloType) : string :=
  match t with
  | V5 => "YoloV5"
  | X => "YoloX"
  | OtherType _ => "Unknow"
  end.

Module YoloInferImpl.

(** [cv::Mat], as far as the dispatcher looks at it. *)
Record Mat := mkMat { cols : Z; rows : Z }.

Record AffineMatrix := mkAffine { i2d : list Q; d2i : list Q }.

(** What the worker reads from the engine that [load_infer] returns. *)
Record Engine := mkEngine {
  max_batch_size : Z;
  images_shape : list Z;
  output_shape : list Z;
  engine_stream : Z
}.

(** The members of [YoloInferImpl], and the locals of [worker] that live
    from one iteration of its loop to the next. *)
Record members := mkMembers {
  input_width_ : Z;
  input_height_ : Z;
  gpu_ : Z;
  confidence_threshold_ : Q;
  nms_threshold_ : Q;
  stream_ : option Z;
  normalize_ : Norm;
  engine : option Engine;
  output_array_device : list (list Q)
}.

Definition state : Type :=
  InferController.t Mat (list Box) (string * Z) AffineMatrix Tensor.t members.

Definition Job : Type :=
  InferController.Job Mat (list Box) AffineMatrix.

Definition MAX_IMAGE_BBOX : Z := 1024.

Definition default_Mat : Mat := mkMat 0 0.
Definition default_AffineMatrix : AffineMatrix := mkAffine [] [].

(** One row of [output_array_device]: the counter and room for
    [MAX_IMAGE_BBOX] boxes. *)
Definition row_length : nat := Z.to_nat (1 + MAX_IMAGE_BBOX * Kernel.NUM_BOX_ELEMENT).

(** A fresh [YoloInferImpl]. *)
Definition new_instance : state :=
  InferController.mk None false [] None None []
    (mkMembers 0 0 0 0 0 None Norm_None None []).

Definition set_members (f : members -> members) (s : state) : state :=
  InferController.set_derived (f (InferController.derived_ s)) s.

(** The box the worker makes of box [i] of the array, whether it keeps
    it, and the box indices [i], [i + 1], ... it loops over. *)
Definition box_at (parray : list Q) (i : Z) : Box :=
  mkBox (Kernel.rd parray (Kernel.field i 0)) (Kernel.rd parray (Kernel.field i 1))
        (Kernel.rd parray (Kernel.field i 2)) (Kernel.rd parray (Kernel.field i 3))
        (Kernel.rd parray (Kernel.field i 4))
        (Kernel.float_to_int (Kernel.rd parray (Kernel.field i 5))).

Definition keeps (parray : list Q) (i : Z) : bool :=
  Kernel.float_to_int (Kernel.rd parray (Kernel.field i 6)) =? 1.

Fixpoint indices (i : Z) (n : nat) : list Z :=
  match n with
  | O => []
  | S n => i :: indices (i + 1) n
  end.

(** A detector with one pending promise, and the job that holds it. *)
Definition one_pending (rows : list (list Q)) : state :=
  InferController.mk None true [] (Some InferController.Looping) None [None]
    (mkMembers 2 2 0 (1 # 2) (1 # 2) None Norm_None None rows).

Definition job_of (p : nat) : Job :=
  InferController.mkJob default_Mat [] default_AffineMatrix None (Some p).

Section Detector.

(** The environment of the detector: the CUDA devices, the model files
    that load, the inverse of an affine matrix (OpenCV), what the other
    threads do to the pool while a caller waits in [query], the raw output
    of the forward pass for each job of a batch, and the order in which the
    threads of the two kernels run for the image at a batch index. *)
Context (env : cuda_env).
Context (load_infer : string -> option Engine).
Context (invertAffineTransform : list Q -> list Q).
Context (interference : MonopolyAllocator.t Tensor.t -> MonopolyAllocator.t Tensor.t).
Context (forward : list Job -> Z -> list Q).
Context (schedule_decode schedule_nms : Z -> list Z).

(** [AffineMatrix::compute] *)
Definition compute (from to : Z * Z) : AffineMatrix :=
  let scale_x := (inject_Z (fst to) / inject_Z (fst from))%Q in
  let scale_y := (inject_Z (snd to) / inject_Z (snd from))%Q in
  let scale := Qmin scale_x scale_y in
  let m := [scale; 0; - scale * inject_Z (fst from) * (1 # 2) + inject_Z (fst to) * (1 # 2);
            0; scale; - scale * inject_Z (snd from) * (1 # 2) + inject_Z (snd to) * (1 # 2)]%Q in
  mkAffine m (invertAffineTransform m).

(** [preprocess].  The pixels are outside the model: of the staging of
    the image and the warp kernel, the allocations and copies remain. *)
Definition preprocess (s : state) (job : Job) (image : Mat) : prog (state * Job * bool) :=
  match InferController.tensor_allocator_ s with
  | None =>
      _ ← INFOE "tensor_allocator_ is nullptr";
      mret (s, job, false)
  | Some allocator =>
      r ← MonopolyAllocator.query interference allocator;
      let '(allocator, slot) := r in
      let job := InferController.mkJob (InferController.input job)
                   (InferController.output job) (InferController.additional job)
                   slot (InferController.pro job) in
      match slot with
      | None =>
          _ ← INFOE "Tensor allocator query failed.";
          mret (InferController.set_allocator (Some allocator) s, job, false)
      | Some item =>
          let m := InferController.derived_ s in
          tensor ← match MonopolyAllocator.data_ <$>
                         MonopolyAllocator.datas_ allocator !! item with
                   | Some (Some tensor) => mret tensor
                   | _ =>
                       device ← get_device env CURRENT_DEVICE_ID;
                       data ← MixMemory.create env device;
                       workspace ← MixMemory.create env CURRENT_DEVICE_ID;
                       mret (Tensor.mk [] [] 0 Init 0 device data (Some workspace))
                   end;
          let additional := compute (cols image, rows image) (input_width_ m, input_height_ m) in
          let tensor := Tensor.set_stream (default 0 (stream_ m)) tensor in
          tensor ← Tensor.resize [1; 3; input_height_ m; input_width_ m] tensor;
          let size_image := size_t_of (int32 (int32 (cols image * rows image) * 3)) in
          let size_matrix := upbound 24 32 in
          workspace ← match Tensor.workspace_ tensor with
                      | None => throw null_dereference
                      | Some w =>
                          w ← MixMemory.gpu (size_matrix + size_image) w;
                          MixMemory.cpu (size_matrix + size_image) w
                      end;
          _ ← emit (MemcpyAsync "HostToDevice" size_matrix size_image);
          _ ← emit (MemcpyAsync "HostToDevice" 0 24);
          tensor ← Tensor.to_gpu true (Tensor.set_workspace (Some workspace) tensor);
          let allocator := MonopolyAllocator.assign item tensor allocator in
          let job := InferController.mkJob (InferController.input job)
                       (InferController.output job) additional
                       slot (InferController.pro job) in
          mret (InferController.set_allocator (Some allocator) s, job, true)
      end
  end.

(** [worker], up to the value it reports to [startup]. *)
Definition worker_start (s : state) : prog (state * bool) :=
  let '(file, gpuid) := default (""%string, 0) (InferController.start_param_ s) in
  match load_infer file with
  | None =>
      _ ← INFOE "Engine load failed";
      mret (s, false)
  | Some e =>
      allocator ← MonopolyAllocator.create (int32 (max_batch_size e * 2));
      let rows := replicate (Z.to_nat (max_batch_size e)) (replicate row_length 0%Q) in
      let s := set_members (fun m =>
                 mkMembers (nth 3 (images_shape e) 0) (nth 2 (images_shape e) 0) gpuid
                   (confidence_threshold_ m) (nms_threshold_ m) (Some (engine_stream e))
                   (normalize_ m) (Some e) rows) s in
      mret (InferController.set_allocator (Some allocator) s, true)
  end.

(** The end of [worker], after its loop. *)
Definition worker_exit (s : state) : prog state :=
  let s := set_members (fun m =>
             mkMembers (input_width_ m) (input_height_ m) (gpu_ m)
               (confidence_threshold_ m) (nms_threshold_ m) None
               (normalize_ m) None []) s in
  _ ← (match InferController.tensor_allocator_ s with
       | Some allocator => _ ← MonopolyAllocator.shutdown allocator; mret tt
       | None => mret tt
       end);
  _ ← INFO "Engine destroy.";
  mret (InferController.set_allocator None s).

(** The first loop over the batch: the slot of each job is read, its
    tensor and the workspace of the tensor are dereferenced, and the slot
    is given back.  The two copies go into tensors that are local to the
    worker and to the engine; they are outside the model. *)
Fixpoint worker_release (jobs : list Job) (s : state) : prog state :=
  match jobs with
  | [] => mret s
  | job :: rest =>
      match InferController.mono_tensor job, InferController.tensor_allocator_ s with
      | Some item, Some allocator =>
          match MonopolyAllocator.data_ <$> MonopolyAllocator.datas_ allocator !! item with
          | Some (Some mono) =>
              match Tensor.workspace_ mono with
              | Some _ =>
                  allocator ← MonopolyAllocator.release_one item allocator;
                  worker_release rest (InferController.set_allocator (Some allocator) s)
              | None => throw null_dereference
              end
          | _ => throw null_dereference
          end
      | _, _ => throw null_dereference
      end
  end.

(** The second loop: for the image at [ibatch] the counter is cleared and
    the two kernels are run on its row of [output_array_device]. *)
Definition worker_decode (e : Engine) (m : members) (jobs : list Job) (ibatch : Z)
    (job : Job) (output_array : list Q) : list Q :=
  let output_array := Kernel.wr output_array 0 0%Q in
  Kernel.decode_kernel_invoker (schedule_decode ibatch) (schedule_nms ibatch)
    (forward jobs ibatch) (nth 1 (output_shape e) 0) (nth 2 (output_shape e) 0 - 5)
    (confidence_threshold_ m) (nms_threshold_ m) (d2i (InferController.additional job))
    output_array MAX_IMAGE_BBOX.

(** The inner loop of the third loop: [n] boxes are left, the next one is
    box [i]. *)
Fixpoint collect_boxes (parray : list Q) (n : nat) (i : Z) (image_based_boxes : list Box)
  : list Box :=
  match n with
  | O => image_based_boxes
  | S n =>
      let pbox := 1 + i * Kernel.NUM_BOX_ELEMENT in
      let label := Kernel.float_to_int (Kernel.rd parray (pbox + 5)) in
      let keepflag := Kernel.float_to_int (Kernel.rd parray (pbox + 6)) in
      collect_boxes parray n (i + 1)
        (if keepflag =? 1 then
           image_based_boxes ++
             [mkBox (Kernel.rd parray pbox) (Kernel.rd parray (pbox + 1))
                    (Kernel.rd parray (pbox + 2)) (Kernel.rd parray (pbox + 3))
                    (Kernel.rd parray (pbox + 4)) label]
         else image_based_boxes)
  end.

(** The boxes the worker reads back for one image. *)
Definition read_back (parray : list Q) (job_output : list Box) : list Box :=
  let count := Z.min MAX_IMAGE_BBOX (Kernel.float_to_int (Kernel.rd parray 0)) in
  collect_boxes parray (Z.to_nat count) 0 job_output.

(** The third loop: the box list of each job goes into its promise. *)
Fixpoint worker_fulfil (jobs : list Job) (ibatch : nat) (s : state) : prog state :=
  match jobs with
  | [] => mret s
  | job :: rest =>
      let parray := nth ibatch (output_array_device (InferController.derived_ s)) [] in
      let image_based_boxes := read_back parray (InferController.output job) in
      s ← InferController.set_value (InferController.pro job) image_based_boxes s;
      worker_fulfil rest (S ibatch) s
  end.

(** One turn of the loop of [worker], taken when the wait of
    [get_jobs_and_wait] is over, that is, when [run_] is false or the queue
    is not empty; [false] says that the loop was left. *)
Definition worker_iteration (s : state) : prog (state * bool) :=
  match engine (InferController.derived_ s) with
  | None => throw null_dereference
  | Some e =>
      match InferController.get_jobs_and_wait (max_batch_size e) s with
      | (s, None) =>
          s ← worker_exit s;
          mret (InferController.set_worker (Some InferController.Finished) s, false)
      | (s, Some fetch_jobs) =>
          s ← worker_release fetch_jobs s;
          let m := InferController.derived_ s in
          let rows :=
            imap (fun ibatch row =>
                    match fetch_jobs !! ibatch with
                    | Some job => worker_decode e m fetch_jobs (Z.of_nat ibatch) job row
                    | None => row
                    end) (output_array_device m) in
          let s := set_members (fun m =>
                     mkMembers (input_width_ m) (input_height_ m) (gpu_ m)
                       (confidence_threshold_ m) (nms_threshold_ m) (stream_ m)
                       (normalize_ m) (engine m) rows) s in
          s ← worker_fulfil fetch_jobs 0 s;
          mret (s, true)
      end
  end.

(** The dispatcher with the two functions of the detector in place. *)
Definition commit : Mat -> state -> prog (state * option nat) :=
  InferController.commit default_Mat [] default_AffineMatrix preprocess.

Definition commits : list Mat -> state -> prog (state * list (option nat)) :=
  InferController.commits default_Mat [] default_AffineMatrix preprocess.

Definition stop : state -> prog state :=
  InferController.stop [] worker_exit.

(** [YoloInferImpl::startup] *)
Definition startup (file : string) (type : YoloType) (gpuid : Z)
    (confidence_threshold nms_threshold : Q) (s : state) : prog (state * bool) :=
  let set_norm (n : Norm) (m : members) :=
    mkMembers (input_width_ m) (input_height_ m) (gpu_ m) (confidence_threshold_ m)
      (nms_threshold_ m) (stream_ m) n (engine m) (output_array_device m) in
  s ← match type with
      | V5 => mret (set_members (set_norm (Norm_alpha_beta (1 # 255) 0 Invert)) s)
      | X => mret (set_members (set_norm Norm_None) s)
      | OtherType _ => _ ← INFOE "Unsupport type"; mret s
      end;
  let s := set_members (fun m =>
             mkMembers (input_width_ m) (input_height_ m) (gpu_ m) confidence_threshold
               nms_threshold (stream_ m) (normalize_ m) (engine m)
               (output_array_device m)) s in
  InferController.startup worker_start (file, gpuid) s.

(** [create_infer]: [None] is the null handle.  Resetting the instance
    runs the two destructors, both of which call [stop]. *)
Definition create_infer (engine_file : string) (type : YoloType) (gpuid : Z)
    (confidence_threshold nms_threshold : Q) : prog (option state) :=
  r ← startup engine_file type gpuid confidence_threshold nms_threshold new_instance;
  let '(instance, ok) := r in
  if negb ok then
    instance ← stop instance;
    _ ← stop instance;
    mret None
  else mret (Some instance).

End Detector.

(** A concrete detector: an engine for one image per batch, so a pool of
    two slots; a model file that loads; callers that wait in [query] while
    nobody releases a slot, until the wait times out. *)
Definition one_image_engine : Engine := mkEngine 1 [1; 3; 2; 2] [1; 1; 7] 0.

Definition always_loads (file : string) : option Engine := Some one_image_engine.

Definition nobody_releases (pool : MonopolyAllocator.t Tensor.t) : MonopolyAllocator.t Tensor.t :=
  pool.

Definition image : Mat := mkMat 2 2.

Definition started : prog state :=
  r ← startup always_loads "yolov5s.trtmodel" V5 0 (1 # 2) (1 # 2) new_instance;
  mret (fst r).

(** Two images are committed while the worker is busy: both slots of the
    pool are taken and both jobs wait in the queue. *)
Definition pool_exhausted : prog state :=
  s ← started;
  r ← commit one_device id nobody_releases image s;
  r ← commit one_device id nobody_releases image (fst r);
  mret (fst r).

(** A third image, submitted with [commits] and with [commit]. *)
Definition third_by_commits : prog (state * list (option nat)) :=
  s ← pool_exhausted; commits one_device id nobody_releases [image] s.

Definition third_by_commit : prog (state * option nat) :=
  s ← pool_exhausted; commit one_device id nobody_releases image s.

End YoloInferImpl.

(** ** More of MixMemory and Tensor *)

Module MixMemoryOps.

(** [reference_data]: the block lets go of what it has and adopts the
    buffers it is given; a side given as null or with size zero is absent
    and stays owned. *)
Definition reference_data (env : cuda_env)
    (cpu : option (list Byte.byte)) (cpu_size : Z)
    (gpu : option (list Byte.byte)) (gpu_size : Z) (m : MixMemory.t) : prog MixMemory.t :=
  m ← MixMemory.release_all m;
  let '(cpu, cpu_size) :=
    if is_null cpu || (cpu_size =? 0) then (None, 0) else (cpu, cpu_size) in
  let '(gpu, gpu_size) :=
    if is_null gpu || (gpu_size =? 0) then (None, 0) else (gpu, gpu_size) in
  mret (MixMemory.mk cpu cpu_size (negb (negb (is_null cpu) && (0 <? cpu_size)))
          (current_device env)
          gpu gpu_size (negb (negb (is_null gpu) && (0 <? gpu_size)))).

(** What a holder of the block can ask of it, and a sequence of such
    requests. *)
Inductive request :=
| Gpu (size : Z)
| Cpu (size : Z)
| ReleaseGpu
| ReleaseCpu
| ReleaseAll.

Definition serve (r : request) (m : MixMemory.t) : prog MixMemory.t :=
  match r with
  | Gpu size => MixMemory.gpu size m
  | Cpu size => MixMemory.cpu size m
  | ReleaseGpu => MixMemory.release_gpu m
  | ReleaseCpu => MixMemory.release_cpu m
  | ReleaseAll => MixMemory.release_all m
  end.

Fixpoint serve_all (rs : list request) (m : MixMemory.t) : prog MixMemory.t :=
  match rs with
  | [] => mret m
  | r :: rs => m ← serve r m; serve_all rs m
  end.

Definition is_malloc (e : event) : bool :=
  match e with CudaMalloc _ => true | _ => false end.


Definition is_free (e : event) : bool :=
  match e with CudaFree => true | _ => false end.


(** How many events of a kind a trace has. *)
Definition occurrences (kind : event -> bool) (tr : list event) : nat :=
  length (filter (fun e => kind e = true) tr).


(** Each buffer is as long as the size recorded for it, and a side without
    a buffer has size zero. *)
Definition sized (m : MixMemory.t) : Prop :=
  match MixMemory.cpu_ m with
  | Some b => Z.of_nat (length b) = MixMemory.cpu_size_ m
  | None => MixMemory.cpu_size_ m = 0
  end /\
  match MixMemory.gpu_ m with
  | Some b => Z.of_nat (length b) = MixMemory.gpu_size_ m
  | None => MixMemory.gpu_size_ m = 0
  end.

(** A block that refers to sixteen bytes of device memory of somebody
    else. *)
Definition borrowed : MixMemory.t :=
  MixMemory.mk None 0 true 0 (Some (MixMemory.zeros 16)) 16 false.

End MixMemoryOps.

Module TensorMore.

Import Tensor.

(** [setup_data] *)
Definition setup_data (env : cuda_env) (data : option MixMemory.t) (x : t) : prog t :=
  r ← match data with
      | None => d ← MixMemory.create env (device_id_ x); mret (d, device_id_ x)
      | Some d => mret (d, MixMemory.device_id_ d)
      end;
  let '(d, device) := r in
  let head := if is_null (MixMemory.gpu_ d) then
                if is_null (MixMemory.cpu_ d) then Init else Host
              else Device in
  mret (mk (shape_ x) (strides_ x) (bytes_ x) head (stream_ x) device d (workspace_ x)).

(** [Tensor(ndims, dims, data, device_id)] *)
Definition create (env : cuda_env) (dims : list Z) (data : option MixMemory.t)
    (device_id : Z) : prog t :=
  device ← get_device env device_id;
  x ← setup_data env data
         (mk [] [] 0 Init 0 device (MixMemory.mk None 0 true 0 None 0 true) None);
  resize dims x.

(** [release] *)
Definition release (x : t) : prog t :=
  d ← MixMemory.release_all (data_ x);
  mret (mk [] (strides_ x) 0 Init (stream_ x) (device_id_ x) d (workspace_ x)).

(** The loop of [offset_array]: [shape] is what is left of the shape, the
    first index of [index], if any, belongs to its first dimension. *)
Fixpoint offset_loop (shape : list Z) (index : list Z) (value : Z) : Z :=
  match shape with
  | [] => value
  | _ :: rest =>
      let value := match index with
                   | [] => value
                   | i :: _ => int32 (value + i)
                   end in
      let value := match rest with
                   | [] => value
                   | next :: _ => int32 (value * next)
                   end in
      offset_loop rest (tail index) value
  end.

(** [offset_array(size, index_array)] *)
Definition offset_array (index : list Z) (x : t) : prog Z :=
  _ ← Assert (bool_decide (length index <= length (shape_ x))%nat) "size <= shape_.size()";
  mret (offset_loop (shape_ x) index 0).

(** The product of the dimensions. *)
Definition product (shape : list Z) : Z := fold_right Z.mul 1 shape.

(** The position of an element in row-major order: the index of each
    dimension counts as many elements as the dimensions after it hold. *)
Fixpoint row_major (shape : list Z) (index : list Z) : Z :=
  match shape with
  | [] => 0
  | _ :: rest =>
      match index with
      | [] => 0
      | i :: index => i * product rest + row_major rest index
      end
  end.

(** The strides of a row-major layout, in bytes: the stride of a
    dimension is the size of what the dimensions after it hold. *)
Fixpoint row_major_strides (shape : list Z) : list Z :=
  match shape with
  | [] => []
  | _ :: rest => element_size * product rest :: row_major_strides rest
  end.

(** Every index is within its dimension. *)
Fixpoint in_bounds (shape : list Z) (index : list Z) : Prop :=
  match index, shape with
  | [], _ => True
  | i :: index, d :: rest => 0 <= i < d /\ in_bounds rest index
  | _ :: _, [] => False
  end.

(** The side the head points to is allocated for at least [bytes_] bytes,
    and the memory block is sized as it says. *)
Definition covered (x : t) : Prop :=
  MixMemoryOps.sized (data_ x) /\ 0 <= bytes_ x < 2 ^ 64 /\
  match head_ x with
  | Init => True
  | Device => bytes_ x <= MixMemory.gpu_size_ (data_ x)
  | Host => bytes_ x <= MixMemory.cpu_size_ (data_ x)
  end.

(** The buffer of the side the head points to. *)
Definition head_buffer (x : t) : option (list Byte.byte) :=
  match head_ x with
  | Init => None
  | Device => MixMemory.gpu_ (data_ x)
  | Host => MixMemory.cpu_ (data_ x)
  end.

(** What a holder of the tensor can do with it. *)
Inductive operation :=
| Resize (dims : list Z)
| ResizeSingleDim (idim size : Z)
| ToGpu (copy : bool)
| ToCpu (copy : bool)
| CopyFromGpu (offset : Z) (src : list Byte.byte) (num_element device_id : Z)
| Release.

Definition perform (env : cuda_env) (op : operation) (x : t) : prog t :=
  match op with
  | Resize dims => resize dims x
  | ResizeSingleDim idim size => resize_single_dim idim size x
  | ToGpu copy => to_gpu copy x
  | ToCpu copy => to_cpu copy x
  | CopyFromGpu offset src num_element device_id =>
      copy_from_gpu env offset src num_element device_id x
  | Release => release x
  end.

(** The tensors a program can get to: it constructs one over a memory
    block of its own and then operates on it. *)
Inductive reachable (env : cuda_env) : t -> Prop :=
| reachable_create dims device_id x :
    result (create env dims None device_id) = Returns x -> reachable env x
| reachable_perform op x x' :
    reachable env x -> result (perform env op x) = Returns x' -> reachable env x'.

(** The buffer of the side the head does not point to. *)
Definition other_side (x : t) : option (list Byte.byte) :=
  match head_ x with
  | Init => None
  | Device => MixMemory.cpu_ (data_ x)
  | Host => MixMemory.gpu_ (data_ x)
  end.

(** A tensor of eight bytes on the host that holds the bytes 1 to 8. *)
Definition host_bytes : list Byte.byte :=
  [Byte.x01; Byte.x02; Byte.x03; Byte.x04; Byte.x05; Byte.x06; Byte.x07; Byte.x08].

Definition on_host : t :=
  mk [2] [4] 8 Host 0 0 (MixMemory.mk (Some host_bytes) 8 true 0 None 0 true) None.

(** A tensor of sixteen zero bytes on the device. *)
Definition on_device : t :=
  mk [2; 2] [8; 4] 16 Device 0 0
     (MixMemory.mk None 0 true 0 (Some (MixMemory.zeros 16)) 16 true) None.

End TensorMore.

(** ** More of the detector *)

Module YoloInferMore.

Import YoloInferImpl.

Section Callers.

Context (env : cuda_env).
Context (invertAffineTransform : list Q -> list Q).
Context (interference : MonopolyAllocator.t Tensor.t -> MonopolyAllocator.t Tensor.t).


End Callers.

(** What a computation has returned; [d] if it has not. *)
Definition returned {A} (m : prog A) (d : A) : A :=
  match result m with
  | Returns a => a
  | _ => d
  end.

(** A detector whose worker runs, with a pool of two free slots and no
    promise made yet, and the same detector with both slots taken by two
    jobs that the worker has fetched; the rows of the output array hold
    what the kernels have left for the two images. *)
Definition ready : state :=
  InferController.mk None true [] (Some InferController.Looping)
    (Some (MonopolyAllocator.mk (replicate 2 (MonopolyAllocator.mkData None true)) 2 2 0 true))
    []
    (mkMembers 2 2 0 (1 # 2) (1 # 2) (Some 0) Norm_None (Some one_image_engine) []).

Definition busy : state :=
  InferController.mk None true [] (Some InferController.Looping)
    (Some (MonopolyAllocator.mk (replicate 2 (MonopolyAllocator.mkData None false)) 2 0 0 true))
    [None; None]
    (mkMembers 2 2 0 (1 # 2) (1 # 2) (Some 0) Norm_None (Some one_image_engine)
       [Kernel.two_boxes; Kernel.two_boxes_tie]).

Definition job_with (slot p : nat) : Job :=
  InferController.mkJob default_Mat [] default_AffineMatrix (Some slot) (Some p).

(** One [commit] on the ready detector, and three. *)
Definition committed_once : state * option nat :=
  returned (commit one_device id nobody_releases image ready) (ready, None).


End YoloInferMore.

(** ** The warp kernel of the preprocessing *)

(** [Norm::mean_std] *)
Definition Norm_mean_std (mean std : list Q) (alpha : Q) (channel_type : ChannelType) : Norm :=
  mkNorm (take 3 mean) (take 3 std) alpha 0 MeanStd channel_type.

Module WarpKernel.

Import Kernel.

(** Reading a [uint8_t*] at a byte offset. *)
Definition rdb (src : list Z) (i : Z) : Z :=
  if i <? 0 then 0 else nth (Z.to_nat i) src 0.

(** One of the four neighbours of the bilinear interpolation: a pixel of
    the source at a byte offset, or the constant colour. *)
Definition neighbour (src : list Z) (const_value_st : Z) (v : option Z) (channel : Z) : Q :=
  match v with
  | Some offset => inject_Z (rdb src (offset + channel))
  | None => inject_Z const_value_st
  end.

(** The colour a thread computes before it normalises it. *)
Definition interpolate (src : list Z) (src_line_size src_width src_height : Z)
    (const_value_st : Z) (src_x src_y : Q) : Q * Q * Q :=
  if Qle_bool src_x (-1) || Qle_bool (inject_Z src_width) src_x ||
     Qle_bool src_y (-1) || Qle_bool (inject_Z src_height) src_y
  then (inject_Z const_value_st, inject_Z const_value_st, inject_Z const_value_st)
  else
    let y_low := Qfloor src_y in
    let x_low := Qfloor src_x in
    let y_high := int32 (y_low + 1) in
    let x_high := int32 (x_low + 1) in
    let ly := (src_y - inject_Z y_low)%Q in
    let lx := (src_x - inject_Z x_low)%Q in
    let hy := (1 - ly)%Q in
    let hx := (1 - lx)%Q in
    let w1 := (hy * hx)%Q in
    let w2 := (hy * lx)%Q in
    let w3 := (ly * hx)%Q in
    let w4 := (ly * lx)%Q in
    let at_ (y x : Z) := Some (int32 (y * src_line_size) + int32 (x * 3)) in
    let v1 := if (0 <=? y_low) && (0 <=? x_low) then at_ y_low x_low else None in
    let v2 := if (0 <=? y_low) && (x_high <? src_width) then at_ y_low x_high else None in
    let v3 := if (y_high <? src_height) && (0 <=? x_low) then at_ y_high x_low else None in
    let v4 := if (y_high <? src_height) && (x_high <? src_width) then at_ y_high x_high
              else None in
    let c (channel : Z) :=
      (w1 * neighbour src const_value_st v1 channel +
       w2 * neighbour src const_value_st v2 channel +
       w3 * neighbour src const_value_st v3 channel +
       w4 * neighbour src const_value_st v4 channel)%Q in
    (c 0, c 1, c 2).

(** The channel swap and the normalisation at the end of a thread. *)
Definition normalize (norm : Norm) (c : Q * Q * Q) : Q * Q * Q :=
  let '(c0, c1, c2) := c in
  let '(c0, c2) := match channel_type norm with
                   | Invert => (c2, c0)
                   | ChannelNone => (c0, c2)
                   end in
  match type norm with
  | MeanStd =>
      (((c0 * alpha norm - rd (mean norm) 0) / rd (std norm) 0)%Q,
       ((c1 * alpha norm - rd (mean norm) 1) / rd (std norm) 1)%Q,
       ((c2 * alpha norm - rd (mean norm) 2) / rd (std norm) 2)%Q)
  | AlphaBeta =>
      ((c0 * alpha norm + beta norm)%Q, (c1 * alpha norm + beta norm)%Q,
       (c2 * alpha norm + beta norm)%Q)
  | NormNone => (c0, c1, c2)
  end.

(** The colour of the target pixel at column [dx] and row [dy]. *)
Definition colour (src : list Z) (src_line_size src_width src_height : Z)
    (const_value_st : Z) (warp_affine_matrix_2_3 : list Q) (norm : Norm) (dx dy : Z)
  : Q * Q * Q :=
  let m_x1 := rd warp_affine_matrix_2_3 0 in
  let m_y1 := rd warp_affine_matrix_2_3 1 in
  let m_z1 := rd warp_affine_matrix_2_3 2 in
  let m_x2 := rd warp_affine_matrix_2_3 3 in
  let m_y2 := rd warp_affine_matrix_2_3 4 in
  let m_z2 := rd warp_affine_matrix_2_3 5 in
  let src_x := (m_x1 * inject_Z dx + m_y1 * inject_Z dy + m_z1 + (1 # 2))%Q in
  let src_y := (m_x2 * inject_Z dx + m_y2 * inject_Z dy + m_z2 + (1 # 2))%Q in
  normalize norm
    (interpolate src src_line_size src_width src_height const_value_st src_x src_y).

(** One thread of [warp_affine_bilinear_and_normalize_plane_kernel]. *)
Definition warp_thread (src : list Z) (src_line_size src_width src_height : Z)
    (dst_width dst_height : Z) (const_value_st : Z) (warp_affine_matrix_2_3 : list Q)
    (norm : Norm) (edge : Z) (dst : list Q) (position : Z) : list Q :=
  if edge <=? position then dst
  else
    let dx := Z.rem position dst_width in
    let dy := Z.quot position dst_width in
    let '(c0, c1, c2) := colour src src_line_size src_width src_height const_value_st
                           warp_affine_matrix_2_3 norm dx dy in
    let area := int32 (dst_width * dst_height) in
    let pdst_c0 := int32 (dy * dst_width) + dx in
    let pdst_c1 := pdst_c0 + area in
    let pdst_c2 := pdst_c1 + area in
    wr (wr (wr dst pdst_c0 c0) pdst_c1 c1) pdst_c2 c2.

(** The kernel, with the threads in the order [schedule]. *)
Definition warp_kernel (schedule : list Z) (src : list Z)
    (src_line_size src_width src_height : Z) (dst : list Q) (dst_width dst_height : Z)
    (const_value_st : Z) (warp_affine_matrix_2_3 : list Q) (norm : Norm) (edge : Z)
  : list Q :=
  fold_left (warp_thread src src_line_size src_width src_height dst_width dst_height
               const_value_st warp_affine_matrix_2_3 norm edge) schedule dst.

(** [warp_affine_bilinear_and_normalize_plane]: one thread per pixel of
    the target. *)
Definition warp_affine_bilinear_and_normalize_plane (schedule : list Z) (src : list Z)
    (src_line_size src_width src_height : Z) (dst : list Q) (dst_width dst_height : Z)
    (matrix_2_3 : list Q) (const_value : Z) (norm : Norm) : list Q :=
  let jobs := int32 (dst_width * dst_height) in
  warp_kernel schedule src src_line_size src_width src_height dst dst_width dst_height
    const_value matrix_2_3 norm jobs.

(** Channel [k] of a colour. *)
Definition channel (c : Q * Q * Q) (k : Z) : Q :=
  let '(c0, c1, c2) := c in
  if k =? 0 then c0 else if k =? 1 then c1 else c2.

(** A source image of two by two pixels, all three channels of a pixel
    equal. *)
Definition grey_2x2 : list Z := [10; 10; 10; 20; 20; 20; 30; 30; 30; 40; 40; 40].

End WarpKernel.

(** ** InferImpl: the tensors of the bindings of an engine *)

Module InferImpl.

(** What the code asks the deserialised engine about a binding:
    [getBindingName], [getBindingDimensions], [bindingIsInput]. *)
Record Binding := mkBinding {
  name : string;
  dims : list Z;
  is_input : bool
}.

(** [EngineContext], once [build_model] has succeeded: its stream and what
    the engine answers to [getNbBindings], the three queries above and
    [getMaxBatchSize]. *)
Record EngineContext := mkContext {
  stream_ : Z;
  bindings : list Binding;
  max_batchsize : Z
}.

(** [InferImpl].  The tensors are held by shared pointers, several of
    which can point to the same tensor: [tensors] is the store of all
    tensors made so far and a pointer is an index into it.  An entry of
    [bindingsPtr_] is null or the device buffer of a tensor. *)
Record t := mk {
  tensors : list Tensor.t;
  inputs_ : list nat;
  outputs_ : list nat;
  inputs_map_to_ordered_index_ : list Z;
  outputs_map_to_ordered_index_ : list Z;
  inputs_name_ : list string;
  outputs_name_ : list string;
  orderdBlobs_ : list nat;
  blobsNameMapper_ : gmap string Z;
  context_ : option EngineContext;
  bindingsPtr_ : list (option nat);
  workspace_ : option MixMemory.t;
  device_ : Z
}.

(** A new [InferImpl]. *)
Definition empty : t := mk [] [] [] [] [] [] [] [] ∅ None [] None 0.

(** Reading a vector at an [int] index; outside the vector the source
    reads past its end, here that is a null dereference. *)
Definition at_ {A} (v : list A) (index : Z) : prog A :=
  if index <? 0 then throw null_dereference
  else match v !! Z.to_nat index with
       | Some a => mret a
       | None => throw null_dereference
       end.

(** One turn of the loop of [build_engine_input_and_outputs_mapper], for
    binding [i]. *)
Definition add_binding (env : cuda_env) (context : EngineContext) (s : t) (i : Z)
    (b : Binding) : prog t :=
  let dims := <[0%nat := max_batchsize context]> (dims b) in
  newTensor ← TensorMore.create env dims None CURRENT_DEVICE_ID;
  let newTensor := Tensor.set_workspace (workspace_ s)
                     (Tensor.set_stream (stream_ context) newTensor) in
  let p := length (tensors s) in
  let order := Z.of_nat (length (orderdBlobs_ s)) in
  mret (mk (tensors s ++ [newTensor])
          (if is_input b then inputs_ s ++ [p] else inputs_ s)
          (if is_input b then outputs_ s else outputs_ s ++ [p])
          (if is_input b then inputs_map_to_ordered_index_ s ++ [order]
           else inputs_map_to_ordered_index_ s)
          (if is_input b then outputs_map_to_ordered_index_ s
           else outputs_map_to_ordered_index_ s ++ [order])
          (if is_input b then inputs_name_ s ++ [name b] else inputs_name_ s)
          (if is_input b then outputs_name_ s else outputs_name_ s ++ [name b])
          (orderdBlobs_ s ++ [p])
          (<[name b := i]> (blobsNameMapper_ s))
          (context_ s) (bindingsPtr_ s) (workspace_ s) (device_ s)).

Fixpoint add_bindings (env : cuda_env) (context : EngineContext) (s : t) (i : Z)
    (bs : list Binding) : prog t :=
  match bs with
  | [] => mret s
  | b :: bs =>
      s ← add_binding env context s i b;
      add_bindings env context s (i + 1) bs
  end.

(** [build_engine_input_and_outputs_mapper]: the two vectors
    [inputs_map_to_ordered_index_] and [outputs_map_to_ordered_index_] are
    not among those it clears. *)
Definition build_engine_input_and_outputs_mapper (env : cuda_env) (s : t) : prog t :=
  match context_ s with
  | None => throw null_dereference
  | Some context =>
      let s := mk (tensors s) [] [] (inputs_map_to_ordered_index_ s)
                  (outputs_map_to_ordered_index_ s) [] [] [] ∅
                  (context_ s) [] (workspace_ s) (device_ s) in
      s ← add_bindings env context s 0 (bindings context);
      mret (mk (tensors s) (inputs_ s) (outputs_ s) (inputs_map_to_ordered_index_ s)
              (outputs_map_to_ordered_index_ s) (inputs_name_ s) (outputs_name_ s)
              (orderdBlobs_ s) (blobsNameMapper_ s) (context_ s)
              (replicate (length (orderdBlobs_ s)) None) (workspace_ s) (device_ s))
  end.

(** [load_from_memory], after [build_model] has succeeded with the
    context [context]. *)
Definition load_from_memory (env : cuda_env) (context : EngineContext) (s : t) : prog t :=
  workspace ← MixMemory.create env CURRENT_DEVICE_ID;
  build_engine_input_and_outputs_mapper env
    (mk (tensors s) (inputs_ s) (outputs_ s) (inputs_map_to_ordered_index_ s)
        (outputs_map_to_ordered_index_ s) (inputs_name_ s) (outputs_name_ s)
        (orderdBlobs_ s) (blobsNameMapper_ s) (Some context)
        (bindingsPtr_ s) (Some workspace) (current_device env)).

(** [input], [output], [get_input_name], [get_output_name] *)
Definition input (index : Z) (s : t) : prog nat :=
  _ ← Assert ((0 <=? index) && (index <? Z.of_nat (length (inputs_name_ s))))
        "index >= 0 && index < inputs_name_.size()";
  at_ (inputs_ s) index.

Definition get_input_name (index : Z) (s : t) : prog string :=
  _ ← Assert ((0 <=? index) && (index <? Z.of_nat (length (inputs_name_ s))))
        "index >= 0 && index < inputs_name_.size()";
  at_ (inputs_name_ s) index.

Definition output (index : Z) (s : t) : prog nat :=
  _ ← Assert ((0 <=? index) && (index <? Z.of_nat (length (outputs_ s))))
        "index >= 0 && index < outputs_.size()";
  at_ (outputs_ s) index.

Definition get_output_name (index : Z) (s : t) : prog string :=
  _ ← Assert ((0 <=? index) && (index <? Z.of_nat (length (outputs_name_ s))))
        "index >= 0 && index < outputs_name_.size()";
  at_ (outputs_name_ s) index.

(** [tensor(name)] *)
Definition tensor (n : string) (s : t) : prog nat :=
  _ ← Assert (bool_decide (is_Some (blobsNameMapper_ s !! n)))
        "this->blobsNameMapper_.find(name) != this->blobsNameMapper_.end()";
  at_ (orderdBlobs_ s) (default 0 (blobsNameMapper_ s !! n)).

Definition is_input_name (n : string) (s : t) : bool := bool_decide (n ∈ inputs_name_ s).
Definition is_output_name (n : string) (s : t) : bool := bool_decide (n ∈ outputs_name_ s).

Definition num_input (s : t) : Z := Z.of_nat (length (inputs_ s)).
Definition num_output (s : t) : Z := Z.of_nat (length (outputs_ s)).

(** Writing a vector at an [int] index. *)
Definition put {A} (v : list A) (index : Z) (a : A) : prog (list A) :=
  if (index <? 0) || (Z.of_nat (length v) <=? index) then throw null_dereference
  else mret (<[Z.to_nat index := a]> v).

(** [set_input] and [set_output] *)
Definition set_input (index : Z) (tensor : nat) (s : t) : prog t :=
  _ ← Assert ((0 <=? index) && (index <? Z.of_nat (length (inputs_ s))))
        "index >= 0 && index < inputs_.size()";
  inputs ← put (inputs_ s) index tensor;
  order_index ← at_ (inputs_map_to_ordered_index_ s) index;
  blobs ← put (orderdBlobs_ s) order_index tensor;
  mret (mk (tensors s) inputs (outputs_ s) (inputs_map_to_ordered_index_ s)
          (outputs_map_to_ordered_index_ s) (inputs_name_ s) (outputs_name_ s)
          blobs (blobsNameMapper_ s) (context_ s) (bindingsPtr_ s) (workspace_ s)
          (device_ s)).

Definition set_output (index : Z) (tensor : nat) (s : t) : prog t :=
  _ ← Assert ((0 <=? index) && (index <? Z.of_nat (length (outputs_ s))))
        "index >= 0 && index < outputs_.size()";
  outputs ← put (outputs_ s) index tensor;
  order_index ← at_ (outputs_map_to_ordered_index_ s) index;
  blobs ← put (orderdBlobs_ s) order_index tensor;
  mret (mk (tensors s) (inputs_ s) outputs (inputs_map_to_ordered_index_ s)
          (outputs_map_to_ordered_index_ s) (inputs_name_ s) (outputs_name_ s)
          blobs (blobsNameMapper_ s) (context_ s) (bindingsPtr_ s) (workspace_ s)
          (device_ s)).

(** [get_max_batch_size] *)
Definition get_max_batch_size (s : t) : prog Z :=
  _ ← Assert (negb (is_null (context_ s))) "this->context_ != nullptr";
  match context_ s with
  | Some context => mret (max_batchsize context)
  | None => throw null_dereference
  end.

(** The two views of the blobs agree: input [k] is the blob at the
    position recorded for it, which is the position its name maps to, and
    the same for the outputs; no position is recorded twice. *)
Definition consistent (s : t) : Prop :=
  length (inputs_name_ s) = length (inputs_ s) /\
  length (outputs_name_ s) = length (outputs_ s) /\
  (forall k p, inputs_ s !! k = Some p ->
     exists i n, inputs_map_to_ordered_index_ s !! k = Some (Z.of_nat i) /\
       orderdBlobs_ s !! i = Some p /\
       inputs_name_ s !! k = Some n /\ blobsNameMapper_ s !! n = Some (Z.of_nat i)) /\
  (forall k p, outputs_ s !! k = Some p ->
     exists i n, outputs_map_to_ordered_index_ s !! k = Some (Z.of_nat i) /\
       orderdBlobs_ s !! i = Some p /\
       outputs_name_ s !! k = Some n /\ blobsNameMapper_ s !! n = Some (Z.of_nat i)) /\
  NoDup (inputs_map_to_ordered_index_ s ++ outputs_map_to_ordered_index_ s).

(** The bindings [done] have their tensors: binding [i] is the blob at
    position [i], its name maps to [i], and its tensor has the dimensions
    of the binding with the batch size in front, the stream of the context
    and the workspace of the engine, and is among the inputs or among the
    outputs. *)
Definition mapped (context : EngineContext) (s : t) (done : list Binding) : Prop :=
  length (orderdBlobs_ s) = length done /\
  (length (inputs_ s) + length (outputs_ s) = length done)%nat /\
  length (inputs_map_to_ordered_index_ s) = length (inputs_ s) /\
  length (outputs_map_to_ordered_index_ s) = length (outputs_ s) /\
  consistent s /\
  (forall n, is_Some (blobsNameMapper_ s !! n) -> n ∈ map name done) /\
  forall i b, done !! i = Some b ->
    blobsNameMapper_ s !! name b = Some (Z.of_nat i) /\
    exists p x, orderdBlobs_ s !! i = Some p /\ tensors s !! p = Some x /\
      Tensor.shape_ x = <[0%nat := max_batchsize context]> (dims b) /\
      Tensor.stream_ x = stream_ context /\
      Tensor.workspace_ x = workspace_ s /\
      if is_input b then p ∈ inputs_ s /\ name b ∈ inputs_name_ s
      else p ∈ outputs_ s /\ name b ∈ outputs_name_ s.

(** The engine of a detector: one input named images, one output named
    output. *)
Definition yolo_context : EngineContext :=
  mkContext 0 [mkBinding "images" [1; 3; 2; 2] true; mkBinding "output" [1; 1; 7] false] 4.

End InferImpl.

(** ** Tensor files *)

Module TensorFile.

Import Tensor.

(** The byte with the value [z mod 256]. *)
Definition byte_of (z : Z) : Byte.byte :=
  default Byte.x00 (Byte.of_N (Z.to_N (z mod 256))).

Definition byte_value (b : Byte.byte) : Z := Z.of_N (Byte.to_N b).

(** The four bytes of a 32-bit integer in memory, lowest first, as
    [fwrite] puts them out on the little-endian machines the code runs
    on. *)
Definition le32 (z : Z) : list Byte.byte :=
  [byte_of z; byte_of (z / 2 ^ 8); byte_of (z / 2 ^ 16); byte_of (z / 2 ^ 24)].

(** [save_to_file]: [can_open] says whether [fopen] succeeds.  The result
    is the tensor, which [cpu()] may have moved to the host, and the bytes
    written to the file, or [None] for the result [false]. *)
Definition save_to_file (can_open : bool) (x : t) : prog (t * option (list Byte.byte)) :=
  if empty x then mret (x, None)
  else if negb can_open then mret (x, None)
  else
    let ndims := int32 (Z.of_nat (length (shape_ x))) in
    let dtype_ := 0 in
    let head := le32 4241482466 ++ le32 ndims ++ le32 dtype_ in
    let dims := concat (map le32 (shape_ x)) in
    x ← to_cpu true x;
    let data := take (Z.to_nat (bytes_ x)) (default [] (MixMemory.cpu_ (data_ x))) in
    mret (x, Some (head ++ dims ++ data)).

(** [np.frombuffer(binary_data, np.uint32, count, offset)] *)
Fixpoint uint32s (count : nat) (data : list Byte.byte) : option (list Z) :=
  match count with
  | O => Some []
  | S count =>
      match data with
      | b0 :: b1 :: b2 :: b3 :: rest =>
          let v := byte_value b0 + 2 ^ 8 * byte_value b1 + 2 ^ 16 * byte_value b2
                   + 2 ^ 24 * byte_value b3 in
          cons v <$> uint32s count rest
      | _ => None
      end
  end.

(** The loader [load_tensor] that the comment in the class gives for
    these files, in Python with NumPy: the shape and the bytes of the
    elements, or [None] where it raises. *)
Definition load_tensor (binary_data : list Byte.byte) : option (list Z * list Byte.byte) :=
  match uint32s 3 binary_data with
  | Some [magic_number; ndims; dtype] =>
      if negb (magic_number =? 4241482466) then None
      else
        match uint32s (Z.to_nat ndims) (drop (3 * 4) binary_data) with
        | None => None
        | Some dims =>
            let itemsize := if dtype =? 0 then Some 4 else if dtype =? 1 then Some 2
                            else None in
            match itemsize with
            | None => None
            | Some itemsize =>
                let elements := drop (Z.to_nat ((ndims + 3) * 4)) binary_data in
                if (Z.of_nat (length elements) mod itemsize =? 0) &&
                   (Z.of_nat (length elements) / itemsize =? TensorMore.product dims)
                then Some (dims, elements)
                else None
            end
        end
  | _ => None
  end.

End TensorFile.

(** ** The pool after its destructor has begun *)

Module MonopolyMore.

Import MonopolyAllocator.

Section Shared.

Context {Item : Type}.

(** What the pool comes to when the threads that share it do [acts], one
    after the other. *)
Definition run (acts : list (action (Item := Item))) (s : t Item) : t Item :=
  foldl (fun s a => exec a s) s acts.

(** The waits of [query] that end among [acts]. *)
Definition is_wake (a : action (Item := Item)) : bool :=
  match a with QueryWake => true | _ => false end.

Definition wakes (acts : list (action (Item := Item))) : nat :=
  length (filter (fun a => is_wake a = true) acts).

End Shared.

(** A pool whose one slot is taken, with one [query] blocked on it. *)
Definition one_waiting : t nat := mk [mkData None false] 1 0 1 true.

End MonopolyMore.

(** ** The file name of a log line *)

Module FileName.

Import Stdlib.Strings.Ascii.

(** [std::string::npos] *)
Definition npos : Z := 2 ^ 64 - 1.

(** [path.rfind(ch)]: the position of the last [ch], or [npos]. *)
Fixpoint rfind (path : list ascii) (ch : ascii) : Z :=
  match path with
  | [] => npos
  | a :: rest =>
      let r := rfind rest ch in
      if r =? npos then (if decide (a = ch) then 0 else npos) else r + 1
  end.

(** [path.substr(pos, count)], [None] for the exception it throws when
    [pos] is behind the end. *)
Definition substr (path : list ascii) (pos count : Z) : option (list ascii) :=
  if Z.of_nat (length path) <? pos then None
  else
    let rlen := Z.min count (Z.of_nat (length path) - pos) in
    Some (take (Z.to_nat rlen) (drop (Z.to_nat pos) path)).

(** [file_name], as it is compiled where [U_OS_WINDOWS] is not defined. *)
Definition file_name (path : list ascii) (include_suffix : bool) : option (list ascii) :=
  if decide (path = []) then Some []
  else
    let p := int32 (rfind path "/"%char) in
    let p := int32 (p + 1) in
    if include_suffix then substr path (size_t_of p) npos
    else
      let u := int32 (rfind path "."%char) in
      if u =? -1 then substr path (size_t_of p) npos
      else
        let u := if u <=? p then int32 (Z.of_nat (length path)) else u in
        substr path (size_t_of p) (size_t_of (int32 (u - p))).

(** src/simple_yolo.cu and .config/a, as lists of characters. *)
Definition source_path : list ascii := list_ascii_of_string "src/simple_yolo.cu".
Definition hidden_path : list ascii := list_ascii_of_string ".config/a".

End FileName.

(** ** InferImpl: what [forward] hands to the engine *)

Module Forward.

Import InferImpl.

(** [Tensor::size(index)], which reads [shape_[index]]. *)
Definition size (index : Z) (x : Tensor.t) : prog Z := at_ (Tensor.shape_ x) index.

(** The tensor a shared pointer points to. *)
Definition deref (p : nat) (s : t) : prog Tensor.t :=
  match tensors s !! p with
  | Some x => mret x
  | None => throw null_dereference
  end.

(** A method has changed the tensor that [p] points to. *)
Definition store (p : nat) (x : Tensor.t) (s : t) : t :=
  mk (<[p := x]> (tensors s)) (inputs_ s) (outputs_ s) (inputs_map_to_ordered_index_ s)
     (outputs_map_to_ordered_index_ s) (inputs_name_ s) (outputs_name_ s)
     (orderdBlobs_ s) (blobsNameMapper_ s) (context_ s) (bindingsPtr_ s) (workspace_ s)
     (device_ s).

(** The first loop of [forward]: the calls of [setBindingDimensions] it
    makes, with the index of the binding and the dimensions. *)
Fixpoint set_binding_dimensions (inputBatchSize : Z) (i : Z) (bs : list Binding)
  : list (Z * list Z) :=
  match bs with
  | [] => []
  | b :: bs =>
      let dims := <[0%nat := inputBatchSize]> (dims b) in
      (if is_input b then [(i, dims)] else [])
      ++ set_binding_dimensions inputBatchSize (i + 1) bs
  end.

(** The loop over the outputs, from output [i] on: [outputs] are the
    pointers [outputs_[i]], [outputs_[i + 1]], ... *)
Fixpoint forward_outputs (inputBatchSize : Z) (outputs : list nat) (s : t) : prog t :=
  match outputs with
  | [] => mret s
  | p :: outputs =>
      x ← deref p s;
      x ← Tensor.resize_single_dim 0 inputBatchSize x;
      x ← Tensor.to_gpu false x;
      forward_outputs inputBatchSize outputs (store p x s)
  end.

(** The device pointer of the memory of the tensor that [p] points to: null,
    or the buffer of that tensor. *)
Definition pointer (p : nat) (x : Tensor.t) : option nat :=
  if is_null (MixMemory.gpu_ (Tensor.data_ x)) then None else Some p.

(** [Tensor::gpu()]: the tensor goes to the device, the result is the
    device pointer of its memory. *)
Definition gpu (p : nat) (s : t) : prog (t * option nat) :=
  x ← deref p s;
  x ← Tensor.to_gpu true x;
  mret (store p x s, pointer p x).

(** The engine with other binding pointers. *)
Definition with_pointers (ptrs : list (option nat)) (s : t) : t :=
  mk (tensors s) (inputs_ s) (outputs_ s) (inputs_map_to_ordered_index_ s)
     (outputs_map_to_ordered_index_ s) (inputs_name_ s) (outputs_name_ s)
     (orderdBlobs_ s) (blobsNameMapper_ s) (context_ s) ptrs (workspace_ s) (device_ s).


(** The loop over the blobs, from blob [i] on. *)
Fixpoint forward_bindings (i : Z) (blobs : list nat) (s : t) : prog t :=
  match blobs with
  | [] => mret s
  | p :: blobs =>
      '(s, ptr) ← gpu p s;
      ptrs ← put (bindingsPtr_ s) i ptr;
      forward_bindings (i + 1) blobs (with_pointers ptrs s)
  end.

(** [forward], up to its call of [enqueueV2]: the result is the engine as
    [enqueueV2] finds it, and the calls of [setBindingDimensions] made. *)
Definition forward (s : t) : prog (t * list (Z * list Z)) :=
  match context_ s with
  | None => throw null_dereference
  | Some context =>
      first ← at_ (inputs_ s) 0;
      first ← deref first s;
      inputBatchSize ← size 0 first;
      let calls := set_binding_dimensions inputBatchSize 0 (bindings context) in
      s ← forward_outputs inputBatchSize (outputs_ s) s;
      s ← forward_bindings 0 (orderdBlobs_ s) s;
      mret (s, calls)
  end.

(** The fields of the engine other than its tensors and its binding
    pointers. *)
Definition same_views (s s' : t) : Prop :=
  inputs_ s' = inputs_ s /\ outputs_ s' = outputs_ s /\
  inputs_map_to_ordered_index_ s' = inputs_map_to_ordered_index_ s /\
  outputs_map_to_ordered_index_ s' = outputs_map_to_ordered_index_ s /\
  inputs_name_ s' = inputs_name_ s /\ outputs_name_ s' = outputs_name_ s /\
  orderdBlobs_ s' = orderdBlobs_ s /\ blobsNameMapper_ s' = blobsNameMapper_ s /\
  context_ s' = context_ s /\
  length (tensors s') = length (tensors s).

(** The engine of a detector after its load, and the same engine once the
    caller has put two images into its input, on the host. *)
Definition loaded : t :=
  YoloInferMore.returned (load_from_memory one_device yolo_context empty) empty.

Definition two_images : t :=
  YoloInferMore.returned
    (x ← deref 0 loaded;
     x ← Tensor.resize_single_dim 0 2 x;
     x ← Tensor.to_cpu true x;
     mret (store 0 x loaded)) loaded.

End Forward.

(** ** The decode and NMS kernels in single precision *)

(** The two kernels and the read-back of the worker once more, with the
    arithmetic and the comparisons of the source in binary32. *)
Module Kernel32.

Import Binary32.

(** Modelled from the spec: [Box] is declared in simple_yolo.hpp; here
    with the [float] fields in binary32. *)
Record Box := mkBox {
  left : float;
  top : float;
  right : float;
  bottom : float;
  confidence : float;
  class_label : Z
}.

(** Reading and writing a [float*] at an element offset. *)
Definition rd (a : list float) (i : Z) : float :=
  if i <? 0 then zero else nth (Z.to_nat i) a zero.

Definition wr (a : list float) (i : Z) (v : float) : list float :=
  if i <? 0 then a else <[Z.to_nat i := v]> a.

Section Compiled.

(** [a * b + c] as the compiler evaluates it: the device compiler may
    contract the multiplication and the addition into one fused operation
    with a single rounding. *)
Context (fmad : float -> float -> float -> float).

Definition affine_project (matrix : list float) (x y : float) : float * float :=
  (fadd (fmad (rd matrix 0) x (fmul (rd matrix 1) y)) (rd matrix 2),
   fadd (fmad (rd matrix 3) x (fmul (rd matrix 4) y)) (rd matrix 5)).

(** The class loop of [decode_kernel]: [n] iterations are left, the next
    one reads class [i] at [predict + p]. *)
Fixpoint scan_classes (predict : list float) (n : nat) (p i : Z) (confidence : float)
    (label : Z) : float * Z :=
  match n with
  | O => (confidence, label)
  | S n =>
      if fgt (rd predict p) confidence
      then scan_classes predict n (p + 1) (i + 1) (rd predict p) i
      else scan_classes predict n (p + 1) (i + 1) confidence label
  end.

Definition best_class (predict : list float) (num_classes pitem : Z) : float * Z :=
  scan_classes predict (Z.to_nat (num_classes - 1)) (pitem + 6) 1 (rd predict (pitem + 5)) 0.

(** One thread of [decode_kernel].  [atomicAdd] on the [float] counter
    [parray[0]] adds [1.0f] and returns the value before the addition. *)
Definition decode_thread (predict : list float) (num_bboxes num_classes : Z)
    (confidence_threshold : float) (invert_affine_matrix : list float) (max_objects : Z)
    (parray : list float) (position : Z) : list float :=
  if num_bboxes <=? position then parray
  else
    let pitem := (5 + num_classes) * position in
    let objectness := rd predict (pitem + 4) in
    if flt objectness confidence_threshold then parray
    else
      let '(confidence, label) := best_class predict num_classes pitem in
      let confidence := fmul confidence objectness in
      if flt confidence confidence_threshold then parray
      else
        let old := rd parray 0 in
        let parray := wr parray 0 (fadd old one) in
        let index := to_int_device old in
        if max_objects <=? index then parray
        else
          let cx := rd predict pitem in
          let cy := rd predict (pitem + 1) in
          let width := rd predict (pitem + 2) in
          let height := rd predict (pitem + 3) in
          let left_ := fmad (SpecFloat.SFopp width) half cx in
          let top_ := fmad (SpecFloat.SFopp height) half cy in
          let right_ := fmad width half cx in
          let bottom_ := fmad height half cy in
          let '(left_, top_) := affine_project invert_affine_matrix left_ top_ in
          let '(right_, bottom_) := affine_project invert_affine_matrix right_ bottom_ in
          let pout_item := 1 + index * Kernel.NUM_BOX_ELEMENT in
          let parray := wr parray pout_item left_ in
          let parray := wr parray (pout_item + 1) top_ in
          let parray := wr parray (pout_item + 2) right_ in
          let parray := wr parray (pout_item + 3) bottom_ in
          let parray := wr parray (pout_item + 4) confidence in
          let parray := wr parray (pout_item + 5) (of_int label) in
          wr parray (pout_item + 6) one.

(** The kernel: every thread runs once; [schedule] lists the thread
    positions in the order in which the threads reach their atomic
    increment. *)
Definition decode_kernel (schedule : list Z) (predict : list float)
    (num_bboxes num_classes : Z) (confidence_threshold : float)
    (invert_affine_matrix : list float) (parray : list float) (max_objects : Z)
  : list float :=
  fold_left (decode_thread predict num_bboxes num_classes confidence_threshold
               invert_affine_matrix max_objects) schedule parray.

Definition box_iou (aleft atop aright abottom bleft btop bright bbottom : float) : float :=
  let cleft := fmax aleft bleft in
  let ctop := fmax atop btop in
  let cright := fmin aright bright in
  let cbottom := fmin abottom bbottom in
  let c_area := fmul (fmax (fsub cright cleft) zero) (fmax (fsub cbottom ctop) zero) in
  if feq c_area zero then zero
  else
    let a_area := fmul (fmax zero (fsub aright aleft)) (fmax zero (fsub abottom atop)) in
    let b_area := fmul (fmax zero (fsub bright bleft)) (fmax zero (fsub bbottom btop)) in
    fdiv c_area (fsub (fadd a_area b_area) c_area).

(** The body of the loop of [nms_kernel] for one [i]: does box [i]
    suppress the box at [position]? *)
Definition nms_suppresses (bboxes : list float) (threshold : float) (position i : Z)
  : bool :=
  let pcurrent := 1 + position * Kernel.NUM_BOX_ELEMENT in
  let pitem := 1 + i * Kernel.NUM_BOX_ELEMENT in
  if (i =? position) || fne (rd bboxes (pcurrent + 5)) (rd bboxes (pitem + 5))
  then false
  else if fge (rd bboxes (pitem + 4)) (rd bboxes (pcurrent + 4)) then
    if feq (rd bboxes (pitem + 4)) (rd bboxes (pcurrent + 4)) && (i <? position)
    then false
    else
      let iou := box_iou
        (rd bboxes pcurrent) (rd bboxes (pcurrent + 1))
        (rd bboxes (pcurrent + 2)) (rd bboxes (pcurrent + 3))
        (rd bboxes pitem) (rd bboxes (pitem + 1))
        (rd bboxes (pitem + 2)) (rd bboxes (pitem + 3)) in
      fgt iou threshold
  else false.

Fixpoint nms_scan (bboxes : list float) (threshold : float) (position : Z) (n : nat)
    (i : Z) : bool :=
  match n with
  | O => false
  | S n =>
      if nms_suppresses bboxes threshold position i then true
      else nms_scan bboxes threshold position n (i + 1)
  end.

(** One thread of [nms_kernel]. *)
Definition nms_thread (max_objects : Z) (threshold : float) (bboxes : list float)
    (position : Z) : list float :=
  let count := Z.min (to_int_device (rd bboxes 0)) max_objects in
  if count <=? position then bboxes
  else if nms_scan bboxes threshold position (Z.to_nat count) 0
  then wr bboxes (Kernel.field position 6) zero
  else bboxes.

Definition nms_kernel (schedule : list Z) (bboxes : list float) (max_objects : Z)
    (threshold : float) : list float :=
  fold_left (nms_thread max_objects threshold) schedule bboxes.

(** [decode_kernel_invoker]: the NMS kernel starts when the decode kernel
    is done. *)
Definition decode_kernel_invoker (schedule_decode schedule_nms : list Z)
    (predict : list float) (num_bboxes num_classes : Z)
    (confidence_threshold nms_threshold : float)
    (invert_affine_matrix : list float) (parray : list float) (max_objects : Z)
  : list float :=
  let parray := decode_kernel schedule_decode predict num_bboxes num_classes
                  confidence_threshold invert_affine_matrix parray max_objects in
  nms_kernel schedule_nms parray max_objects nms_threshold.

(** The second loop of [worker] for one image: [cudaMemsetAsync] clears
    the four bytes of the counter, then the two kernels run on the row of
    the image. *)
Definition worker_decode (schedule_decode schedule_nms : list Z) (predict : list float)
    (num_bboxes num_classes : Z) (confidence_threshold nms_threshold : float)
    (affine_matrix : list float) (output_array : list float) : list float :=
  let output_array := wr output_array 0 zero in
  decode_kernel_invoker schedule_decode schedule_nms predict num_bboxes num_classes
    confidence_threshold nms_threshold affine_matrix output_array
    YoloInferImpl.MAX_IMAGE_BBOX.

End Compiled.

(** The inner loop of the third loop of [worker]: [n] boxes are left, the
    next one is box [i]. *)
Fixpoint collect_boxes (parray : list float) (n : nat) (i : Z) (image_based_boxes : list Box)
  : list Box :=
  match n with
  | O => image_based_boxes
  | S n =>
      let pbox := 1 + i * Kernel.NUM_BOX_ELEMENT in
      let label := to_int (rd parray (pbox + 5)) in
      let keepflag := to_int (rd parray (pbox + 6)) in
      collect_boxes parray n (i + 1)
        (if keepflag =? 1 then
           image_based_boxes ++
             [mkBox (rd parray pbox) (rd parray (pbox + 1)) (rd parray (pbox + 2))
                    (rd parray (pbox + 3)) (rd parray (pbox + 4)) label]
         else image_based_boxes)
  end.

(** The boxes the worker reads back for one image. *)
Definition read_back (parray : list float) (job_output : list Box) : list Box :=
  let count := Z.min YoloInferImpl.MAX_IMAGE_BBOX (to_int (rd parray 0)) in
  collect_boxes parray (Z.to_nat count) 0 job_output.

(** [a * b + c] without contraction. *)
Definition unfused (a b c : float) : float := fadd (fmul a b) c.

(** The slots [i] of a box array below [n] hold a confidence that is not
    below the threshold. *)
Definition confident (threshold : float) (a : list float) (n : Z) : Prop :=
  forall i, 0 <= i < n -> flt (rd a (Kernel.field i 4)) threshold = false.

(** The state of a row of the output array after [t] detections have
    passed both tests: while [t] is within the capacity the counter holds
    [t], and the slots filled so far hold a confidence that is not below
    the threshold. *)
Definition counted (threshold : float) (a : list float) (t : Z) : Prop :=
  0 <= t /\ length a = YoloInferImpl.row_length /\
  (t <= 1024 -> rd a 0 = of_int t) /\
  confident threshold a (Z.min t 1024).

(** One raw detection of a model with two classes: objectness 0.9, class
    scores 0.4 and 0.1; and one of a model with one class whose objectness
    is NaN. *)
Definition weak_detection : list float :=
  [zero; zero; of_int 2; of_int 2; literal 9 10; literal 4 10; literal 1 10].

Definition nan_detection : list float :=
  [zero; zero; of_int 2; of_int 2; nan; one].

Definition identity_matrix : list float := [one; zero; zero; zero; one; zero].

End Kernel32.

(** ** The byte footprint of a shape *)

Module Footprint.



End Footprint.

(** ** Counting detections *)

Module Counting.

Import Binary32 Kernel32.

(** The thread at [position] gets to the atomic increment of
    [decode_kernel]: it is within the bounds and neither of the two tests
    finds a value below the threshold. *)
Definition passes (predict : list float) (num_bboxes num_classes : Z)
    (confidence_threshold : float) (position : Z) : bool :=
  let pitem := (5 + num_classes) * position in
  let objectness := rd predict (pitem + 4) in
  (position <? num_bboxes)
  && negb (flt objectness confidence_threshold)
  && negb (flt (fmul (fst (best_class predict num_classes pitem)) objectness)
             confidence_threshold).

(** How many threads of a schedule get there. *)
Definition passing (predict : list float) (num_bboxes num_classes : Z)
    (confidence_threshold : float) (schedule : list Z) : Z :=
  Z.of_nat (length (filter (fun position =>
    passes predict num_bboxes num_classes confidence_threshold position = true) schedule)).

(** The largest value of the counter: [2^24 + 1] rounds to [2^24]. *)
Definition counter_max : Z := 2 ^ 24.

(** Two raw detections of a model with one class: objectness 0.9 with
    the class scores 0.8 and 0.4. *)
Definition two_detections : list float :=
  [zero; zero; of_int 2; of_int 2; literal 9 10; literal 8 10;
   zero; zero; of_int 2; of_int 2; literal 9 10; literal 4 10].

End Counting.
(** ** Suppressed boxes *)

Module Suppression.

Import Binary32 Kernel32.

(** The number of boxes the NMS kernel looks at. *)
Definition nms_count (bboxes : list float) (max_objects : Z) : Z :=
  Z.min (to_int_device (rd bboxes 0)) max_objects.

(** Two arrays with the same counter and the same box fields, the
    keep-flags apart. *)
Definition same_fields (a b : list float) : Prop :=
  rd a 0 = rd b 0 /\
  forall i f, 0 <= i -> 0 <= f <= 5 -> rd a (Kernel.field i f) = rd b (Kernel.field i f).



(** Two boxes of class 0 with the same confidence 0.9: the second is the
    first moved to the right by 2, their IoU is 0.6. *)
Definition two_boxes_tie : list float :=
  [of_int 2;
   zero; zero; of_int 8; one; literal 9 10; zero; one;
   of_int 2; zero; of_int 10; one; literal 9 10; zero; one].

End Suppression.

(** * Properties *)

(** ** The effect monad *)

Lemma prog_bind_returns {A B} (f : A -> prog B) (a : A) (tr : list event) :
  (Returns a, tr) ≫= f = (result (f a), tr ++ trace (f a)).
Proof. unfold mbind, prog_mbind, prog_bind. destruct (f a); reflexivity. Qed.

Lemma prog_ret_bind {A B} (f : A -> prog B) (a : A) : mret a ≫= f = f a.
Proof.
  unfold mret, prog_mret, prog_ret. rewrite prog_bind_returns.
  destruct (f a); reflexivity.
Qed.

Ltac prog_unfold :=
  unfold mbind, prog_mbind, prog_bind, mret, prog_mret, prog_ret, emit, abort, throw,
    result, trace in *; simpl in *.

(** ** The pool *)

Section PoolFacts.

Context {Item : Type}.

Import MonopolyAllocator.

Abbreviation pool := (MonopolyAllocator.t Item).
Abbreviation slot := (MonopolyAllocator.MonopolyData Item).

Lemma avail_cons (d : slot) ds :
  avail (d :: ds) = (if available_ d then S (avail ds) else avail ds).
Proof.
  unfold avail. rewrite filter_cons. destruct (available_ d); case_decide; simpl; congruence.
Qed.

Lemma flags_split (ds : list slot) :
  (avail ds + length (filter (fun d => available_ d = false) ds) = length ds)%nat.
Proof.
  induction ds as [|d ds IH]; [reflexivity|].
  rewrite avail_cons, filter_cons. simpl.
  destruct (available_ d); case_decide; simpl; try congruence; lia.
Qed.

Lemma avail_replicate n (d : slot) :
  available_ d = true -> avail (replicate n d) = n.
Proof.
  intros Hd. induction n as [|n IH]; [reflexivity|].
  simpl. rewrite avail_cons, Hd, IH. reflexivity.
Qed.

Lemma avail_take (ds : list slot) i d :
  ds !! i = Some d -> available_ d = true ->
  avail ds = S (avail (<[i := mkData (data_ d) false]> ds)).
Proof.
  revert i. induction ds as [|d0 ds IH]; intros [|i] H Hd; try discriminate.
  - inversion H; subst.
    change (<[0%nat := ?x]> (d :: ds)) with (x :: ds).
    rewrite !avail_cons, Hd. reflexivity.
  - change (<[S i := ?x]> (d0 :: ds)) with (d0 :: <[i := x]> ds).
    rewrite !avail_cons. destruct (available_ d0); rewrite (IH i H Hd); reflexivity.
Qed.

Lemma find_available_spec (ds : list slot) i :
  find_available ds = Some i ->
  exists d, ds !! i = Some d /\ available_ d = true /\
    alter (fun d => mkData (data_ d) false) i ds = <[i := mkData (data_ d) false]> ds.
Proof.
  revert i. induction ds as [|d ds IH]; intros i H; simpl in H; [discriminate|].
  destruct (available_ d) eqn:Hd.
  - inversion H; subst. exists d. auto.
  - destruct (find_available ds) as [j|] eqn:Hj; simpl in H; [|discriminate].
    inversion H; subst. destruct (IH j eq_refl) as (d' & H1 & H2 & H3).
    exists d'. split; [exact H1|]. split; [exact H2|].
    change (d :: alter (fun d => mkData (data_ d) false) j ds
            = d :: <[j := mkData (data_ d') false]> ds).
    rewrite H3. reflexivity.
Qed.

Lemma find_available_none (ds : list slot) :
  find_available ds = None -> avail ds = 0%nat.
Proof.
  induction ds as [|d ds IH]; [reflexivity|]. simpl. rewrite avail_cons.
  destruct (available_ d); [discriminate|].
  destruct (find_available ds); [discriminate|]. auto.
Qed.

Lemma avail_release (ds : list slot) i d :
  ds !! i = Some d -> available_ d = false ->
  avail (<[i := mkData (data_ d) true]> ds) = S (avail ds).
Proof.
  revert i. induction ds as [|d0 ds IH]; intros [|i] H Hd; try discriminate.
  - inversion H; subst.
    change (<[0%nat := ?x]> (d :: ds)) with (x :: ds).
    rewrite !avail_cons, Hd. reflexivity.
  - change (<[S i := ?x]> (d0 :: ds)) with (d0 :: <[i := x]> ds).
    rewrite !avail_cons, (IH i H Hd). destruct (available_ d0); reflexivity.
Qed.

Lemma avail_assign (ds : list slot) i (item : Item) :
  avail (alter (fun d => mkData (Some item) (available_ d)) i ds) = avail ds.
Proof.
  revert i. induction ds as [|d ds IH]; intros [|i]; try reflexivity.
  - change (avail (mkData (Some item) (available_ d) :: ds) = avail (d :: ds)).
    rewrite !avail_cons. reflexivity.
  - change (avail (d :: alter (fun d => mkData (Some item) (available_ d)) i ds)
            = avail (d :: ds)).
    rewrite !avail_cons, IH. reflexivity.
Qed.

Lemma take_slot_spec (s s' : pool) r :
  take_slot s = (s', r) ->
  match r with
  | Some i => slot_taken s s' i
  | None => s' = s /\ avail (datas_ s) = 0%nat
  end.
Proof.
  unfold take_slot.
  destruct (find_available (datas_ s)) as [i|] eqn:Hf; intros H; inversion H; subst.
  - destruct (find_available_spec _ _ Hf) as (d & H1 & H2 & H3).
    exists d. simpl. rewrite H3. auto 10.
  - split; [reflexivity|]. apply find_available_none, Hf.
Qed.

Lemma slot_taken_inv (s s' : pool) i : pool_inv s -> slot_taken s s' i -> pool_inv s'.
Proof.
  intros [Hl Hn] (d & H1 & H2 & H3 & H4 & H5 & _). split.
  - rewrite H3, length_insert, H5. exact Hl.
  - rewrite H4, Hn, H3, (avail_take _ _ _ H1 H2). lia.
Qed.

Lemma take_slot_inv (s s' : pool) r : pool_inv s -> take_slot s = (s', r) -> pool_inv s'.
Proof.
  intros Hi H. apply take_slot_spec in H. destruct r as [i|].
  - eapply slot_taken_inv; eauto.
  - destruct H as [-> _]. exact Hi.
Qed.

Lemma query_wake_result (s : pool) :
  result (query_wake s) =
  Returns (if negb (wait_predicate s) || (num_available_ s =? 0) || negb (run_ s)
           then (waiter_left s, None) else take_slot (waiter_left s)).
Proof.
  unfold query_wake, waiter_left. prog_unfold.
  destruct (negb (wait_predicate s) || (num_available_ s =? 0) || negb (run_ s)); [reflexivity|].
  destruct (take_slot _); reflexivity.
Qed.

Lemma create_inv size (s : pool) : result (create size) = Returns s -> pool_inv s.
Proof.
  unfold create. destruct (size <? 0) eqn:Hs; simpl; intros H; inversion H; subst.
  apply Z.ltb_ge in Hs. split; simpl.
  - rewrite length_replicate. lia.
  - rewrite avail_replicate by reflexivity. lia.
Qed.

Lemma exec_inv a (s : pool) : pool_inv s -> pool_inv (exec a s).
Proof.
  intros Hi. destruct a as [| |prq|prq item|]; simpl.
  - unfold query_enter. destruct (run_ s); simpl; [|exact Hi].
    destruct (num_available_ s =? 0); simpl; [exact Hi|].
    destruct (take_slot s) as [s' r] eqn:Ht. simpl. eapply take_slot_inv; eauto.
  - rewrite query_wake_result.
    destruct (negb (wait_predicate s) || (num_available_ s =? 0) || negb (run_ s)); [exact Hi|].
    destruct (take_slot (waiter_left s)) as [s' r] eqn:Ht.
    eapply take_slot_inv; [|exact Ht]. exact Hi.
  - unfold release_one. destruct (datas_ s !! prq) as [d|] eqn:Hd; simpl; [|exact Hi].
    destruct (available_ d) eqn:Ha; prog_unfold; [exact Hi|].
    destruct Hi as [Hl Hn]. split; simpl.
    + rewrite length_insert. exact Hl.
    + rewrite (avail_release _ _ _ Hd Ha). lia.
  - destruct Hi as [Hl Hn]. split; simpl.
    + rewrite length_alter. exact Hl.
    + rewrite avail_assign. exact Hn.
  - exact Hi.
Qed.

Lemma reachable_inv (s : pool) : reachable s -> pool_inv s.
Proof.
  induction 1 as [size s H|a s _ IH _].
  - eapply create_inv; eauto.
  - apply exec_inv, IH.
Qed.

Lemma exec_capacity a (s : pool) :
  capacity (exec a s) = capacity s /\ length (datas_ (exec a s)) = length (datas_ s).
Proof.
  assert (Ht : forall (x x' : pool) r, take_slot x = (x', r) ->
            capacity_ x' = capacity_ x /\ length (datas_ x') = length (datas_ x)).
  { intros x x' r H. apply take_slot_spec in H. destruct r.
    - destruct H as (d & _ & _ & -> & _ & -> & _). rewrite length_insert. auto.
    - destruct H as [-> _]. auto. }
  unfold capacity. destruct a as [| |prq|prq item|]; simpl.
  - unfold query_enter. destruct (run_ s); simpl; [|auto].
    destruct (num_available_ s =? 0); simpl; [auto|].
    destruct (take_slot s) as [s' r] eqn:H. simpl. eauto.
  - rewrite query_wake_result.
    destruct (negb (wait_predicate s) || (num_available_ s =? 0) || negb (run_ s)); [auto|].
    destruct (take_slot (waiter_left s)) as [s' r] eqn:H. apply Ht in H. exact H.
  - unfold release_one. destruct (datas_ s !! prq) as [d|]; simpl; [|auto].
    destruct (available_ d); prog_unfold; [auto|]. rewrite length_insert. auto.
  - rewrite length_alter. auto.
  - auto.
Qed.

Lemma inv_bound (s : pool) : pool_inv s -> num_available s <= capacity s.
Proof.
  intros [Hl Hn]. unfold num_available, capacity. rewrite Hn, <- Hl.
  pose proof (flags_split (datas_ s)). lia.
Qed.

Lemma iter_exec_inv a n (s : pool) : pool_inv s -> pool_inv (Nat.iter n (exec a) s).
Proof. intros H. induction n as [|n IH]; [exact H|]. simpl. apply exec_inv, IH. Qed.

Lemma iter_exec_capacity a n (s : pool) : capacity (Nat.iter n (exec a) s) = capacity s.
Proof.
  induction n as [|n IH]; [reflexivity|]. simpl.
  rewrite (proj1 (exec_capacity a _)). exact IH.
Qed.

Lemma two_slots_reachable : reachable (two_slots_one_taken (Item := Item)).
Proof.
  change (reachable
            (exec QueryEnter
               (mk [mkData (Item := Item) None true; mkData None true] 2 2 0 true))).
  apply reachable_exec; [|reflexivity].
  apply (reachable_create 2). reflexivity.
Defined.

(** C5. In every state a shared pool can reach, the slots that are
    available and the slots that are in use add up to the capacity, and the
    counter [num_available_] is the number of available slots.  No
    transition changes the capacity or the number of slots, so [query] never
    allocates one.  A [query] that returns a slot has turned exactly that
    slot from available to in use and has decremented the counter by one.
    [query] returns null at once after shutdown, and after its wait when the
    wait timed out, when the pool was shut down, or when no slot is free;
    with a free slot and the pool running it returns a slot. *)
Theorem pool_capacity_invariant (s : pool) :
  reachable s ->
  (Z.of_nat (count_available s) + Z.of_nat (count_in_use s) = capacity s /\
   num_available s = Z.of_nat (count_available s) /\
   Z.of_nat (length (datas_ s)) = capacity s) /\
  (forall a, capacity (exec a s) = capacity s /\
             length (datas_ (exec a s)) = length (datas_ s)) /\
  (forall s' i, query_enter s = (s', Returned (Some i)) -> slot_taken s s' i) /\
  (forall s' i, result (query_wake s) = Returns (s', Some i) ->
                slot_taken (waiter_left s) s' i) /\
  (run_ s = false -> query_enter s = (s, Returned None)) /\
  (wait_predicate s = false \/ run_ s = false \/ num_available_ s = 0 ->
   result (query_wake s) = Returns (waiter_left s, None)) /\
  (run_ s = true -> 0 < num_available s ->
   exists s' i, query_enter s = (s', Returned (Some i))).
Proof.
  intros Hr. pose proof (reachable_inv s Hr) as [Hl Hn].
  repeat apply conj.
  - unfold count_available, count_in_use, capacity.
    pose proof (flags_split (datas_ s)). lia.
  - exact Hn.
  - exact Hl.
  - intros a. apply exec_capacity.
  - intros s' i. unfold query_enter.
    destruct (run_ s); simpl; [|discriminate].
    destruct (num_available_ s =? 0); [discriminate|].
    destruct (take_slot s) as [s1 r] eqn:Ht. intros H; inversion H; subst.
    exact (take_slot_spec _ _ _ Ht).
  - intros s' i. rewrite query_wake_result.
    destruct (negb (wait_predicate s) || (num_available_ s =? 0) || negb (run_ s));
      [discriminate|].
    intros H; inversion H as [Ht]. exact (take_slot_spec _ _ _ Ht).
  - intros H. unfold query_enter. rewrite H. reflexivity.
  - intros H. rewrite query_wake_result.
    assert (negb (wait_predicate s) || (num_available_ s =? 0) || negb (run_ s) = true) as ->;
      [|reflexivity].
    destruct H as [H|[H|H]]; rewrite H; simpl; rewrite ?orb_true_r; reflexivity.
  - intros H1 H2. unfold query_enter. rewrite H1. simpl.
    unfold num_available in H2. destruct (num_available_ s =? 0) eqn:H0; [lia|].
    destruct (take_slot s) as [s1 [i|]] eqn:Ht; [eauto|].
    apply take_slot_spec in Ht. destruct Ht as [_ Ht]. lia.
Qed.

(** C10. Releasing a slot that is already available changes nothing: the
    pool is the same afterwards, flag and counter included, and no event
    happens, so no waiter is woken.  However often slots are released, the
    number of available slots stays within the capacity. *)
Theorem release_available_is_noop (s : pool) (prq : nat) (d : slot) :
  reachable s ->
  datas_ s !! prq = Some d ->
  available_ d = true ->
  release_one prq s = (Returns s, []) /\
  (forall n q, num_available (Nat.iter n (exec (Release q)) s) <= capacity s).
Proof.
  intros Hr Hd Ha. split.
  - unfold release_one. rewrite Hd, Ha. reflexivity.
  - intros n q. rewrite <- (iter_exec_capacity (Release q) n s).
    apply inv_bound, iter_exec_inv, reachable_inv, Hr.
Qed.

End PoolFacts.

Section PoolWitnesses.

Import MonopolyAllocator.

Lemma pool_capacity_invariant_witness :
  reachable (two_slots_one_taken (Item := Tensor.t)) /\
  num_available (two_slots_one_taken (Item := Tensor.t)) = 1.
Proof.
  split; [exact two_slots_reachable|].
  destruct (pool_capacity_invariant (Item := Tensor.t) two_slots_one_taken
              two_slots_reachable) as [[_ [H _]] _].
  exact H.
Defined.

Lemma release_available_is_noop_witness :
  release_one 1 (two_slots_one_taken (Item := Tensor.t))
    = (Returns two_slots_one_taken, []) /\
  (forall n q,
     num_available (Nat.iter n (exec (Release q)) (two_slots_one_taken (Item := Tensor.t)))
     <= 2).
Proof.
  apply (release_available_is_noop (Item := Tensor.t) two_slots_one_taken 1
           (mkData None true)).
  - exact two_slots_reachable.
  - reflexivity.
  - reflexivity.
Defined.

End PoolWitnesses.

(** ** Tensor *)

Section TensorFacts.

Import Tensor.

Lemma gpu_returns size (m : MixMemory.t) :
  exists m' tr, MixMemory.gpu size m = (Returns m', tr) /\
    Forall (fun e => is_copy e = false) tr /\
    MixMemory.cpu_ m' = MixMemory.cpu_ m /\ MixMemory.cpu_size_ m' = MixMemory.cpu_size_ m.
Proof.
  unfold MixMemory.gpu, MixMemory.release_gpu.
  destruct (MixMemory.gpu_size_ m <? size); [|do 2 eexists; split; [reflexivity|auto]].
  destruct (is_null (MixMemory.gpu_ m)), (MixMemory.owner_gpu_ m); prog_unfold;
    do 2 eexists; (split; [reflexivity|]); repeat constructor.
Qed.

Lemma to_gpu_false_returns (x : Tensor.t) :
  exists x' tr, to_gpu false x = (Returns x', tr) /\
    Forall (fun e => is_copy e = false) tr /\
    shape_ x' = shape_ x /\ strides_ x' = strides_ x /\ bytes_ x' = bytes_ x /\
    head_ x' = Device /\
    MixMemory.cpu_ (data_ x') = MixMemory.cpu_ (data_ x).
Proof.
  unfold to_gpu. destruct (decide (head_ x = Device)) as [Hd|Hd].
  - do 2 eexists. split; [reflexivity|]. auto 10.
  - destruct (gpu_returns (bytes_ (set_head Device x)) (data_ (set_head Device x)))
      as (m' & tr & Hg & Hc & Hcpu & _).
    rewrite Hg. simpl. prog_unfold.
    do 2 eexists. split; [reflexivity|]. rewrite app_nil_r. auto 10.
Qed.

(** C7, as the code has it. A [copy_from_gpu] whose byte offset is at
    least the byte size of the tensor, or whose byte count exceeds the bytes
    that remain past the offset, returns (it does not abort), prints one
    error and issues no copy.  A tensor whose head is not [Init] is left
    exactly as it was.  A tensor whose head is [Init] has been put on the
    device by [to_gpu(false)] before the bounds were checked: its head is
    [Device] afterwards and its device memory may have been allocated, while
    shape, strides, byte size and host memory are as before. *)
Theorem copy_from_gpu_out_of_range (env : cuda_env) (offset : Z) (src : list Byte.byte)
    (num_element device_id : Z) (x : Tensor.t) :
  bytes_ x <= size_t_of (offset * element_size) \/
  bytes_ x - size_t_of (offset * element_size) < size_t_of (num_element * element_size) ->
  exists x' tr msg,
    copy_from_gpu env offset src num_element device_id x
      = (Returns x', tr ++ [Printed Error msg]) /\
    Forall (fun e => is_copy e = false) (tr ++ [Printed Error msg]) /\
    (head_ x <> Init -> x' = x /\ tr = []) /\
    (head_ x = Init -> to_gpu false x = (Returns x', tr) /\ head_ x' = Device) /\
    shape_ x' = shape_ x /\ strides_ x' = strides_ x /\ bytes_ x' = bytes_ x /\
    MixMemory.cpu_ (data_ x') = MixMemory.cpu_ (data_ x).
Proof.
  intros Hrange. unfold copy_from_gpu.
  assert (Hstep : exists x' tr,
            (if decide (head_ x = Init) then to_gpu false x else mret x) = (Returns x', tr) /\
            Forall (fun e => is_copy e = false) tr /\
            (head_ x <> Init -> x' = x /\ tr = []) /\
            (head_ x = Init -> to_gpu false x = (Returns x', tr) /\ head_ x' = Device) /\
            shape_ x' = shape_ x /\ strides_ x' = strides_ x /\ bytes_ x' = bytes_ x /\
            MixMemory.cpu_ (data_ x') = MixMemory.cpu_ (data_ x)).
  { destruct (decide (head_ x = Init)) as [Hi|Hi].
    - destruct (to_gpu_false_returns x) as (x' & tr & H1 & H2 & H3 & H4 & H5 & H6 & H7).
      exists x', tr. repeat apply conj; auto; congruence.
    - exists x, []. repeat apply conj; auto; congruence. }
  destruct Hstep as (x' & tr & Hs & Hc & Hne & He & Hsh & Hst & Hb & Hcpu).
  rewrite Hs, prog_bind_returns.
  destruct (bytes_ x' <=? size_t_of (offset * element_size)) eqn:Hoff.
  - exists x', tr, "Offset location >= bytes_, out of range"%string.
    split; [reflexivity|]. repeat apply conj; auto.
    apply Forall_app. split; [exact Hc|repeat constructor].
  - destruct (bytes_ x' - size_t_of (offset * element_size)
              <? size_t_of (num_element * element_size)) eqn:Hcnt.
    + exists x', tr, "Copyed bytes > remain bytes, out of range"%string.
      split; [reflexivity|]. repeat apply conj; auto.
      apply Forall_app. split; [exact Hc|repeat constructor].
    + apply Z.leb_gt in Hoff. apply Z.ltb_ge in Hcnt. rewrite Hb in Hoff, Hcnt. lia.
Qed.

Lemma copy_from_gpu_out_of_range_witness :
  exists x' tr msg,
    copy_from_gpu one_device 4 [] 1 (-1) fresh_2x2 = (Returns x', tr ++ [Printed Error msg]) /\
    Forall (fun e => is_copy e = false) (tr ++ [Printed Error msg]) /\
    shape_ x' = shape_ fresh_2x2 /\ bytes_ x' = bytes_ fresh_2x2.
Proof.
  destruct (copy_from_gpu_out_of_range one_device 4 [] 1 (-1) fresh_2x2)
    as (x' & tr & msg & H1 & H2 & _ & _ & H3 & _ & H4 & _).
  - left. vm_compute. discriminate.
  - exists x', tr, msg. auto.
Defined.

(** C7, as the claim states it, fails on a tensor that is not materialised
    yet: the out-of-range call changes its head from [Init] to [Device] and
    allocates its device memory, so that [empty()] is no longer true. *)
Lemma copy_from_gpu_out_of_range_changes_tensor :
  bytes_ fresh_2x2 <= size_t_of (4 * element_size) /\
  exists x',
    result (copy_from_gpu one_device 4 [] 1 (-1) fresh_2x2) = Returns x' /\
    head_ fresh_2x2 = Init /\ head_ x' = Device /\
    empty fresh_2x2 = true /\ empty x' = false /\
    MixMemory.gpu_size_ (data_ fresh_2x2) = 0 /\ MixMemory.gpu_size_ (data_ x') = 16 /\
    x' <> fresh_2x2.
Proof.
  split; [vm_compute; discriminate|].
  eexists. split; [vm_compute; reflexivity|].
  repeat split; discriminate.
Qed.

End TensorFacts.

(** ** Arrays and float comparisons *)

Section ArrayFacts.

Import Kernel.

Lemma rd_wr_eq (a : list Q) i v :
  0 <= i < Z.of_nat (length a) -> rd (wr a i v) i = v.
Proof.
  intros H. unfold rd, wr. destruct (i <? 0) eqn:Hi; [apply Z.ltb_lt in Hi; lia|].
  rewrite nth_lookup, list_lookup_insert_eq by lia. reflexivity.
Qed.

Lemma rd_wr_ne (a : list Q) i j v : i <> j -> rd (wr a i v) j = rd a j.
Proof.
  intros H. unfold rd, wr. destruct (j <? 0) eqn:Hj; [reflexivity|].
  destruct (i <? 0) eqn:Hi; [reflexivity|].
  apply Z.ltb_ge in Hi, Hj.
  rewrite !nth_lookup, list_lookup_insert_ne by lia. reflexivity.
Qed.

Lemma length_wr (a : list Q) i v : length (wr a i v) = length a.
Proof. unfold wr. destruct (i <? 0); [reflexivity|apply length_insert]. Qed.



End ArrayFacts.

(** ** The NMS kernel *)

Section NmsFacts.

Import Kernel.














End NmsFacts.

(** ** The decode kernel *)

Section DecodeFacts.

Import Kernel.



End DecodeFacts.

(** ** The boxes the worker reads back *)

Section ReadBackFacts.

Import Kernel YoloInferImpl.

Lemma collect_boxes_spec (parray : list Q) n :
  forall i acc,
    collect_boxes parray n i acc =
    acc ++ map (box_at parray) (List.filter (keeps parray) (indices i n)).
Proof.
  induction n as [|n IH]; intros i acc; simpl.
  - rewrite app_nil_r. reflexivity.
  - rewrite IH. unfold keeps at 2, field. fold (field i 6).
    replace (1 + i * NUM_BOX_ELEMENT + 6) with (field i 6) by reflexivity.
    destruct (float_to_int (rd parray (field i 6)) =? 1); [|reflexivity].
    simpl. rewrite <- app_assoc. simpl. unfold box_at, field.
    rewrite Z.add_0_r. reflexivity.
Qed.

Lemma in_indices i n j : In j (indices i n) <-> i <= j < i + Z.of_nat n.
Proof.
  revert i. induction n as [|n IH]; intros i; simpl.
  - split; [tauto|lia].
  - rewrite IH. lia.
Qed.

Lemma length_indices i n : length (indices i n) = n.
Proof. revert i. induction n as [|n IH]; intros i; simpl; [|rewrite IH]; reflexivity. Qed.

Lemma length_filter_le {A} (f : A -> bool) (l : list A) :
  (length (List.filter f l) <= length l)%nat.
Proof. induction l as [|x l IH]; simpl; [lia|]. destruct (f x); simpl; lia. Qed.

Lemma read_back_spec (parray : list Q) (job_output : list Box) :
  read_back parray job_output =
  job_output ++
    map (box_at parray)
        (List.filter (keeps parray)
           (indices 0 (Z.to_nat (Z.min MAX_IMAGE_BBOX (float_to_int (rd parray 0)))))).
Proof. unfold read_back. apply collect_boxes_spec. Qed.

(** C9. The worker fulfils the promise of a job with the boxes of the
    first [count] slots of the row of its image whose keep-flag reads 1, in
    slot order, where [count] is the counter of the row clamped to 1024.
    The list has at most 1024 boxes whatever the counter says, each of its
    boxes comes from a slot below the clamped count whose keep-flag is 1,
    and the call returns without an event: what lies beyond is dropped and
    nothing is reported. *)
Theorem worker_reads_back_at_most_1024 (s : state) (job : Job) (p ibatch : nat)
    (parray : list Q) :
  InferController.pro job = Some p ->
  InferController.promises s !! p = Some None ->
  InferController.output job = [] ->
  nth ibatch (output_array_device (InferController.derived_ s)) [] = parray ->
  let count := Z.min 1024 (float_to_int (rd parray 0)) in
  let boxes := map (box_at parray)
                 (List.filter (keeps parray) (indices 0 (Z.to_nat count))) in
  worker_fulfil [job] ibatch s =
    (Returns (InferController.set_promises
                (<[p := Some boxes]> (InferController.promises s)) s), []) /\
  (length boxes <= 1024)%nat /\
  (forall b, In b boxes ->
     exists i, 0 <= i < count /\ i < 1024 /\
       float_to_int (rd parray (field i 6)) = 1 /\ b = box_at parray i).
Proof.
  intros Hp Hs Ho Hrow count boxes. repeat apply conj.
  - simpl. rewrite Hrow, Ho, read_back_spec. simpl.
    unfold InferController.set_value. rewrite Hp, Hs. reflexivity.
  - unfold boxes. rewrite length_map.
    etransitivity; [apply length_filter_le|]. rewrite length_indices.
    unfold count. lia.
  - intros b Hb. unfold boxes in Hb. apply in_map_iff in Hb.
    destruct Hb as (i & <- & Hi). apply filter_In in Hi. destruct Hi as [Hi Hk].
    apply in_indices in Hi. exists i. unfold keeps in Hk. apply Z.eqb_eq in Hk.
    unfold count in *. repeat split; try lia; exact Hk.
Qed.

Lemma worker_reads_back_at_most_1024_witness :
  worker_fulfil [job_of 0] 0 (one_pending [two_boxes]) =
    (Returns (InferController.set_promises
                [Some [mkBox 0 0 8 1 (9 # 10) 0; mkBox 2 0 10 1 (8 # 10) 0]]
                (one_pending [two_boxes])), []).
Proof.
  exact (proj1 (worker_reads_back_at_most_1024 (one_pending [two_boxes]) (job_of 0)
                  0%nat 0%nat two_boxes eq_refl eq_refl eq_refl eq_refl)).
Defined.

End ReadBackFacts.

(** ** The dispatcher *)

Section DispatcherFacts.

Import YoloInferImpl.



(** C1: the code breaks it in [commits]. With the pool exhausted, the
    preprocessing of a third image fails.  [commits] then fulfils the
    promise of the job with the empty list, as [commit] does, but unlike
    [commit] it still puts the job in the queue, without a slot.  A [stop]
    that finds the job there sets its promise a second time, which throws;
    so does the worker when it comes to fulfil the job, if it gets that far:
    it dereferences the missing slot first. *)
Theorem commits_queues_fulfilled_job :
  exists s1 failed,
    result third_by_commits = Returns (s1, [Some 2%nat]) /\
    InferController.promises s1 !! 2%nat = Some (Some []) /\
    InferController.jobs_ s1 !! 2%nat = Some failed /\
    InferController.pro failed = Some 2%nat /\
    InferController.mono_tensor failed = None /\
    result (stop s1) = Throws promise_already_satisfied /\
    result (worker_fulfil [failed] 0 s1) = Throws promise_already_satisfied /\
    result (worker_release [failed] s1) = Throws null_dereference /\
    exists s2,
      result third_by_commit = Returns (s2, Some 2%nat) /\
      InferController.promises s2 !! 2%nat = Some (Some []) /\
      length (InferController.jobs_ s2) = 2%nat /\
      exists s3, result (stop s2) = Returns s3 /\
        InferController.promises s3 = [Some []; Some []; Some []].
Proof.
  do 2 eexists. split; [vm_compute; reflexivity|].
  split; [reflexivity|]. split; [reflexivity|]. split; [reflexivity|].
  split; [reflexivity|]. split; [vm_compute; reflexivity|].
  split; [vm_compute; reflexivity|]. split; [vm_compute; reflexivity|].
  eexists. split; [vm_compute; reflexivity|].
  split; [reflexivity|]. split; [reflexivity|].
  eexists. split; vm_compute; reflexivity.
Qed.

(** C8: the code breaks it through the same defect of [commits]. When a
    job that [commits] queued after its preprocessing failed is still in
    the queue, [stop] throws on it: the two jobs queued before it have been
    given their empty result, the worker is not joined. *)
Theorem stop_throws_on_job_queued_by_commits :
  exists s1,
    result third_by_commits = Returns (s1, [Some 2%nat]) /\
    InferController.promises s1 = [None; None; Some []] /\
    length (InferController.jobs_ s1) = 3%nat /\
    InferController.worker_ s1 = Some InferController.Looping /\
    stop s1 = (Throws promise_already_satisfied, [NotifyAll "cond_"]).
Proof.
  eexists. split; [vm_compute; reflexivity|].
  split; [reflexivity|]. split; [reflexivity|]. split; [reflexivity|].
  vm_compute. reflexivity.
Qed.

(** C3: the code breaks it for an unsupported type. [create_infer]
    returns the null handle exactly when the model file does not load,
    whatever the type: for a type that is neither [V5] nor [X], [startup]
    prints the error "Unsupport type" and goes on, so with a file that loads
    the caller gets an instance. *)
Theorem create_infer_ignores_unsupported_type (load_infer : string -> option Engine)
    (engine_file : string) (type : YoloType) (gpuid : Z)
    (confidence_threshold nms_threshold : Q) :
  (forall e, load_infer engine_file = Some e -> 0 <= int32 (max_batch_size e * 2)) ->
  exists handle,
    result (create_infer load_infer engine_file type gpuid confidence_threshold
              nms_threshold) = Returns handle /\
    (handle = None <-> load_infer engine_file = None) /\
    (forall value, type = OtherType value ->
       In (Printed Error "Unsupport type")
          (trace (create_infer load_infer engine_file type gpuid confidence_threshold
                    nms_threshold)) /\
       (load_infer engine_file <> None -> handle <> None)).
Proof.
  intros Hsize. unfold create_infer, startup, InferController.startup, worker_start.
  destruct (load_infer engine_file) as [e|] eqn:Hload.
  - specialize (Hsize e eq_refl). unfold MonopolyAllocator.create.
    assert ((int32 (max_batch_size e * 2) <? 0) = false) as Hlt by (apply Z.ltb_ge; lia).
    destruct type; prog_unfold; rewrite Hload; simpl; rewrite Hlt; simpl;
      eexists; (split; [reflexivity|]);
      (split; [split; discriminate|]); intros other Hv; try discriminate Hv;
      split; [left; reflexivity|discriminate].
  - destruct type; prog_unfold; rewrite Hload; simpl;
      eexists; (split; [reflexivity|]);
      (split; [split; reflexivity|]); intros other Hv; try discriminate Hv;
      split; [left; reflexivity|intros H; contradiction].
Qed.

Lemma create_infer_ignores_unsupported_type_witness :
  exists instance,
    result (create_infer always_loads "yolov5s.trtmodel" (OtherType 2) 0 (1 # 2) (1 # 2))
    = Returns (Some instance).
Proof.
  destruct (create_infer_ignores_unsupported_type always_loads "yolov5s.trtmodel"
              (OtherType 2) 0 (1 # 2) (1 # 2)) as (handle & Hr & _ & Hv).
  - intros e He. inversion He. vm_compute. discriminate.
  - destruct handle as [instance|].
    + exists instance. exact Hr.
    + exfalso. destruct (Hv 2 eq_refl) as [_ Hn]. apply Hn; [discriminate|reflexivity].
Defined.

End DispatcherFacts.

(** ** More on the pool *)

Section PoolOrder.

Context {Item : Type}.

Import MonopolyAllocator.

Abbreviation pool := (MonopolyAllocator.t Item).

Lemma find_available_lowest (ds : list (MonopolyData Item)) i :
  find_available ds = Some i ->
  forall j d, (j < i)%nat -> ds !! j = Some d -> available_ d = false.
Proof.
  revert i. induction ds as [|d0 ds IH]; intros i H j d Hj Hd; simpl in H; [discriminate|].
  destruct (available_ d0) eqn:H0.
  - inversion H; subst. lia.
  - destruct (find_available ds) as [k|] eqn:Hk; simpl in H; [|discriminate].
    inversion H; subst. destruct j as [|j].
    + simpl in Hd. inversion Hd; subst. exact H0.
    + simpl in Hd. eapply IH; [reflexivity| |exact Hd]. lia.
Qed.

(** X1: [query] hands out the free slot with the lowest index, and
    [release_one] on the slot a [query] has returned puts the pool back in
    the state it had before the [query]: the same slots, flags and counter;
    one waiter is notified. *)
Theorem release_undoes_query (s s' : pool) (i : nat) :
  query_enter s = (s', Returned (Some i)) ->
  (forall j d, (j < i)%nat -> datas_ s !! j = Some d -> available_ d = false) /\
  release_one i s' = (Returns s, [NotifyOne "cv_"]).
Proof.
  unfold query_enter. destruct (run_ s) eqn:Hrun; simpl; [|discriminate].
  destruct (num_available_ s =? 0); [discriminate|].
  unfold take_slot. destruct (find_available (datas_ s)) as [k|] eqn:Hf; [|discriminate].
  intros H. inversion H; subst. clear H. split.
  - exact (find_available_lowest _ _ Hf).
  - destruct (find_available_spec _ _ Hf) as (d & H1 & H2 & H3).
    unfold release_one. simpl. rewrite H3.
    rewrite list_lookup_insert_eq by (eapply lookup_lt_Some; exact H1).
    simpl. prog_unfold. rewrite list_insert_insert_eq.
    assert (Hd : mkData (data_ d) true = d) by (destruct d; simpl in *; congruence).
    rewrite Hd, (list_insert_id _ _ _ H1).
    destruct s as [ds c n w r]. simpl in *. subst r.
    repeat f_equal. lia.
Qed.

(** A pool in which the first [k] slots are taken and the others free. *)
Lemma find_available_after_taken k (rest : list (MonopolyData Item)) :
  find_available (replicate k (mkData None false) ++ mkData None true :: rest) = Some k.
Proof.
  induction k as [|k IH]; [reflexivity|].
  change (find_available
            (mkData None false
               :: (replicate k (mkData None false) ++ mkData None true :: rest))
          = Some (S k)).
  simpl find_available. rewrite IH. reflexivity.
Qed.

Lemma alter_after_taken k (rest : list (MonopolyData Item)) :
  alter (fun d => mkData (data_ d) false) k
    (replicate k (mkData None false) ++ mkData None true :: rest)
  = replicate (S k) (mkData None false) ++ rest.
Proof.
  induction k as [|k IH]; [reflexivity|].
  change (mkData (Item := Item) None false
            :: alter (fun d => mkData (data_ d) false) k
                 (replicate k (mkData None false) ++ mkData None true :: rest)
          = mkData None false :: (replicate (S k) (mkData None false) ++ rest)).
  rewrite IH. reflexivity.
Qed.

Lemma queries_in_order m :
  forall k w,
    queries (S m)
      (mk (replicate k (mkData (Item := Item) None false) ++ replicate m (mkData None true))
          (Z.of_nat (k + m)) (Z.of_nat m) w true)
    = served k m ++ [Blocked].
Proof.
  induction m as [|m IH]; intros k w.
  - reflexivity.
  - change (replicate (S m) (mkData (Item := Item) None true))
      with (mkData (Item := Item) None true :: replicate m (mkData None true)).
    change (queries (S (S m)) ?s) with (let '(s1, r) := query_enter s in r :: queries (S m) s1).
    unfold query_enter, take_slot. cbn [run_ num_available_ datas_ negb].
    assert ((Z.of_nat (S m) =? 0) = false) as -> by (apply Z.eqb_neq; lia).
    rewrite find_available_after_taken, alter_after_taken.
    cbn [capacity_ num_wait_thread_ num_available_ run_].
    replace (Z.of_nat (S m) - 1) with (Z.of_nat m) by lia.
    replace (Z.of_nat (k + S m)) with (Z.of_nat (S k + m)) by lia.
    rewrite IH. reflexivity.
Qed.

(** X2: on a pool that was just made with capacity [n], the first [n] calls of
    [query] return the slots 0, 1, ..., n-1 in this order without waiting,
    and the call after them finds no slot and blocks. *)
Theorem fresh_pool_serves_capacity_then_blocks (size : Z) (s : pool) :
  result (create size) = Returns s ->
  queries (S (Z.to_nat size)) s = served 0 (Z.to_nat size) ++ [Blocked].
Proof.
  unfold create. destruct (size <? 0) eqn:Hs; simpl; intros H; inversion H; subst.
  apply Z.ltb_ge in Hs.
  pose proof (queries_in_order (Z.to_nat size) 0 0) as Hq. simpl replicate in Hq.
  simpl app in Hq. change (0 + Z.to_nat size)%nat with (Z.to_nat size) in Hq.
  rewrite !Z2Nat.id in Hq by lia. exact Hq.
Qed.

End PoolOrder.

Section PoolOrderWitnesses.

Import MonopolyAllocator.

Lemma release_undoes_query_witness :
  release_one 1 (mk [mkData (Item := Tensor.t) None false; mkData None false] 2 0 0 true)
  = (Returns two_slots_one_taken, [NotifyOne "cv_"]).
Proof.
  exact (proj2 (release_undoes_query (Item := Tensor.t) two_slots_one_taken
                  (mk [mkData None false; mkData None false] 2 0 0 true) 1 eq_refl)).
Defined.

Lemma fresh_pool_serves_capacity_then_blocks_witness :
  queries 3 (mk (replicate 2 (mkData (Item := Tensor.t) None true)) 2 2 0 true)
  = [Returned (Some 0%nat); Returned (Some 1%nat); Blocked].
Proof.
  exact (fresh_pool_serves_capacity_then_blocks (Item := Tensor.t) 2
           (mk (replicate 2 (mkData None true)) 2 2 0 true) eq_refl).
Defined.

End PoolOrderWitnesses.

(** ** More on MixMemory *)

Section MemoryFacts.

Import MixMemoryOps.

Lemma occurrences_app kind (tr tr' : list event) :
  occurrences kind (tr ++ tr') = (occurrences kind tr + occurrences kind tr')%nat.
Proof. unfold occurrences. rewrite filter_app, length_app. reflexivity. Qed.

(** Serving a request never fails. *)
Lemma serve_returns r (m : MixMemory.t) : exists m', result (serve r m) = Returns m'.
Proof.
  destruct m as [c cs oc d g gs og].
  destruct r; simpl; unfold MixMemory.gpu, MixMemory.cpu, MixMemory.release_all,
    MixMemory.release_gpu, MixMemory.release_cpu; simpl;
    try destruct (_ <? _); destruct c, g, oc, og; eexists; reflexivity.
Qed.






(** What one request does to a block that does not own its device side:
    it stays that way and nothing is freed on the device. *)
Lemma serve_borrowed r (m m' : MixMemory.t) tr :
  MixMemory.owner_gpu_ m = false -> serve r m = (Returns m', tr) ->
  MixMemory.owner_gpu_ m' = false /\ occurrences is_free tr = 0%nat.
Proof.
  destruct m as [c cs oc d g gs og]. simpl. intros ->.
  destruct r; simpl; unfold MixMemory.gpu, MixMemory.cpu, MixMemory.release_all,
    MixMemory.release_gpu, MixMemory.release_cpu; simpl;
    try destruct (_ <? _); destruct c, g, oc; intros [= <- <-]; split; reflexivity.
Qed.

Lemma serve_all_borrowed rs : forall (m : MixMemory.t),
  MixMemory.owner_gpu_ m = false ->
  occurrences is_free (trace (serve_all rs m)) = 0%nat.
Proof.
  induction rs as [|r rs IH]; intros m Ho.
  - reflexivity.
  - destruct (serve_returns r m) as [m1 H1].
    destruct (serve r m) as [o tr] eqn:Hs. simpl in H1. subst o.
    destruct (serve_borrowed _ _ _ _ Ho Hs) as [Ho1 F].
    simpl. rewrite Hs, prog_bind_returns. unfold trace at 1. simpl.
    rewrite occurrences_app, F, (IH m1 Ho1). reflexivity.
Qed.

(** X4: a block that was given device memory of somebody else never calls
    [cudaFree], whatever is asked of it afterwards.  This includes the
    buffer it allocates itself when more is asked for than it was given:
    that request calls [cudaMalloc], and the release that follows frees
    nothing. *)
Theorem referenced_block_never_frees (env : cuda_env)
    (cpu : option (list Byte.byte)) (cpu_size : Z) (gpu : list Byte.byte) (gpu_size : Z)
    (m0 m : MixMemory.t) (rs : list request) (size : Z) :
  0 < gpu_size -> gpu_size < size ->
  result (reference_data env cpu cpu_size (Some gpu) gpu_size m0) = Returns m ->
  occurrences is_free (trace (serve_all rs m)) = 0%nat /\
  filter (fun e => is_malloc e = true \/ is_free e = true)
         (trace (serve_all [Gpu size; ReleaseAll] m)) = [CudaMalloc size].
Proof.
  intros Hpos Hlt Hr.
  assert (Ho : MixMemory.owner_gpu_ m = false /\ MixMemory.gpu_ m = Some gpu /\
               MixMemory.gpu_size_ m = gpu_size).
  { revert Hr. destruct m0 as [c cs oc d g gs og].
    unfold reference_data, MixMemory.release_all, MixMemory.release_gpu,
      MixMemory.release_cpu. simpl.
    assert ((gpu_size =? 0) = false) as -> by lia.
    assert ((0 <? gpu_size) = true) as -> by lia.
    destruct (is_null cpu || (cpu_size =? 0)); destruct c, g, oc, og; simpl;
      intros [= <-]; auto. }
  destruct Ho as (Ho & Hg & Hs). split.
  - apply serve_all_borrowed, Ho.
  - destruct m as [c cs oc d g gs og]. simpl in Ho, Hg, Hs. subst og g gs.
    simpl. unfold MixMemory.gpu, MixMemory.release_all, MixMemory.release_gpu,
      MixMemory.release_cpu. simpl.
    assert ((gpu_size <? size) = true) as -> by lia.
    destruct c, oc; reflexivity.
Qed.

End MemoryFacts.

Section MemoryWitnesses.

Import MixMemoryOps.


Lemma referenced_block_never_frees_witness :
  occurrences is_free (trace (serve_all [Gpu 8; ReleaseGpu; Gpu 64] borrowed)) = 0%nat /\
  filter (fun e => is_malloc e = true \/ is_free e = true)
         (trace (serve_all [Gpu 32; ReleaseAll] borrowed)) = [CudaMalloc 32].
Proof.
  apply (referenced_block_never_frees one_device None 0 (MixMemory.zeros 16) 16
           (Tensor.data_ Tensor.fresh) borrowed [Gpu 8; ReleaseGpu; Gpu 64] 32);
    [lia | lia | reflexivity].
Defined.

End MemoryWitnesses.

(** ** More on Tensor *)

Section TensorInvariant.

Import Tensor TensorMore MixMemoryOps.

Lemma size_t_of_range z : 0 <= size_t_of z < 2 ^ 64.
Proof. unfold size_t_of. apply Z.mod_pos_bound. lia. Qed.

Lemma size_t_of_small z : 0 <= z < 2 ^ 64 -> size_t_of z = z.
Proof. intros H. unfold size_t_of. apply Z.mod_small, H. Qed.

Lemma length_zeros size : 0 <= size -> Z.of_nat (length (MixMemory.zeros size)) = size.
Proof. intros H. unfold MixMemory.zeros. rewrite length_replicate. lia. Qed.

Lemma length_list_inserts {A} (k : list A) : forall i l,
  length (list_inserts i k l) = length l.
Proof.
  induction k as [|a k IH]; intros i l; simpl; [reflexivity|].
  rewrite length_insert. apply IH.
Qed.

(** [gpu(size)] keeps the block sized and makes the device side at least
    [size] bytes long. *)
Lemma gpu_sized size (m : MixMemory.t) :
  sized m -> 0 <= size ->
  exists m' tr, MixMemory.gpu size m = (Returns m', tr) /\
    sized m' /\ size <= MixMemory.gpu_size_ m' /\
    MixMemory.cpu_ m' = MixMemory.cpu_ m.
Proof.
  destruct m as [c cs oc d g gs og]. unfold sized, MixMemory.gpu, MixMemory.release_gpu.
  simpl. intros [Hc Hg] Hs. destruct (gs <? size) eqn:Hlt.
  - destruct g, og; do 2 eexists; (split; [reflexivity|]); simpl;
      rewrite length_zeros by lia; repeat split; auto; lia.
  - do 2 eexists. split; [reflexivity|]. simpl. repeat split; auto; lia.
Qed.

Lemma cpu_sized size (m : MixMemory.t) :
  sized m -> 0 <= size ->
  exists m' tr, MixMemory.cpu size m = (Returns m', tr) /\
    sized m' /\ size <= MixMemory.cpu_size_ m' /\
    MixMemory.gpu_ m' = MixMemory.gpu_ m.
Proof.
  destruct m as [c cs oc d g gs og]. unfold sized, MixMemory.cpu, MixMemory.release_cpu.
  simpl. intros [Hc Hg] Hs. destruct (cs <? size) eqn:Hlt.
  - destruct c, oc; do 2 eexists; (split; [reflexivity|]); simpl;
      rewrite length_zeros by lia; repeat split; auto; lia.
  - do 2 eexists. split; [reflexivity|]. simpl. repeat split; auto; lia.
Qed.

Lemma blit_sized dst off src n size :
  match dst with Some b => Z.of_nat (length b) = size | None => size = 0 end ->
  match blit dst off src n with Some b => Z.of_nat (length b) = size | None => size = 0 end.
Proof. destruct dst; simpl; [rewrite length_list_inserts|]; auto. Qed.

Lemma to_gpu_covered copy (x x' : t) :
  covered x -> result (to_gpu copy x) = Returns x' ->
  covered x' /\ head_ x' = Device /\ bytes_ x' = bytes_ x.
Proof.
  intros (Hs & Hb & Hh). unfold to_gpu.
  destruct (decide (head_ x = Device)) as [Hd|Hd].
  - intros [= <-]. rewrite Hd in Hh. unfold covered. rewrite Hd. auto.
  - destruct (gpu_sized (bytes_ x) (data_ x) Hs) as (m' & tr & Hg & Hs' & Hle & Hc); [lia|].
    simpl. rewrite Hg, prog_bind_returns.
    destruct (copy && negb (is_null (MixMemory.cpu_ m'))); simpl; intros [= <-];
      unfold covered; simpl; repeat split; auto; try lia; try apply Hs'.
    apply blit_sized, Hs'.
Qed.

Lemma to_cpu_covered copy (x x' : t) :
  covered x -> result (to_cpu copy x) = Returns x' ->
  covered x' /\ head_ x' = Host /\ bytes_ x' = bytes_ x.
Proof.
  intros (Hs & Hb & Hh). unfold to_cpu.
  destruct (decide (head_ x = Host)) as [Hd|Hd].
  - intros [= <-]. rewrite Hd in Hh. unfold covered. rewrite Hd. auto.
  - destruct (cpu_sized (bytes_ x) (data_ x) Hs) as (m' & tr & Hg & Hs' & Hle & Hc); [lia|].
    simpl. rewrite Hg, prog_bind_returns.
    destruct (copy && negb (is_null (MixMemory.gpu_ m'))); simpl; intros [= <-];
      unfold covered; simpl; repeat split; auto; try lia; try apply Hs'.
    apply blit_sized, Hs'.
Qed.

Lemma resize_inv dims (x x' : t) :
  result (resize dims x) = Returns x' ->
  exists dims',
    x' = adajust_memory_by_update_dims_or_type
           (mk dims' (compute_strides dims') (bytes_ x) (head_ x) (stream_ x)
               (device_id_ x) (data_ x) (workspace_ x)).
Proof.
  unfold resize. destruct (setup_dims x (length dims) 0 dims) as [[dims'| |e] tr];
    simpl; intros [= <-]. exists dims'. reflexivity.
Qed.

Lemma resize_covered dims (x x' : t) :
  covered x -> result (resize dims x) = Returns x' -> covered x'.
Proof.
  intros (Hs & Hb & Hh) Hr. destruct (resize_inv _ _ _ Hr) as [dims' ->].
  unfold adajust_memory_by_update_dims_or_type, numel. simpl.
  set (needed := size_t_of _). pose proof (size_t_of_range
    (int32 (fold_left (fun value d => int32 (value * d)) dims'
              (if decide (dims' = []) then 0 else 1) * element_size))) as Hn.
  fold needed in Hn. unfold covered.
  destruct (bytes_ x <? needed) eqn:Hlt; simpl; [auto|].
  repeat split; try apply Hs; try lia.
  destruct (head_ x); auto; lia.
Qed.

Lemma copy_from_gpu_covered env offset src num_element device_id (x x' : t) :
  covered x -> result (copy_from_gpu env offset src num_element device_id x) = Returns x' ->
  covered x'.
Proof.
  intros Hc. unfold copy_from_gpu.
  assert (H1 : forall y, covered y -> forall x',
    result (let offset_location := size_t_of (offset * element_size) in
      if bytes_ y <=? offset_location then
        _ ← INFOE "Offset location >= bytes_, out of range"; mret y
      else
        let copyed_bytes := size_t_of (num_element * element_size) in
        let remain_bytes := bytes_ y - offset_location in
        if remain_bytes <? copyed_bytes then
          _ ← INFOE "Copyed bytes > remain bytes, out of range"; mret y
        else
          match head_ y with
          | Device =>
              current_device_id ← get_device env device_id;
              let gpu_device_id := device_id_ y in
              _ ← (if negb (current_device_id =? gpu_device_id)
                   then emit (MemcpyPeerAsync offset_location copyed_bytes)
                   else emit (MemcpyAsync "DeviceToDevice" offset_location copyed_bytes));
              let d := data_ y in
              mret (set_data (MixMemory.mk (MixMemory.cpu_ d) (MixMemory.cpu_size_ d)
                                (MixMemory.owner_cpu_ d) (MixMemory.device_id_ d)
                                (blit (MixMemory.gpu_ d) offset_location src copyed_bytes)
                                (MixMemory.gpu_size_ d) (MixMemory.owner_gpu_ d)) y)
          | Host =>
              _ ← emit (MemcpyAsync "DeviceToHost" offset_location copyed_bytes);
              let d := data_ y in
              mret (set_data (MixMemory.mk
                                (blit (MixMemory.cpu_ d) offset_location src copyed_bytes)
                                (MixMemory.cpu_size_ d)
                                (MixMemory.owner_cpu_ d) (MixMemory.device_id_ d)
                                (MixMemory.gpu_ d) (MixMemory.gpu_size_ d)
                                (MixMemory.owner_gpu_ d)) y)
          | Init => _ ← INFOE "Unsupport head type"; mret y
          end) = Returns x' -> covered x').
  { intros y (Hs & Hb & Hh) y'. cbv zeta.
    destruct (bytes_ y <=? size_t_of (offset * element_size));
      [simpl; intros [= <-]; exact (conj Hs (conj Hb Hh))|].
    destruct (bytes_ y - size_t_of (offset * element_size)
              <? size_t_of (num_element * element_size));
      [simpl; intros [= <-]; exact (conj Hs (conj Hb Hh))|].
    destruct (head_ y) eqn:Hy.
    - simpl. intros [= <-]. unfold covered. rewrite Hy. auto.
    - unfold get_device, check_device_id.
      destruct (negb (device_id =? CURRENT_DEVICE_ID));
        [destruct ((device_id <? 0) || (device_count env <=? device_id))|];
        simpl; destruct (negb (_ =? _)); simpl; intros [= <-];
        unfold covered; simpl; rewrite Hy; (split; [|auto]);
        (split; [apply Hs|apply blit_sized, Hs]).
    - simpl. intros [= <-]. unfold covered; simpl; rewrite Hy. split; [|auto].
      split; [apply blit_sized, Hs|apply Hs]. }
  destruct (decide (head_ x = Init)) as [Hi|Hi].
  - destruct (to_gpu_false_returns x) as (y & tr & Hg & _).
    rewrite Hg, prog_bind_returns. unfold result at 1. simpl. apply H1.
    eapply to_gpu_covered; [exact Hc|]. rewrite Hg. reflexivity.
  - rewrite prog_ret_bind. apply H1, Hc.
Qed.

Lemma release_covered (x x' : t) :
  covered x -> result (release x) = Returns x' -> covered x'.
Proof.
  intros _. unfold release, MixMemory.release_all, MixMemory.release_cpu,
    MixMemory.release_gpu.
  destruct x as [sh st b h s d m w]. destruct m as [c cs oc dv g gs og]. simpl.
  destruct c, g, oc, og; simpl; intros [= <-]; repeat split; simpl; lia.
Qed.

Lemma perform_covered env op (x x' : t) :
  covered x -> result (perform env op x) = Returns x' -> covered x'.
Proof.
  intros Hc. destruct op; simpl.
  - apply resize_covered, Hc.
  - unfold resize_single_dim, Assert.
    destruct ((0 <=? idim) && (idim <? Z.of_nat (length (shape_ x)))).
    + rewrite prog_ret_bind. apply resize_covered, Hc.
    + simpl. intros [=].
  - intros H. eapply to_gpu_covered; eauto.
  - intros H. eapply to_cpu_covered; eauto.
  - apply copy_from_gpu_covered, Hc.
  - apply release_covered, Hc.
Qed.

Lemma get_device_returns env device_id :
  exists d tr, get_device env device_id = (Returns d, tr) /\
    filter (fun e => is_copy e = true) tr = [].
Proof.
  unfold get_device, check_device_id.
  destruct (negb (device_id =? CURRENT_DEVICE_ID));
    [destruct ((device_id <? 0) || (device_count env <=? device_id))|];
    do 2 eexists; split; reflexivity.
Qed.

(** Without a block to adopt, [setup_data] makes an empty one of its own
    and leaves the head at [Init]. *)
Lemma setup_data_none env (x : t) :
  exists d tr,
    setup_data env None x =
    (Returns (mk (shape_ x) (strides_ x) (bytes_ x) Init (stream_ x) (device_id_ x)
                (MixMemory.mk None 0 true d None 0 true) (workspace_ x)), tr).
Proof.
  unfold setup_data, MixMemory.create.
  destruct (get_device_returns env (device_id_ x)) as (d & tr & -> & _).
  exists d, (tr ++ []). rewrite !prog_bind_returns. simpl. rewrite !app_nil_r. reflexivity.
Qed.



End TensorInvariant.

Section TensorCopies.

Import Tensor TensorMore MixMemoryOps.

(** Overwriting [k] at [i] inside a list. *)
Lemma list_inserts_inside {A} (i : nat) (k l : list A) :
  (i + length k <= length l)%nat ->
  list_inserts i k l = take i l ++ k ++ drop (i + length k) l.
Proof.
  intros H.
  rewrite <- (take_drop i l) at 1.
  rewrite <- (take_drop (length k) (drop i l)) at 1.
  replace i with (length (take i l) + 0)%nat at 1 by (rewrite length_take; lia).
  rewrite list_inserts_app_r, list_inserts_0_r, drop_drop; [reflexivity|].
  rewrite length_take, length_drop. lia.
Qed.

(** X6: a [copy_from_gpu] that is in range writes exactly the bytes it is
    asked to write.  On a tensor whose head is on the device or on the
    host, with [4 * offset < bytes] and [4 * (offset + num_element) <=
    bytes], it returns after issuing one copy; the buffer the head points
    to is the old one with the [4 * num_element] bytes from byte
    [4 * offset] on replaced by the first [4 * num_element] bytes of the
    source, and the head, the shape, the byte size and the other side are
    what they were. *)
Theorem copy_from_gpu_writes_the_range (env : cuda_env) (offset : Z) (src : list Byte.byte)
    (num_element device_id : Z) (x : t) (b : list Byte.byte) :
  covered x -> head_buffer x = Some b ->
  0 <= offset -> 0 <= num_element ->
  4 * offset < bytes_ x -> 4 * (offset + num_element) <= bytes_ x ->
  4 * num_element <= Z.of_nat (length src) ->
  exists x' tr,
    copy_from_gpu env offset src num_element device_id x = (Returns x', tr) /\
    length (filter (fun e => is_copy e = true) tr) = 1%nat /\
    head_buffer x' =
      Some (take (Z.to_nat (4 * offset)) b ++ take (Z.to_nat (4 * num_element)) src ++
            drop (Z.to_nat (4 * (offset + num_element))) b) /\
    head_ x' = head_ x /\ shape_ x' = shape_ x /\ bytes_ x' = bytes_ x /\
    other_side x' = other_side x.
Proof.
  intros (Hs & Hb & Hh) Hbuf Ho Hn Hlt Hle Hsrc.
  unfold copy_from_gpu, head_buffer, other_side in *.
  assert (Hoff : size_t_of (offset * element_size) = 4 * offset).
  { unfold element_size. rewrite size_t_of_small; lia. }
  assert (Hnum : size_t_of (num_element * element_size) = 4 * num_element).
  { unfold element_size. rewrite size_t_of_small; lia. }
  assert (Hblit : forall size, Z.of_nat (length b) = size -> bytes_ x <= size ->
    blit (Some b) (4 * offset) src (4 * num_element) =
    Some (take (Z.to_nat (4 * offset)) b ++ take (Z.to_nat (4 * num_element)) src ++
          drop (Z.to_nat (4 * (offset + num_element))) b)).
  { intros size Hl Hsz. unfold blit. f_equal.
    rewrite list_inserts_inside; rewrite length_take; [|lia].
    do 3 f_equal. lia. }
  destruct Hs as [Hcpu Hgpu].
  destruct (decide (head_ x = Init)) as [Hi|Hi]; [rewrite Hi in Hbuf; discriminate|].
  rewrite prog_ret_bind. cbv zeta. rewrite Hoff, Hnum.
  assert ((bytes_ x <=? 4 * offset) = false) as -> by lia.
  assert ((bytes_ x - 4 * offset <? 4 * num_element) = false) as -> by lia.
  destruct (head_ x) eqn:Hhead; [congruence| |].
  - rewrite Hbuf in Hgpu.
    destruct (get_device_returns env device_id) as (d & tr & -> & Htr).
    rewrite prog_bind_returns. rewrite Hbuf, (Hblit _ Hgpu Hh).
    destruct (negb (d =? device_id_ x)); simpl;
      do 2 eexists; (split; [reflexivity|]); simpl; rewrite Hhead; simpl;
      (split; [|auto]);
      rewrite filter_app, length_app, Htr; reflexivity.
  - rewrite Hbuf in Hcpu. rewrite Hbuf, (Hblit _ Hcpu Hh). simpl.
    do 2 eexists. split; [reflexivity|]. simpl. rewrite Hhead. auto 10.
Qed.

(** X7: moving a tensor from the host to the device and back, copying
    both times, returns with the host buffer exactly as it was and with the
    first [bytes] bytes of the device buffer equal to those of the host
    buffer; it issues one copy in each direction. *)
Theorem host_device_round_trip (x : t) (c : list Byte.byte) :
  covered x -> head_ x = Host -> MixMemory.cpu_ (data_ x) = Some c -> 0 < bytes_ x ->
  exists x' tr g,
    to_gpu true x ≫= to_cpu true = (Returns x', tr) /\
    head_ x' = Host /\ bytes_ x' = bytes_ x /\ shape_ x' = shape_ x /\
    MixMemory.cpu_ (data_ x') = Some c /\
    MixMemory.gpu_ (data_ x') = Some g /\
    take (Z.to_nat (bytes_ x)) g = take (Z.to_nat (bytes_ x)) c /\
    filter (fun e => is_copy e = true) tr =
      [MemcpyAsync "HostToDevice" 0 (bytes_ x); MemcpyAsync "DeviceToHost" 0 (bytes_ x)].
Proof.
  intros (Hs & Hb & Hh) Hhead Hc Hpos. rewrite Hhead in Hh.
  destruct (gpu_sized (bytes_ x) (data_ x) Hs) as (m & tr & Hg & [Hmc Hmg] & Hle & Hcpu);
    [lia|].
  destruct (MixMemory.gpu_ m) as [g0|] eqn:Hg0; [|lia].
  assert (Hcs : MixMemory.cpu_size_ m = MixMemory.cpu_size_ (data_ x)).
  { revert Hg. unfold MixMemory.gpu, MixMemory.release_gpu.
    destruct (_ <? _); [destruct (is_null _); [|destruct (MixMemory.owner_gpu_ _)]|];
      intros [= <- _]; reflexivity. }
  assert (Htr : filter (fun e => is_copy e = true) tr = []).
  { revert Hg. unfold MixMemory.gpu, MixMemory.release_gpu.
    destruct (_ <? _); [destruct (is_null _); [|destruct (MixMemory.owner_gpu_ _)]|];
      intros [= _ <-]; reflexivity. }
  rewrite Hcpu, Hc in Hmc. destruct Hs as [Hxc _]. rewrite Hc in Hxc.
  set (n := Z.to_nat (bytes_ x)).
  assert (Hnc : (n <= length c)%nat) by lia.
  assert (Hng : (n <= length g0)%nat) by lia.
  assert (Hup : list_inserts 0 (take n c) g0 = take n c ++ drop n g0).
  { rewrite list_inserts_inside; rewrite length_take; [|lia].
    simpl. do 2 f_equal. lia. }
  assert (Hdown : list_inserts 0 (take n (take n c ++ drop n g0)) c = c).
  { rewrite take_app_le by (rewrite length_take; lia).
    rewrite take_take, Nat.min_id.
    rewrite list_inserts_inside; rewrite length_take; [|lia].
    simpl. replace (n `min` length c)%nat with n by lia. apply take_drop. }
  unfold to_gpu. rewrite Hhead. simpl decide. cbv iota. simpl bytes_. simpl data_.
  rewrite Hg, prog_bind_returns. rewrite Hcpu, Hc. simpl andb. cbv iota.
  unfold to_cpu.
  eexists _, _, (take n c ++ drop n g0).
  rewrite Hg0. unfold blit. simpl default. change (Z.to_nat 0) with 0%nat.
  fold n. rewrite Hup. prog_unfold. unfold MixMemory.cpu. simpl.
  rewrite Hcs. assert ((MixMemory.cpu_size_ (data_ x) <? bytes_ x) = false) as -> by lia.
  simpl. fold n. rewrite Hdown. split; [reflexivity|].
  repeat split.
  - rewrite take_app_le by (rewrite length_take; lia).
    rewrite take_take, Nat.min_id. reflexivity.
  - rewrite !filter_app, Htr. reflexivity.
Qed.

End TensorCopies.

Section TensorLayout.

Import Tensor TensorMore.

Lemma int32_small z : - 2 ^ 31 <= z < 2 ^ 31 -> int32 z = z.
Proof. intros H. unfold int32. rewrite Z.mod_small; lia. Qed.

Lemma int32_range z : - 2 ^ 31 <= int32 z < 2 ^ 31.
Proof. unfold int32. pose proof (Z.mod_pos_bound (z + 2 ^ 31) (2 ^ 32)). lia. Qed.

Lemma int32_congr a b : a mod 2 ^ 32 = b mod 2 ^ 32 -> int32 a = int32 b.
Proof.
  intros H. unfold int32. f_equal.
  rewrite (Z.add_mod a), (Z.add_mod b), H by lia. reflexivity.
Qed.

Lemma int32_mod z : int32 z mod 2 ^ 32 = z mod 2 ^ 32.
Proof.
  unfold int32. rewrite Zminus_mod_idemp_l.
  f_equal. lia.
Qed.

Lemma int32_mul_l a b : int32 (int32 a * b) = int32 (a * b).
Proof. apply int32_congr. rewrite Z.mul_mod, int32_mod, <- Z.mul_mod by lia. reflexivity. Qed.

(** The [int] product of [numel] and [count] is the product of the
    dimensions, wrapped once. *)
Lemma int_product (l : list Z) : forall a,
  - 2 ^ 31 <= a < 2 ^ 31 ->
  fold_left (fun value d => int32 (value * d)) l a = int32 (a * product l).
Proof.
  induction l as [|d l IH]; intros a Ha; simpl.
  - rewrite Z.mul_1_r, int32_small; auto.
  - rewrite IH by apply int32_range.
    rewrite int32_mul_l. f_equal. lia.
Qed.

Lemma product_pos (l : list Z) : Forall (fun d => 0 < d) l -> 0 < product l.
Proof. induction 1; simpl; lia. Qed.

Lemma setup_dims_same (x : t) ndims dims : forall i,
  Forall (fun d => 0 < d) dims -> setup_dims x ndims i dims = (Returns dims, []).
Proof.
  induction dims as [|d dims IH]; intros i H; [reflexivity|].
  inversion H as [|? ? Hd Hr]; subst. simpl.
  assert ((d =? -1) = false) as -> by lia.
  rewrite prog_ret_bind, IH by exact Hr. reflexivity.
Qed.

Lemma compute_strides_row_major (dims : list Z) :
  Forall (fun d => 0 < d) dims -> 4 * product dims < 2 ^ 64 ->
  compute_strides dims = row_major_strides dims.
Proof.
  induction 1 as [|d rest Hd Hrest IH]; intros Hlt; [reflexivity|].
  pose proof (product_pos rest Hrest) as Hp.
  simpl in Hlt |- *.
  assert (Hr : 4 * product rest < 2 ^ 64) by nia.
  rewrite (IH Hr). destruct Hrest as [|d' rest' Hd' Hrest']; simpl.
  - reflexivity.
  - pose proof (product_pos rest' Hrest') as Hp'. simpl in Hp, Hr.
    unfold element_size.
    rewrite (size_t_of_small d') by nia.
    rewrite size_t_of_small by nia. f_equal. lia.
Qed.

(** X8: [resize] lays the tensor out in row-major order.  For a shape of
    positive dimensions whose byte size fits an [int], it returns with the
    shape as given, the byte size four times the product of the
    dimensions, and the stride of each dimension that many bytes as the
    dimensions after it hold, the last one being the element size; the
    element count is the product of the dimensions. *)
Theorem resize_lays_out_row_major (x : t) (dims : list Z) :
  dims <> [] -> Forall (fun d => 0 < d) dims -> 4 * product dims < 2 ^ 31 ->
  exists x',
    resize dims x = (Returns x', []) /\
    shape_ x' = dims /\ strides_ x' = row_major_strides dims /\
    bytes_ x' = 4 * product dims /\ numel x' = product dims /\
    count 0 x' = product dims /\
    last (strides_ x') = Some element_size /\
    data_ x' = data_ x.
Proof.
  intros Hne Hpos Hlt. pose proof (product_pos dims Hpos) as Hp.
  unfold resize. rewrite setup_dims_same by exact Hpos.
  rewrite prog_bind_returns. unfold result, trace. simpl fst. simpl snd.
  eexists. split; [reflexivity|].
  assert (Hnumel : fold_left (fun value d => int32 (value * d)) dims
                     (if decide (dims = []) then 0 else 1) = product dims).
  { destruct (decide (dims = [])); [contradiction|].
    rewrite int_product by lia. rewrite Z.mul_1_l. apply int32_small. lia. }
  unfold adajust_memory_by_update_dims_or_type, numel, count. simpl.
  rewrite !Hnumel. rewrite compute_strides_row_major by (auto; lia).
  assert (Hn : size_t_of (int32 (product dims * element_size)) = 4 * product dims).
  { unfold element_size. rewrite int32_small by lia. rewrite size_t_of_small; lia. }
  rewrite Hn.
  assert (Hcount : (if (0 <=? 0) && (0 <? Z.of_nat (length dims))
                    then fold_left (fun size d => int32 (size * d)) (drop (Z.to_nat 0) dims) 1
                    else 0) = product dims).
  { destruct dims; [contradiction|]. simpl length.
    assert ((0 <? Z.of_nat (S (length dims))) = true) as -> by (apply Z.ltb_lt; lia).
    simpl andb. cbv iota. change (Z.to_nat 0) with 0%nat. rewrite drop_0.
    rewrite int_product by lia. rewrite Z.mul_1_l. apply int32_small. lia. }
  assert (Hlast : last (row_major_strides dims) = Some element_size).
  { clear -Hne. induction dims as [|d [|d' rest] IH]; [contradiction|reflexivity|].
    change (last (row_major_strides (d' :: rest)) = Some element_size).
    apply IH. discriminate. }
  destruct (bytes_ x <? 4 * product dims); simpl; rewrite ?Hcount; auto 10.
Qed.

Lemma row_major_bound (shape : list Z) : forall index,
  Forall (fun d => 0 < d) shape -> in_bounds shape index ->
  0 <= row_major shape index < product shape.
Proof.
  induction shape as [|d rest IH]; intros index Hpos Hin.
  - simpl. lia.
  - inversion Hpos as [|? ? Hd Hrest]; subst.
    pose proof (product_pos rest Hrest) as Hp.
    destruct index as [|i index]; simpl.
    + nia.
    + destruct Hin as [Hi Hin]. specialize (IH index Hrest Hin). nia.
Qed.

Lemma in_bounds_length (shape : list Z) : forall index,
  in_bounds shape index -> (length index <= length shape)%nat.
Proof.
  induction shape as [|d rest IH]; intros [|i index]; simpl; try lia.
  intros [_ H]. specialize (IH index H). lia.
Qed.

Lemma in_bounds_nil (shape : list Z) : in_bounds shape [].
Proof. destruct shape; exact I. Qed.

Lemma scale_bound u d q i bound :
  0 <= u -> 0 <= i < d -> 0 < q -> (u + 1) * (d * q) <= bound ->
  (u * d + i + 1) * q <= bound.
Proof.
  intros Hu Hi Hq Hb.
  assert (H : (u * d + i + 1) * q <= (u + 1) * d * q).
  { apply Z.mul_le_mono_nonneg_r; nia. }
  lia.
Qed.

Lemma below_scaled v q bound : 0 <= v -> 0 < q -> (v + 1) * q <= bound -> v * q < bound.
Proof. intros. nia. Qed.

(** The loop of [offset_array] from the middle: the value it enters a
    dimension with is a multiple [u * d] of that dimension. *)
Lemma offset_loop_exact (rest : list Z) : forall d index u,
  Forall (fun d => 0 < d) (d :: rest) -> in_bounds (d :: rest) index ->
  0 <= u -> (u + 1) * product (d :: rest) <= 2 ^ 31 ->
  offset_loop (d :: rest) index (u * d)
  = u * product (d :: rest) + row_major (d :: rest) index.
Proof.
  induction rest as [|d' rest' IH]; intros d index u Hpos Hin Hu Hlt;
    inversion Hpos as [|? ? Hd Hrest]; subst.
  - destruct index as [|i index]; simpl in *; [lia|].
    destruct Hin as [Hi _]. rewrite int32_small; nia.
  - pose proof (product_pos _ Hrest) as Hp.
    set (q := product (d' :: rest')) in *.
    change (product (d :: d' :: rest')) with (d * q) in *.
    assert (Hq : q = d' * product rest') by reflexivity.
    inversion Hrest as [|? ? Hd' Hrest']; subst.
    pose proof (product_pos _ Hrest') as Hp'.
    assert (Hstep : forall i index', 0 <= i < d -> in_bounds (d' :: rest') index' ->
      int32 (int32 (u * d + i) * d') = (u * d + i) * d' /\
      offset_loop (d' :: rest') index' ((u * d + i) * d')
      = (u * d + i) * q + row_major (d' :: rest') index').
    { intros i index' Hi Hin'.
      pose proof (scale_bound u d q i _ Hu Hi Hp Hlt) as Hb.
      pose proof (below_scaled (u * d + i) q _ ltac:(nia) Hp Hb) as Hv.
      assert (0 <= (u * d + i) * d' <= (u * d + i) * q) by nia.
      split.
      - rewrite (int32_small (u * d + i)) by nia. apply int32_small. lia.
      - apply IH; auto. nia. }
    destruct index as [|i index].
    + destruct (Hstep 0 [] ltac:(lia) I) as [Hw He].
      change (offset_loop (d' :: rest') [] (int32 (u * d * d')) = u * (d * q) + 0).
      rewrite Z.add_0_r in Hw, He.
      rewrite int32_small by (rewrite <- Hw; apply int32_range).
      rewrite He. simpl. lia.
    + destruct Hin as [Hi Hin]. destruct (Hstep i index Hi Hin) as [Hw He].
      change (offset_loop (d' :: rest') index (int32 (int32 (u * d + i) * d'))
              = u * (d * q) + (i * q + row_major (d' :: rest') index)).
      rewrite Hw, He. lia.
Qed.

(** X9: [offset_array] addresses in row-major order and stays inside the
    tensor.  For a tensor of positive dimensions with fewer than [2^31]
    elements and an index that is within each dimension it is given for,
    it returns the row-major position of the index, which is at least [0]
    and less than the number of elements; four times that is what the
    strides of a row-major layout give for the index. *)
Theorem offset_array_row_major (x : t) (index : list Z) :
  Forall (fun d => 0 < d) (shape_ x) -> in_bounds (shape_ x) index ->
  product (shape_ x) < 2 ^ 31 ->
  offset_array index x = (Returns (row_major (shape_ x) index), []) /\
  0 <= row_major (shape_ x) index < product (shape_ x) /\
  foldr Z.add 0 (zip_with Z.mul index (row_major_strides (shape_ x)))
    = element_size * row_major (shape_ x) index.
Proof.
  intros Hpos Hin Hlt. split; [|split].
  - unfold offset_array, Assert.
    rewrite bool_decide_eq_true_2 by (apply in_bounds_length, Hin).
    rewrite prog_ret_bind. do 2 f_equal.
    destruct (shape_ x) as [|d rest] eqn:Hshape.
    + destruct index; [reflexivity|contradiction].
    + change 0 with (0 * d) at 1.
      rewrite offset_loop_exact; auto; lia.
  - apply row_major_bound; auto.
  - clear Hlt Hpos. revert index Hin.
    induction (shape_ x) as [|d rest IH]; intros [|i index] Hin; simpl in *;
      try reflexivity; try lia.
    destruct Hin as [_ Hin]. rewrite (IH index Hin). unfold element_size. lia.
Qed.

End TensorLayout.

Section TensorWitnesses.

Import Tensor TensorMore.


Lemma copy_from_gpu_writes_the_range_witness :
  exists x' tr,
    copy_from_gpu one_device 1 [Byte.x01; Byte.x02; Byte.x03; Byte.x04] 1 CURRENT_DEVICE_ID
      on_device = (Returns x', tr) /\
    length (filter (fun e => is_copy e = true) tr) = 1%nat /\
    head_buffer x' =
      Some (take (Z.to_nat (4 * 1)) (MixMemory.zeros 16) ++
            take (Z.to_nat (4 * 1)) [Byte.x01; Byte.x02; Byte.x03; Byte.x04] ++
            drop (Z.to_nat (4 * (1 + 1))) (MixMemory.zeros 16)) /\
    head_ x' = head_ on_device /\ shape_ x' = shape_ on_device /\
    bytes_ x' = bytes_ on_device /\ other_side x' = other_side on_device.
Proof.
  apply (copy_from_gpu_writes_the_range one_device 1
           [Byte.x01; Byte.x02; Byte.x03; Byte.x04] 1 CURRENT_DEVICE_ID on_device
           (MixMemory.zeros 16)); try reflexivity; try (simpl; lia).
  repeat split; simpl; lia.
Defined.

Lemma host_device_round_trip_witness :
  exists x' tr g,
    to_gpu true on_host ≫= to_cpu true = (Returns x', tr) /\
    head_ x' = Host /\ bytes_ x' = bytes_ on_host /\ shape_ x' = shape_ on_host /\
    MixMemory.cpu_ (data_ x') = Some host_bytes /\
    MixMemory.gpu_ (data_ x') = Some g /\
    take (Z.to_nat (bytes_ on_host)) g = take (Z.to_nat (bytes_ on_host)) host_bytes /\
    filter (fun e => is_copy e = true) tr =
      [MemcpyAsync "HostToDevice" 0 (bytes_ on_host);
       MemcpyAsync "DeviceToHost" 0 (bytes_ on_host)].
Proof.
  apply (host_device_round_trip on_host host_bytes); try reflexivity.
  repeat split; simpl; lia.
Defined.

Lemma resize_lays_out_row_major_witness :
  exists x',
    resize [2; 3] fresh = (Returns x', []) /\
    shape_ x' = [2; 3] /\ strides_ x' = row_major_strides [2; 3] /\
    bytes_ x' = 4 * product [2; 3] /\ numel x' = product [2; 3] /\
    count 0 x' = product [2; 3] /\
    last (strides_ x') = Some element_size /\
    data_ x' = data_ fresh.
Proof.
  apply (resize_lays_out_row_major fresh [2; 3]).
  - discriminate.
  - repeat constructor.
  - reflexivity.
Defined.

Lemma offset_array_row_major_witness :
  offset_array [1; 1] fresh_2x2 = (Returns (row_major [2; 2] [1; 1]), []) /\
  0 <= row_major [2; 2] [1; 1] < product [2; 2] /\
  foldr Z.add 0 (zip_with Z.mul [1; 1] (row_major_strides [2; 2]))
    = element_size * row_major [2; 2] [1; 1].
Proof.
  apply (offset_array_row_major fresh_2x2 [1; 1]).
  - repeat constructor.
  - simpl. lia.
  - reflexivity.
Defined.

End TensorWitnesses.

(** ** More on the decode kernel *)

Section DecodeMore.

Import Kernel.



End DecodeMore.

Section KernelWitnesses.

Import Kernel.


End KernelWitnesses.

(** ** The warp kernel *)

Section WarpFacts.

Import Kernel WarpKernel.

Lemma int32_id z : - 2 ^ 31 <= z < 2 ^ 31 -> int32 z = z.
Proof. intros H. unfold int32. rewrite Z.mod_small; lia. Qed.

(** What the thread of a pixel inside the target does: it writes the
    colour of its pixel to the three planes. *)
Lemma warp_thread_inside (src : list Z) (src_line_size src_width src_height : Z)
    (dst_width dst_height const_value_st : Z) (matrix : list Q) (norm : Norm)
    (dst : list Q) (position : Z) :
  0 < dst_width -> 0 < dst_height -> dst_width * dst_height < 2 ^ 31 ->
  0 <= position < dst_width * dst_height ->
  let area := dst_width * dst_height in
  let c := colour src src_line_size src_width src_height const_value_st matrix norm
             (position mod dst_width) (position / dst_width) in
  warp_thread src src_line_size src_width src_height dst_width dst_height const_value_st
    matrix norm (int32 area) dst position
  = wr (wr (wr dst position (channel c 0)) (position + area) (channel c 1))
       (position + area + area) (channel c 2).
Proof.
  intros Hw Hh Hlt Hp area c. subst area. unfold warp_thread.
  rewrite (int32_id (dst_width * dst_height)) by lia.
  assert ((dst_width * dst_height <=? position) = false) as -> by lia.
  rewrite Z.rem_mod_nonneg, Z.quot_div_nonneg by lia.
  fold c. destruct c as [[c0 c1] c2]. simpl channel.
  pose proof (Z.div_mod position dst_width ltac:(lia)) as Hdm.
  pose proof (Z.mod_pos_bound position dst_width ltac:(lia)) as Hm.
  assert (Hd : 0 <= position / dst_width) by (apply Z.div_pos; lia).
  rewrite (int32_id (position / dst_width * dst_width)) by nia.
  replace (position / dst_width * dst_width + position mod dst_width) with position by lia.
  reflexivity.
Qed.

Lemma warp_thread_outside (src : list Z) (src_line_size src_width src_height : Z)
    (dst_width dst_height const_value_st : Z) (matrix : list Q) (norm : Norm)
    (dst : list Q) (position : Z) :
  0 <= dst_width * dst_height < 2 ^ 31 -> dst_width * dst_height <= position ->
  warp_thread src src_line_size src_width src_height dst_width dst_height const_value_st
    matrix norm (int32 (dst_width * dst_height)) dst position = dst.
Proof.
  intros Hlt Hp. unfold warp_thread. rewrite int32_id by lia.
  assert ((dst_width * dst_height <=? position) = true) as -> by lia. reflexivity.
Qed.

(** A cell of the three planes after one thread. *)
Lemma warp_thread_cell (src : list Z) (src_line_size src_width src_height : Z)
    (dst_width dst_height const_value_st : Z) (matrix : list Q) (norm : Norm)
    (dst : list Q) (q p k : Z) :
  0 < dst_width -> 0 < dst_height -> dst_width * dst_height < 2 ^ 31 ->
  3 * (dst_width * dst_height) <= Z.of_nat (length dst) ->
  0 <= q -> 0 <= p < dst_width * dst_height -> 0 <= k <= 2 ->
  let area := dst_width * dst_height in
  let dst' := warp_thread src src_line_size src_width src_height dst_width dst_height
                const_value_st matrix norm (int32 area) dst q in
  length dst' = length dst /\
  rd dst' (k * area + p) =
    if decide (q = p)
    then channel (colour src src_line_size src_width src_height const_value_st matrix norm
                    (p mod dst_width) (p / dst_width)) k
    else rd dst (k * area + p).
Proof.
  intros Hw Hh Hlt Hlen Hq Hp Hk area dst'. subst dst'.
  destruct (Z_lt_le_dec q area) as [Hin|Hout].
  - rewrite warp_thread_inside by (auto; unfold area in *; lia).
    fold area. split; [rewrite !length_wr; reflexivity|].
    destruct (decide (q = p)) as [->|Hne].
    + assert (k = 0 \/ k = 1 \/ k = 2) as [-> | [-> | ->]] by lia.
      * rewrite !rd_wr_ne by lia. rewrite Z.mul_0_l, Z.add_0_l.
        apply rd_wr_eq. lia.
      * rewrite rd_wr_ne by lia. rewrite Z.mul_1_l, (Z.add_comm area p).
        apply rd_wr_eq. rewrite length_wr. lia.
      * replace (2 * area + p) with (p + area + area) by lia.
        apply rd_wr_eq. rewrite !length_wr. lia.
    + assert (k = 0 \/ k = 1 \/ k = 2) as [-> | [-> | ->]] by lia;
        rewrite !rd_wr_ne by lia; reflexivity.
  - rewrite warp_thread_outside by (unfold area in *; lia).
    split; [reflexivity|]. destruct (decide (q = p)); [lia|reflexivity].
Qed.

Lemma warp_thread_beyond (src : list Z) (src_line_size src_width src_height : Z)
    (dst_width dst_height const_value_st : Z) (matrix : list Q) (norm : Norm)
    (dst : list Q) (q off : Z) :
  0 < dst_width -> 0 < dst_height -> dst_width * dst_height < 2 ^ 31 ->
  0 <= q -> 3 * (dst_width * dst_height) <= off ->
  rd (warp_thread src src_line_size src_width src_height dst_width dst_height
        const_value_st matrix norm (int32 (dst_width * dst_height)) dst q) off
  = rd dst off.
Proof.
  intros Hw Hh Hlt Hq Hoff.
  destruct (Z_lt_le_dec q (dst_width * dst_height)) as [Hin|Hout].
  - rewrite warp_thread_inside by (auto; lia). rewrite !rd_wr_ne by lia. reflexivity.
  - rewrite warp_thread_outside by lia. reflexivity.
Qed.

(** X15: the warp kernel fills the three planes of the target, and
    nothing else.  With a thread for every pixel, in any order, each plane
    holds at column [dx] of row [dy] the channel of the colour of that
    pixel, which depends on the source image, the matrix and the
    normalisation only: what the target held before and the order of the
    threads make no difference.  The cells behind the three planes are
    unchanged. *)
Theorem warp_kernel_fills_the_planes (schedule : list Z) (src : list Z)
    (src_line_size src_width src_height : Z) (dst : list Q) (dst_width dst_height : Z)
    (matrix : list Q) (const_value : Z) (norm : Norm) :
  0 < dst_width -> 0 < dst_height -> dst_width * dst_height < 2 ^ 31 ->
  3 * (dst_width * dst_height) <= Z.of_nat (length dst) ->
  Forall (fun q => 0 <= q) schedule ->
  (forall p, 0 <= p < dst_width * dst_height -> In p schedule) ->
  let area := dst_width * dst_height in
  let out := warp_affine_bilinear_and_normalize_plane schedule src src_line_size
               src_width src_height dst dst_width dst_height matrix const_value norm in
  length out = length dst /\
  (forall dx dy k, 0 <= dx < dst_width -> 0 <= dy < dst_height -> 0 <= k <= 2 ->
     rd out (k * area + dy * dst_width + dx) =
     channel (colour src src_line_size src_width src_height const_value matrix norm dx dy) k) /\
  (forall off, 3 * area <= off -> rd out off = rd dst off).
Proof.
  intros Hw Hh Hlt Hlen Hs Hall area out.
  assert (Hfold : forall sched d,
    Forall (fun q => 0 <= q) sched -> 3 * area <= Z.of_nat (length d) ->
    let d' := fold_left (warp_thread src src_line_size src_width src_height dst_width
                           dst_height const_value matrix norm (int32 area)) sched d in
    length d' = length d /\
    (forall p k, 0 <= p < area -> 0 <= k <= 2 ->
       rd d' (k * area + p) =
       if bool_decide (p ∈ sched)
       then channel (colour src src_line_size src_width src_height const_value matrix norm
                       (p mod dst_width) (p / dst_width)) k
       else rd d (k * area + p)) /\
    (forall off, 3 * area <= off -> rd d' off = rd d off)).
  { induction sched as [|q sched IH]; intros d Hsched Hd; simpl.
    - split; [reflexivity|]. split; [|reflexivity]. intros p k _ _. reflexivity.
    - inversion Hsched as [|? ? Hq Hrest]; subst.
      set (d1 := warp_thread src src_line_size src_width src_height dst_width dst_height
                   const_value matrix norm (int32 area) d q).
      assert (Hl1 : length d1 = length d).
      { apply (warp_thread_cell src src_line_size src_width src_height dst_width dst_height
                 const_value matrix norm d q 0 0); auto; unfold area in *; nia. }
      destruct (IH d1 Hrest ltac:(rewrite Hl1; exact Hd)) as (Gl & Gc & Gb).
      split; [rewrite Gl; exact Hl1|]. split.
      + intros p k Hp Hk. rewrite (Gc p k Hp Hk).
        destruct (warp_thread_cell src src_line_size src_width src_height dst_width
                    dst_height const_value matrix norm d q p k Hw Hh Hlt Hd Hq Hp Hk)
          as [_ Hcell]. fold area in Hcell. fold d1 in Hcell.
        destruct (bool_decide (p ∈ sched)) eqn:Hmem.
        * rewrite bool_decide_eq_true_2; [reflexivity|].
          apply elem_of_cons. right. apply bool_decide_eq_true in Hmem. exact Hmem.
        * rewrite Hcell. destruct (decide (q = p)) as [->|Hne].
          -- rewrite bool_decide_eq_true_2; [reflexivity|]. apply elem_of_cons. left.
             reflexivity.
          -- rewrite bool_decide_eq_false_2; [reflexivity|].
             intros Hin. apply elem_of_cons in Hin. destruct Hin as [->|Hin]; [congruence|].
             apply bool_decide_eq_false in Hmem. contradiction.
      + intros off Hoff. rewrite (Gb off Hoff).
        apply warp_thread_beyond; auto. }
  destruct (Hfold schedule dst Hs Hlen) as (Gl & Gc & Gb).
  split; [exact Gl|]. split; [|exact Gb].
  intros dx dy k Hdx Hdy Hk.
  assert (Hp : 0 <= dy * dst_width + dx < area) by (unfold area; nia).
  unfold out, warp_affine_bilinear_and_normalize_plane, warp_kernel. fold area.
  rewrite <- Z.add_assoc. rewrite (Gc _ k Hp Hk).
  rewrite bool_decide_eq_true_2 by (apply list_elem_of_In, Hall, Hp).
  replace ((dy * dst_width + dx) mod dst_width) with dx
    by (rewrite Z.add_comm, Z.mod_add by lia; symmetry; apply Z.mod_small; lia).
  replace ((dy * dst_width + dx) / dst_width) with dy
    by (rewrite Z.add_comm, Z.div_add by lia; rewrite Z.div_small by lia; lia).
  reflexivity.
Qed.

Local Open Scope Q_scope.

End WarpFacts.

Section WarpWitnesses.

Import Kernel WarpKernel.

Lemma warp_kernel_fills_the_planes_witness :
  let out := warp_affine_bilinear_and_normalize_plane [1; 0; 1] grey_2x2 6 2 2
               [7; 7; 7; 7; 7; 7; 7]%Q 2 1 identity_matrix 114 Norm_None in
  length out = 7%nat /\
  (forall dx dy k, 0 <= dx < 2 -> 0 <= dy < 1 -> 0 <= k <= 2 ->
     rd out (k * (2 * 1) + dy * 2 + dx) =
     channel (colour grey_2x2 6 2 2 114 identity_matrix Norm_None dx dy) k) /\
  (forall off, 3 * (2 * 1) <= off -> rd out off = rd [7; 7; 7; 7; 7; 7; 7]%Q off).
Proof.
  apply (warp_kernel_fills_the_planes [1; 0; 1] grey_2x2 6 2 2
           [7; 7; 7; 7; 7; 7; 7]%Q 2 1 identity_matrix 114 Norm_None); try lia.
  - simpl. lia.
  - repeat constructor; lia.
  - intros p Hp. assert (p = 0 \/ p = 1) as [-> | ->] by lia; simpl; auto.
Defined.

End WarpWitnesses.

(** ** More on the dispatcher *)

Section CommitFacts.

Import YoloInferImpl YoloInferMore.

Context (env : cuda_env).
Context (invertAffineTransform : list Q -> list Q).
Context (interference : MonopolyAllocator.t Tensor.t -> MonopolyAllocator.t Tensor.t).

(** A computation that returns after a bind has returned before it. *)
Lemma prog_bind_inv {A B} (m : prog A) (f : A -> prog B) (b : B) (tr : list event) :
  m ≫= f = (Returns b, tr) ->
  exists a tr1 tr2, m = (Returns a, tr1) /\ f a = (Returns b, tr2) /\ tr = tr1 ++ tr2.
Proof.
  destruct m as [[a| |e] tr1]; unfold mbind, prog_mbind, prog_bind;
    [|discriminate|discriminate].
  destruct (f a) as [r tr2] eqn:E. intros [= -> <-]. eauto 10.
Qed.

(** [preprocess] touches the pool and nothing else of the controller, and
    leaves the promise of the job alone; when it succeeds the job holds a
    slot. *)
Lemma preprocess_frame (s s' : state) (job job' : Job) (image : Mat) (ok : bool) tr :
  preprocess env invertAffineTransform interference s job image
    = (Returns (s', job', ok), tr) ->
  InferController.promises s' = InferController.promises s /\
  InferController.jobs_ s' = InferController.jobs_ s /\
  InferController.run_ s' = InferController.run_ s /\
  InferController.worker_ s' = InferController.worker_ s /\
  InferController.pro job' = InferController.pro job /\
  (ok = true -> InferController.mono_tensor job' <> None) /\
  (InferController.tensor_allocator_ s = None -> ok = false).
Proof.
  unfold preprocess. destruct (InferController.tensor_allocator_ s) as [allocator|].
  - intros H. apply prog_bind_inv in H as ([allocator' slot] & tr1 & tr2 & _ & H & ->).
    destruct slot as [item|].
    + repeat (apply prog_bind_inv in H as (? & ? & ? & _ & H & ->)).
      inversion H; subst. simpl. repeat split; auto; discriminate.
    + simpl in H. inversion H; subst. simpl. repeat split; auto; discriminate.
  - simpl. intros H. inversion H; subst. repeat split; auto; discriminate.
Qed.

(** X18: [commit] keeps the queue in the state [stop] relies on.  On a
    controller in which every queued job has a pending promise of its own,
    a [commit] that returns hands out a new promise and leaves the older
    ones as they are; either the preprocessing failed, and then the new
    promise holds the empty list and the queue is unchanged, or it
    succeeded, and then the job is the last of the queue, holds a slot of
    the pool, and its promise is pending.  Without a pool the first is the
    case.  Every queued job still has a pending promise of its own. *)
Theorem commit_queues_or_fulfils (image : Mat) (s s' : state) (fut : option nat)
    (tr : list event) :
  InferController.queue_pending s ->
  commit env invertAffineTransform interference image s = (Returns (s', fut), tr) ->
  let p := length (InferController.promises s) in
  fut = Some p /\
  length (InferController.promises s') = S p /\
  (forall q, (q < p)%nat ->
     InferController.promises s' !! q = InferController.promises s !! q) /\
  InferController.queue_pending s' /\
  ((InferController.jobs_ s' = InferController.jobs_ s /\
    InferController.promises s' !! p = Some (Some [])) \/
   (exists job, InferController.jobs_ s' = InferController.jobs_ s ++ [job] /\
      InferController.pro job = Some p /\ InferController.mono_tensor job <> None /\
      InferController.promises s' !! p = Some None)) /\
  (InferController.tensor_allocator_ s = None ->
   InferController.promises s' !! p = Some (Some [])).
Proof.
  intros [Hnd Hpend] H p. unfold commit, InferController.commit in H.
  unfold InferController.make_promise in H. fold p in H.
  apply prog_bind_inv in H as ([[s1 job1] ok] & tr1 & tr2 & Hpre & H & ->).
  apply preprocess_frame in Hpre as (Hp & Hj & _ & _ & Hpro & Hslot & Hnone).
  simpl in Hp, Hj, Hpro, Hnone.
  assert (Hold : forall job, In job (InferController.jobs_ s) ->
            exists q, InferController.pro job = Some q /\ (q < p)%nat /\
                      InferController.promises s !! q = Some None).
  { intros job Hin. destruct (Hpend job Hin) as (q & Hq & Hl). exists q.
    split; [exact Hq|]. split; [|exact Hl]. eapply lookup_lt_Some. exact Hl. }
  destruct ok; simpl in H.
  - injection H as <- <- <-.
    simpl. rewrite Hp, Hj, Hpro. rewrite length_app. simpl.
    split; [reflexivity|]. split; [fold p; lia|].
    split; [intros q Hq; apply lookup_app_l; exact Hq|].
    assert (Hnew : (InferController.promises s ++ [None]) !! p = Some (@None (list Box))).
    { rewrite lookup_app_r by (unfold p; lia).
      replace (p - length (InferController.promises s))%nat with 0%nat by (unfold p; lia).
      reflexivity. }
    unfold InferController.queue_pending. simpl. rewrite ?Hp, ?Hj.
    split; [|split].
    + split.
      * rewrite map_app. simpl. rewrite Hpro. apply NoDup_app. split; [exact Hnd|].
        split; [|apply NoDup_singleton].
        intros x Hx Hx'. apply list_elem_of_singleton in Hx'. subst x.
        apply list_elem_of_In, in_map_iff in Hx. destruct Hx as (job & Hq & Hin).
        destruct (Hold job Hin) as (q & Hq' & Hlt & _). rewrite Hq' in Hq.
        injection Hq as ->. lia.
      * intros job Hin. apply in_app_or in Hin. destruct Hin as [Hin|[<-|[]]].
        -- destruct (Hold job Hin) as (q & Hq & Hlt & Hl). exists q.
           split; [exact Hq|]. rewrite lookup_app_l by exact Hlt. exact Hl.
        -- exists p. split; [exact Hpro|exact Hnew].
    + right. exists job1. repeat split; auto.
    + intros Hn. specialize (Hnone Hn). discriminate.
  - rewrite Hpro in H. unfold InferController.set_value in H. rewrite Hp in H.
    assert (Hnew : (InferController.promises s ++ [None]) !! p = Some (@None (list Box))).
    { rewrite lookup_app_r by (unfold p; lia).
      replace (p - length (InferController.promises s))%nat with 0%nat by (unfold p; lia).
      reflexivity. }
    rewrite Hnew in H. rewrite prog_ret_bind in H. injection H as <- <- <-.
    simpl. rewrite Hj. rewrite length_insert, length_app. simpl.
    assert (Hset : <[p := Some []]> (InferController.promises s ++ [None]) !! p
                   = Some (Some (@nil Box))).
    { apply list_lookup_insert_eq. rewrite length_app. simpl. unfold p. lia. }
    split; [reflexivity|]. split; [fold p; lia|].
    split; [intros q Hq; rewrite list_lookup_insert_ne by lia; apply lookup_app_l; exact Hq|].
    unfold InferController.queue_pending. simpl. rewrite ?Hp, ?Hj.
    split; [|split].
    + split; [exact Hnd|].
      intros job Hin. destruct (Hold job Hin) as (q & Hq & Hlt & Hl). exists q.
      split; [exact Hq|]. rewrite list_lookup_insert_ne by lia.
      rewrite lookup_app_l by exact Hlt. exact Hl.
    + left. split; [reflexivity|exact Hset].
    + intros _. exact Hset.
Qed.




End CommitFacts.

Section WorkerFacts.

Import YoloInferImpl YoloInferMore.

(** The last loop of the worker, on a batch whose promises are pending. *)
Lemma worker_fulfil_spec (jobs : list Job) :
  forall (s : state) (ibatch : nat),
    NoDup (map InferController.pro jobs) ->
    (forall job, In job jobs ->
       exists p, InferController.pro job = Some p /\
                 InferController.promises s !! p = Some None) ->
    exists ps,
      worker_fulfil jobs ibatch s = (Returns (InferController.set_promises ps s), []) /\
      (forall k job p, jobs !! k = Some job -> InferController.pro job = Some p ->
         ps !! p = Some (Some (read_back
                      (nth (ibatch + k) (output_array_device (InferController.derived_ s)) [])
                      (InferController.output job)))) /\
      (forall q, ~ In (Some q) (map InferController.pro jobs) ->
         ps !! q = InferController.promises s !! q).
Proof.
  induction jobs as [|job rest IH]; intros s ibatch Hnd Hp.
  - exists (InferController.promises s). split; [destruct s; reflexivity|].
    split; [intros k job p Hk; rewrite lookup_nil in Hk; discriminate|reflexivity].
  - simpl in Hnd. apply NoDup_cons in Hnd. destruct Hnd as [Hnotin Hnd].
    destruct (Hp job (or_introl eq_refl)) as (p & Hpro & Hpend).
    assert (Hlt : (p < length (InferController.promises s))%nat)
      by (eapply lookup_lt_Some; exact Hpend).
    set (boxes := read_back
                    (nth ibatch (output_array_device (InferController.derived_ s)) [])
                    (InferController.output job)).
    set (s1 := InferController.set_promises
                 (<[p := Some boxes]> (InferController.promises s)) s).
    destruct (IH s1 (S ibatch) Hnd) as (ps & H1 & H2 & H3).
    { intros job' Hin. destruct (Hp job' (or_intror Hin)) as (p' & Hpro' & Hpend').
      exists p'. split; [exact Hpro'|]. simpl.
      rewrite list_lookup_insert_ne; [exact Hpend'|].
      intros ->. apply Hnotin. apply list_elem_of_In.
      rewrite Hpro, <- Hpro'. apply in_map. exact Hin. }
    exists ps. split; [|split].
    + simpl. rewrite Hpro. unfold InferController.set_value. rewrite Hpend.
      rewrite prog_ret_bind. fold boxes. fold s1. rewrite H1.
      destruct s; reflexivity.
    + intros k job' p' Hk Hpro'. destruct k as [|k].
      * simpl in Hk. injection Hk as <-. rewrite Hpro in Hpro'. injection Hpro' as <-.
        rewrite H3.
        -- simpl. rewrite Nat.add_0_r. apply list_lookup_insert_eq. exact Hlt.
        -- intros Hin. apply Hnotin. apply list_elem_of_In. rewrite Hpro. exact Hin.
      * simpl in Hk. rewrite (H2 k job' p' Hk Hpro'). simpl.
        replace (S (ibatch + k)) with (ibatch + S k)%nat by lia. reflexivity.
    + intros q Hq. rewrite H3.
      * simpl. apply list_lookup_insert_ne. intros ->. apply Hq. left. exact Hpro.
      * intros Hin. apply Hq. right. exact Hin.
Qed.

(** X21: every job of a batch gets the boxes of its own image.  When the
    jobs of the batch have pending promises, one each, the last loop of the
    worker returns without an event, the promise of the job at batch index
    [k] holds what is read back from row [k] of the output array, and no
    other promise has changed. *)
Theorem worker_fulfils_each_job_with_its_row (jobs : list Job) :
  forall (s : state) (ibatch : nat),
    NoDup (map InferController.pro jobs) ->
    (forall job, In job jobs ->
       exists p, InferController.pro job = Some p /\
                 InferController.promises s !! p = Some None) ->
    exists ps,
      worker_fulfil jobs ibatch s = (Returns (InferController.set_promises ps s), []) /\
      (forall k job p, jobs !! k = Some job -> InferController.pro job = Some p ->
         ps !! p = Some (Some (read_back
                      (nth (ibatch + k) (output_array_device (InferController.derived_ s)) [])
                      (InferController.output job)))) /\
      (forall q, ~ In (Some q) (map InferController.pro jobs) ->
         ps !! q = InferController.promises s !! q).
Proof. exact (worker_fulfil_spec jobs). Qed.

End WorkerFacts.

Section DispatcherWitnesses.

Import YoloInferImpl YoloInferMore.

Lemma ready_queue_pending : InferController.queue_pending ready.
Proof. split; [constructor|intros job []]. Qed.

Lemma commit_queues_or_fulfils_witness :
  snd committed_once = Some 0%nat /\
  InferController.queue_pending (fst committed_once) /\
  exists job, InferController.jobs_ (fst committed_once) = [job] /\
    InferController.mono_tensor job = Some 0%nat.
Proof.
  assert (Heq : commit one_device id nobody_releases image ready
                = (Returns (fst committed_once, snd committed_once),
                   trace (commit one_device id nobody_releases image ready)))
    by (vm_compute; reflexivity).
  destruct (commit_queues_or_fulfils one_device id nobody_releases image ready
              (fst committed_once) (snd committed_once)
              (trace (commit one_device id nobody_releases image ready))
              ready_queue_pending Heq) as (Hf & _ & _ & Hq & _ & _).
  split; [exact Hf|]. split; [exact Hq|].
  eexists. split; vm_compute; reflexivity.
Defined.


Lemma worker_fulfils_each_job_with_its_row_witness :
  exists ps,
    worker_fulfil [job_with 0 0; job_with 1 1] 0 busy
      = (Returns (InferController.set_promises ps busy), []) /\
    ps !! 1%nat = Some (Some (read_back Kernel.two_boxes_tie [])).
Proof.
  destruct (worker_fulfils_each_job_with_its_row [job_with 0 0; job_with 1 1] busy 0)
    as (ps & H1 & H2 & _).
  - apply (bool_decide_unpack _). vm_compute. exact I.
  - intros job [<-|[<-|[]]]; eexists; split; reflexivity.
  - exists ps. split; [exact H1|]. exact (H2 1%nat (job_with 1 1) 1%nat eq_refl eq_refl).
Defined.

End DispatcherWitnesses.

(** ** InferImpl *)

Section InferFacts.

Import InferImpl.

Lemma bind_returns_inv {A B} (m : prog A) (f : A -> prog B) (b : B) :
  result (m ≫= f) = Returns b ->
  exists a tr, m = (Returns a, tr) /\ result (f a) = Returns b.
Proof.
  destruct m as [[a| |e] tr]; unfold mbind, prog_mbind, prog_bind, result; simpl;
    [|discriminate|discriminate].
  destruct (f a) as [r tr2] eqn:E. simpl. intros ->.
  exists a, tr. rewrite E. split; reflexivity.
Qed.

(** A tensor that has no shape yet takes the dimensions it is resized to,
    if the resize returns at all: a dimension of [-1] aborts it. *)
Lemma setup_dims_of_new (x : Tensor.t) ndims dims : forall i dims',
  ndims <> length (Tensor.shape_ x) ->
  result (Tensor.setup_dims x ndims i dims) = Returns dims' -> dims' = dims.
Proof.
  induction dims as [|d dims IH]; intros i dims' Hn H.
  - simpl in H. injection H as <-. reflexivity.
  - simpl in H. destruct (d =? -1) eqn:Hd.
    + unfold Assert in H. rewrite bool_decide_eq_false_2 in H by exact Hn.
      simpl in H. discriminate.
    + rewrite prog_ret_bind in H.
      apply bind_returns_inv in H as (rest & tr & Hrest & H).
      simpl in H. injection H as <-. f_equal.
      apply (IH (S i)); [exact Hn|]. rewrite Hrest. reflexivity.
Qed.

Lemma adajust_keeps (x : Tensor.t) :
  Tensor.shape_ (Tensor.adajust_memory_by_update_dims_or_type x) = Tensor.shape_ x /\
  Tensor.workspace_ (Tensor.adajust_memory_by_update_dims_or_type x) = Tensor.workspace_ x /\
  Tensor.stream_ (Tensor.adajust_memory_by_update_dims_or_type x) = Tensor.stream_ x.
Proof.
  unfold Tensor.adajust_memory_by_update_dims_or_type.
  destruct (Tensor.bytes_ x <? _); repeat split.
Qed.

Lemma create_shape env dims device_id (x : Tensor.t) :
  result (TensorMore.create env dims None device_id) = Returns x ->
  Tensor.shape_ x = dims /\ Tensor.workspace_ x = None.
Proof.
  unfold TensorMore.create. intros H.
  apply bind_returns_inv in H as (d & tr & _ & H).
  apply bind_returns_inv in H as (y & tr' & Hy & H).
  assert (Hshape : Tensor.shape_ y = [] /\ Tensor.workspace_ y = None).
  { match type of Hy with TensorMore.setup_data env None ?y0 = _ =>
      destruct (setup_data_none env y0) as (d' & tr2 & Heq) end.
    rewrite Heq in Hy. injection Hy as <- _. split; reflexivity. }
  destruct Hshape as [Hs Hw].
  unfold Tensor.resize in H.
  apply bind_returns_inv in H as (dims' & tr2 & Hd & H).
  simpl in H. injection H as <-.
  destruct (adajust_keeps (Tensor.mk dims' (Tensor.compute_strides dims') (Tensor.bytes_ y)
              (Tensor.head_ y) (Tensor.stream_ y) (Tensor.device_id_ y) (Tensor.data_ y)
              (Tensor.workspace_ y))) as (-> & -> & _).
  simpl. split; [|exact Hw].
  destruct dims as [|d0 dims0].
  - simpl in Hd. injection Hd as <- _. reflexivity.
  - apply (setup_dims_of_new y (length (d0 :: dims0)) (d0 :: dims0) 0%nat).
    + rewrite Hs. simpl. lia.
    + rewrite Hd. reflexivity.
Qed.

(** One turn of the loop keeps the bindings mapped and adds its own. *)
Lemma add_binding_mapped env (context : EngineContext) (s s' : t) (done : list Binding)
    (b : Binding) :
  mapped context s done -> name b ∉ map name done ->
  result (add_binding env context s (Z.of_nat (length done)) b) = Returns s' ->
  mapped context s' (done ++ [b]) /\
  workspace_ s' = workspace_ s /\ context_ s' = context_ s /\ device_ s' = device_ s.
Proof.
  intros (Hlen & Hsum & Hli & Hlo & (Hni & Hno & Hci & Hco & Hpos) & Hdom & Hall) Hfresh H.
  unfold add_binding in H.
  apply bind_returns_inv in H as (x & tr & Hx & H).
  assert (Hcr : result (TensorMore.create env (<[0%nat := max_batchsize context]> (dims b))
                          None CURRENT_DEVICE_ID) = Returns x) by (rewrite Hx; reflexivity).
  apply create_shape in Hcr as [Hshape _].
  simpl in H. injection H as <-.
  assert (Hold : forall n, is_Some (blobsNameMapper_ s !! n) -> n <> name b).
  { intros n Hn ->. apply Hfresh, Hdom, Hn. }
  split; [|auto].
  unfold mapped, consistent. simpl.
  rewrite !length_app, Hlen. simpl.
  split; [reflexivity|].
  split; [destruct (is_input b); rewrite ?length_app; simpl; lia|].
  split; [destruct (is_input b); rewrite ?length_app; simpl; lia|].
  split; [destruct (is_input b); rewrite ?length_app; simpl; lia|].
  split; [|split].
  - split; [destruct (is_input b); rewrite ?length_app; simpl; lia|].
    split; [destruct (is_input b); rewrite ?length_app; simpl; lia|].
    split; [|split].
    + intros k p Hk. destruct (is_input b) eqn:Hin.
      * apply lookup_app_Some in Hk. destruct Hk as [Hk|[Hge Hk]].
        -- destruct (Hci k p Hk) as (i & n & H1 & H2 & H3 & H4). exists i, n.
           repeat split; try (apply lookup_app_l_Some; assumption).
           rewrite lookup_insert_ne; [exact H4|].
           intros E. apply (Hold n); [rewrite H4; eauto|]. symmetry. exact E.
        -- apply list_lookup_singleton_Some in Hk. destruct Hk as [Hk <-].
           assert (k = length (inputs_ s)) as -> by lia.
           exists (length done), (name b).
           split; [apply list_lookup_middle; lia|].
           split; [apply list_lookup_middle; lia|].
           split; [apply list_lookup_middle; lia|apply lookup_insert_eq].
      * destruct (Hci k p Hk) as (i & n & H1 & H2 & H3 & H4). exists i, n.
        repeat split; try assumption; try (apply lookup_app_l_Some; assumption).
        rewrite lookup_insert_ne; [exact H4|].
        intros E. apply (Hold n); [rewrite H4; eauto|]. symmetry. exact E.
    + intros k p Hk. destruct (is_input b) eqn:Hin.
      * destruct (Hco k p Hk) as (i & n & H1 & H2 & H3 & H4). exists i, n.
        repeat split; try assumption; try (apply lookup_app_l_Some; assumption).
        rewrite lookup_insert_ne; [exact H4|].
        intros E. apply (Hold n); [rewrite H4; eauto|]. symmetry. exact E.
      * apply lookup_app_Some in Hk. destruct Hk as [Hk|[Hge Hk]].
        -- destruct (Hco k p Hk) as (i & n & H1 & H2 & H3 & H4). exists i, n.
           repeat split; try (apply lookup_app_l_Some; assumption).
           rewrite lookup_insert_ne; [exact H4|].
           intros E. apply (Hold n); [rewrite H4; eauto|]. symmetry. exact E.
        -- apply list_lookup_singleton_Some in Hk. destruct Hk as [Hk <-].
           assert (k = length (outputs_ s)) as -> by lia.
           exists (length done), (name b).
           split; [apply list_lookup_middle; lia|].
           split; [apply list_lookup_middle; lia|].
           split; [apply list_lookup_middle; lia|apply lookup_insert_eq].
    + assert (Hbelow : forall z, z ∈ inputs_map_to_ordered_index_ s ++
                                     outputs_map_to_ordered_index_ s ->
                z <> Z.of_nat (length done)).
      { intros z Hz. apply elem_of_app in Hz.
        destruct Hz as [Hz|Hz]; apply list_elem_of_lookup_1 in Hz; destruct Hz as [k Hk].
        - assert (Hk' : (k < length (inputs_ s))%nat)
            by (rewrite <- Hli; eapply lookup_lt_Some; exact Hk).
          apply lookup_lt_is_Some in Hk'. destruct Hk' as [p Hp].
          destruct (Hci k p Hp) as (i & n & H1 & H2 & _). rewrite H1 in Hk.
          injection Hk as <-. apply lookup_lt_Some in H2. lia.
        - assert (Hk' : (k < length (outputs_ s))%nat)
            by (rewrite <- Hlo; eapply lookup_lt_Some; exact Hk).
          apply lookup_lt_is_Some in Hk'. destruct Hk' as [p Hp].
          destruct (Hco k p Hp) as (i & n & H1 & H2 & _). rewrite H1 in Hk.
          injection Hk as <-. apply lookup_lt_Some in H2. lia. }
      destruct (is_input b).
      * rewrite <- app_assoc. apply NoDup_app in Hpos. destruct Hpos as (P1 & P2 & P3).
        apply NoDup_app. split; [exact P1|]. split.
        -- intros z Hz Hz'. apply elem_of_cons in Hz'. destruct Hz' as [->|Hz'].
           ++ apply (Hbelow (Z.of_nat (length done))); [apply elem_of_app; left; exact Hz|].
              reflexivity.
           ++ exact (P2 z Hz Hz').
        -- apply NoDup_cons. split; [|exact P3].
           intros Hz. apply (Hbelow (Z.of_nat (length done))); [|reflexivity].
           apply elem_of_app. right. exact Hz.
      * rewrite app_assoc. apply NoDup_app. split; [exact Hpos|]. split.
        -- intros z Hz Hz'. apply list_elem_of_singleton in Hz'. subst z.
           apply (Hbelow _ Hz). reflexivity.
        -- apply NoDup_singleton.
  - intros n Hn. rewrite map_app. apply elem_of_app.
    destruct (decide (n = name b)) as [->|Hne].
    + right. simpl. apply list_elem_of_singleton. reflexivity.
    + left. apply Hdom. rewrite lookup_insert_ne in Hn by congruence. exact Hn.
  - intros i b' Hi. apply lookup_app_Some in Hi. destruct Hi as [Hi|[Hge Hi]].
    + destruct (Hall i b' Hi) as (Hm & p & y & H1 & H2 & H3 & H4 & H5 & H6).
      split.
      * rewrite lookup_insert_ne; [exact Hm|].
        intros E. apply Hfresh. rewrite E. apply list_elem_of_In, in_map, list_elem_of_In.
        eapply list_elem_of_lookup_2. exact Hi.
      * exists p, y. repeat split; try assumption; try (apply lookup_app_l_Some; assumption).
        destruct (is_input b'), (is_input b); destruct H6 as [H6 H7];
          split; try assumption; apply elem_of_app; left; assumption.
    + apply list_lookup_singleton_Some in Hi. destruct Hi as [Hi <-].
      assert (i = length done) as -> by lia.
      split; [apply lookup_insert_eq|].
      exists (length (tensors s)),
        (Tensor.set_workspace (workspace_ s) (Tensor.set_stream (stream_ context) x)).
      rewrite <- Hlen at 1. rewrite !lookup_app_r, !Nat.sub_diag by lia.
      repeat split; try exact Hshape.
      destruct (is_input b); split; apply elem_of_app; right;
        apply list_elem_of_singleton; reflexivity.
Qed.

Lemma add_bindings_mapped env (context : EngineContext) (bs : list Binding) :
  forall (s s' : t) (done : list Binding),
    mapped context s done -> NoDup (map name (done ++ bs)) ->
    result (add_bindings env context s (Z.of_nat (length done)) bs) = Returns s' ->
    mapped context s' (done ++ bs) /\
    workspace_ s' = workspace_ s /\ context_ s' = context_ s /\ device_ s' = device_ s.
Proof.
  induction bs as [|b bs IH]; intros s s' done Hm Hnd H.
  - simpl in H. injection H as <-. rewrite app_nil_r. auto.
  - simpl in H. apply bind_returns_inv in H as (s1 & tr & H1 & H).
    assert (Hfresh : name b ∉ map name done).
    { rewrite map_app in Hnd. apply NoDup_app in Hnd. destruct Hnd as (_ & Hd & _).
      intros Hin. apply (Hd (name b) Hin). simpl. apply elem_of_cons. left. reflexivity. }
    destruct (add_binding_mapped env context s s1 done b Hm Hfresh) as (Hm1 & Hw & Hc & Hd).
    { rewrite H1. reflexivity. }
    replace (Z.of_nat (length done) + 1) with (Z.of_nat (length (done ++ [b]))) in H
      by (rewrite length_app; simpl; lia).
    destruct (IH s1 s' (done ++ [b]) Hm1) as (Hm' & Hw' & Hc' & Hd').
    { rewrite <- app_assoc. exact Hnd. }
    { exact H. }
    rewrite <- app_assoc in Hm'. split; [exact Hm'|]. split; [congruence|].
    split; congruence.
Qed.

(** X23: loading an engine maps every binding to a tensor of its own.
    When the names of the bindings are different from each other and the
    load returns, the engine has as many blobs as bindings, each an input
    or an output; [tensor(name)] of the name of a binding returns, without
    asserting, the tensor made for that binding, whose shape is the
    dimensions of the binding with the maximal batch size in front and
    whose stream is that of the engine; and the numbered views [input(k)]
    and [output(k)] agree with the view by name. *)
Theorem load_maps_every_binding (env : cuda_env) (context : EngineContext) (s s' : t) :
  inputs_map_to_ordered_index_ s = [] -> outputs_map_to_ordered_index_ s = [] ->
  NoDup (map name (bindings context)) ->
  result (load_from_memory env context s) = Returns s' ->
  consistent s' /\
  num_input s' + num_output s' = Z.of_nat (length (bindings context)) /\
  length (bindingsPtr_ s') = length (bindings context) /\
  forall i b, bindings context !! i = Some b ->
    exists p x, tensor (name b) s' = (Returns p, []) /\ tensors s' !! p = Some x /\
      Tensor.shape_ x = <[0%nat := max_batchsize context]> (dims b) /\
      Tensor.stream_ x = stream_ context /\
      if is_input b then p ∈ inputs_ s' /\ is_input_name (name b) s' = true
      else p ∈ outputs_ s' /\ is_output_name (name b) s' = true.
Proof.
  intros Hi Ho Hnd H. unfold load_from_memory in H.
  apply bind_returns_inv in H as (w & tr & _ & H).
  unfold build_engine_input_and_outputs_mapper in H. simpl in H.
  apply bind_returns_inv in H as (s1 & tr1 & H1 & H).
  simpl in H. injection H as <-.
  rewrite Hi, Ho in H1.
  destruct (add_bindings_mapped env context (bindings context)
              (mk (tensors s) [] [] [] [] [] [] [] ∅ (Some context) [] (Some w)
                  (current_device env)) s1 [])
    as ((Hlen & Hsum & _ & _ & Hc & _ & Hall) & _).
  { unfold mapped, consistent. simpl. repeat split; auto; try apply NoDup_nil_2.
    - intros k p Hk. rewrite lookup_nil in Hk. discriminate.
    - intros k p Hk. rewrite lookup_nil in Hk. discriminate.
    - intros n [x Hx]. rewrite lookup_empty in Hx. discriminate.
    - rewrite lookup_nil in H. discriminate.
    - rewrite lookup_nil in H. discriminate. }
  { exact Hnd. }
  { simpl. change (Z.of_nat 0) with 0. rewrite H1. reflexivity. }
  simpl in Hlen, Hsum, Hall.
  split; [exact Hc|]. unfold num_input, num_output. simpl.
  split; [lia|]. split; [rewrite length_replicate; exact Hlen|].
  intros i b Hb. destruct (Hall i b Hb) as (Hm & p & x & Hp & Hx & Hsh & Hst & _ & Hio).
  exists p, x. split; [|split; [exact Hx|split; [exact Hsh|split; [exact Hst|]]]].
  - unfold tensor, Assert. simpl. rewrite Hm. simpl.
    rewrite ?bool_decide_eq_true_2 by eauto. rewrite ?prog_ret_bind.
    unfold at_. assert ((Z.of_nat i <? 0) = false) as -> by (apply Z.ltb_ge; lia).
    rewrite Nat2Z.id, Hp. reflexivity.
  - unfold is_input_name, is_output_name. simpl.
    destruct (is_input b); destruct Hio as [Hp' Hn]; (split; [exact Hp'|]);
      apply bool_decide_eq_true_2; exact Hn.
Qed.

(** X24: [set_input] replaces a tensor in both views.  On an engine
    whose views agree, for an index within the inputs, it returns without
    asserting; afterwards [input(index)] is the new tensor and so is
    [tensor] of the name of that input, the other inputs and all outputs
    are what they were, and the views still agree. *)
Theorem set_input_updates_both_views (index : Z) (pointer : nat) (s : t) :
  consistent s -> 0 <= index < Z.of_nat (length (inputs_ s)) ->
  exists s',
    set_input index pointer s = (Returns s', []) /\
    consistent s' /\
    input index s' = (Returns pointer, []) /\
    (exists n, get_input_name index s' = (Returns n, []) /\
               tensor n s' = (Returns pointer, [])) /\
    (forall k, k <> Z.to_nat index -> inputs_ s' !! k = inputs_ s !! k) /\
    outputs_ s' = outputs_ s.
Proof.
  intros (Hni & Hno & Hci & Hco & Hpos) Hidx.
  set (k0 := Z.to_nat index).
  assert (Hk0 : (k0 < length (inputs_ s))%nat) by (unfold k0; lia).
  destruct (lookup_lt_is_Some_2 _ _ Hk0) as [p0 Hp0].
  destruct (Hci k0 p0 Hp0) as (i0 & n0 & Hm0 & Hb0 & Hn0 & Hmap0).
  assert (Hi0 : (i0 < length (orderdBlobs_ s))%nat) by (eapply lookup_lt_Some; exact Hb0).
  assert (Hrange : ((0 <=? index) && (index <? Z.of_nat (length (inputs_ s)))) = true).
  { apply andb_true_intro. split; [apply Z.leb_le|apply Z.ltb_lt]; lia. }
  assert (Hneg : (index <? 0) = false) by (apply Z.ltb_ge; lia).
  set (s' := mk (tensors s) (<[k0 := pointer]> (inputs_ s)) (outputs_ s)
                (inputs_map_to_ordered_index_ s) (outputs_map_to_ordered_index_ s)
                (inputs_name_ s) (outputs_name_ s) (<[i0 := pointer]> (orderdBlobs_ s))
                (blobsNameMapper_ s) (context_ s) (bindingsPtr_ s) (workspace_ s)
                (device_ s)).
  exists s'.
  assert (Hpos' : NoDup (inputs_map_to_ordered_index_ s) /\
                  forall z, z ∈ inputs_map_to_ordered_index_ s ->
                            z ∉ outputs_map_to_ordered_index_ s).
  { apply NoDup_app in Hpos. destruct Hpos as (P1 & P2 & _). split; assumption. }
  destruct Hpos' as [Pin Pdisj].
  split; [|split; [|split; [|split; [|split]]]].
  - unfold set_input, Assert, put, at_. rewrite Hrange, prog_ret_bind.
    assert (((index <? 0) || (Z.of_nat (length (inputs_ s)) <=? index)) = false) as ->.
    { rewrite Hneg. simpl. apply Z.leb_gt. lia. }
    rewrite prog_ret_bind, Hneg. fold k0. rewrite Hm0, prog_ret_bind.
    assert (((Z.of_nat i0 <? 0) || (Z.of_nat (length (orderdBlobs_ s)) <=? Z.of_nat i0))
            = false) as ->.
    { apply orb_false_intro; [apply Z.ltb_ge|apply Z.leb_gt]; lia. }
    rewrite prog_ret_bind, Nat2Z.id. reflexivity.
  - unfold consistent. simpl. rewrite !length_insert.
    split; [exact Hni|]. split; [exact Hno|]. split; [|split; [|exact Hpos]].
    + intros k p Hk. destruct (decide (k = k0)) as [->|Hne].
      * rewrite list_lookup_insert_eq in Hk by exact Hk0. injection Hk as <-.
        exists i0, n0. split; [exact Hm0|]. split; [|auto].
        apply list_lookup_insert_eq. exact Hi0.
      * rewrite list_lookup_insert_ne in Hk by congruence.
        destruct (Hci k p Hk) as (i & n & H1 & H2 & H3 & H4). exists i, n.
        split; [exact H1|]. split; [|auto].
        rewrite list_lookup_insert_ne; [exact H2|].
        intros ->. apply Hne.
        eapply NoDup_lookup; [exact Pin|exact H1|exact Hm0].
    + intros k p Hk. destruct (Hco k p Hk) as (i & n & H1 & H2 & H3 & H4). exists i, n.
      split; [exact H1|]. split; [|auto].
      rewrite list_lookup_insert_ne; [exact H2|].
      intros ->. apply (Pdisj (Z.of_nat i)).
      * eapply list_elem_of_lookup_2. exact Hm0.
      * eapply list_elem_of_lookup_2. exact H1.
  - unfold input, Assert, at_. simpl. rewrite Hni, Hrange, prog_ret_bind, Hneg. fold k0.
    rewrite list_lookup_insert_eq by exact Hk0. reflexivity.
  - exists n0. split.
    + unfold get_input_name, Assert, at_. simpl.
      rewrite Hni, Hrange, prog_ret_bind, Hneg. fold k0. rewrite Hn0. reflexivity.
    + unfold tensor, Assert, at_. simpl. rewrite Hmap0. simpl.
      rewrite ?bool_decide_eq_true_2 by eauto. rewrite ?prog_ret_bind.
      assert ((Z.of_nat i0 <? 0) = false) as -> by (apply Z.ltb_ge; lia).
      rewrite Nat2Z.id, list_lookup_insert_eq by exact Hi0. reflexivity.
  - intros k Hk. simpl. apply list_lookup_insert_ne. fold k0 in Hk. congruence.
  - reflexivity.
Qed.

End InferFacts.

Section InferWitnesses.

Import InferImpl.

Lemma load_maps_every_binding_witness :
  exists p x,
    tensor "output" (YoloInferMore.returned (load_from_memory one_device yolo_context empty) empty)
      = (Returns p, []) /\
    tensors (YoloInferMore.returned (load_from_memory one_device yolo_context empty) empty) !! p
      = Some x /\
    Tensor.shape_ x = [4; 1; 7].
Proof.
  destruct (load_maps_every_binding one_device yolo_context empty
              (YoloInferMore.returned (load_from_memory one_device yolo_context empty) empty)
              eq_refl eq_refl) as (_ & _ & _ & H).
  - apply (bool_decide_unpack _). vm_compute. exact I.
  - vm_compute. reflexivity.
  - destruct (H 1%nat (mkBinding "output" [1; 1; 7] false) eq_refl)
      as (p & x & H1 & H2 & H3 & _).
    exists p, x. split; [exact H1|]. split; [exact H2|exact H3].
Defined.

Lemma set_input_updates_both_views_witness :
  exists s',
    set_input 0 7 (YoloInferMore.returned (load_from_memory one_device yolo_context empty) empty)
      = (Returns s', []) /\
    input 0 s' = (Returns 7%nat, []) /\
    tensor "images" s' = (Returns 7%nat, []).
Proof.
  destruct (load_maps_every_binding one_device yolo_context empty
              (YoloInferMore.returned (load_from_memory one_device yolo_context empty) empty)
              eq_refl eq_refl) as (Hc & _).
  - apply (bool_decide_unpack _). vm_compute. exact I.
  - vm_compute. reflexivity.
  - destruct (set_input_updates_both_views 0 7
                (YoloInferMore.returned (load_from_memory one_device yolo_context empty) empty) Hc)
      as (s' & H1 & _ & H3 & (n & H4 & H5) & _).
    + vm_compute. split; [discriminate|reflexivity].
    + exists s'. split; [exact H1|]. split; [exact H3|].
      assert (Hn : get_input_name 0 s' = (Returns "images"%string, [])).
      { revert H1. vm_compute. intros [= <-]. reflexivity. }
      rewrite Hn in H4. injection H4 as <-. exact H5.
Defined.

End InferWitnesses.

(** ** Tensor files *)

Section FileFacts.

Import Tensor TensorMore TensorFile MixMemoryOps.

Lemma byte_value_of (z : Z) : byte_value (byte_of z) = z mod 256.
Proof.
  unfold byte_value, byte_of.
  pose proof (Z.mod_pos_bound z 256 ltac:(lia)) as Hm.
  destruct (Byte.of_N (Z.to_N (z mod 256))) as [b|] eqn:E.
  - simpl. apply Byte.to_of_N in E. rewrite E. lia.
  - apply Byte.of_N_None_iff in E. lia.
Qed.

Lemma uint32s_le32 (n : nat) (z : Z) (rest : list Byte.byte) :
  0 <= z < 2 ^ 32 ->
  uint32s (S n) (le32 z ++ rest) = cons z <$> uint32s n rest.
Proof.
  intros Hz. simpl. rewrite !byte_value_of. do 2 f_equal.
  change (2 ^ 8) with 256. change (2 ^ 16) with 65536. change (2 ^ 24) with 16777216.
  change (2 ^ 32) with 4294967296 in Hz.
  Z.div_mod_to_equations. lia.
Qed.

Lemma uint32s_dims (shape : list Z) (rest : list Byte.byte) :
  Forall (fun d => 0 <= d < 2 ^ 32) shape ->
  uint32s (length shape) (concat (map le32 shape) ++ rest) = Some shape.
Proof.
  induction 1 as [|d shape Hd _ IH]; [reflexivity|].
  change (concat (map le32 (d :: shape))) with (le32 d ++ concat (map le32 shape)).
  rewrite <- app_assoc. change (length (d :: shape)) with (S (length shape)).
  rewrite uint32s_le32 by exact Hd. rewrite IH. reflexivity.
Qed.

Lemma length_dims (shape : list Z) :
  length (concat (map le32 shape)) = (4 * length shape)%nat.
Proof. induction shape as [|d shape IH]; simpl in *; lia. Qed.

(** [to_cpu] brings the data of the tensor to the host. *)
Lemma to_cpu_data (x : t) (b : list Byte.byte) :
  covered x -> head_buffer x = Some b -> 0 < bytes_ x ->
  exists x' tr c,
    to_cpu true x = (Returns x', tr) /\
    MixMemory.cpu_ (data_ x') = Some c /\
    take (Z.to_nat (bytes_ x)) c = take (Z.to_nat (bytes_ x)) b /\
    (Z.to_nat (bytes_ x) <= length c)%nat /\
    shape_ x' = shape_ x /\ bytes_ x' = bytes_ x /\ head_ x' = Host.
Proof.
  intros (Hs & Hb & Hh) Hbuf Hpos. unfold to_cpu, head_buffer in *.
  destruct (head_ x) eqn:Hhead; [discriminate| |].
  - destruct (decide (Device = Host)) as [E|_]; [discriminate|].
    destruct (cpu_sized (bytes_ x) (data_ x) Hs) as (m & tr & Hc & [Hmc Hmg] & Hle & Hgpu);
      [lia|].
    simpl bytes_. simpl data_. rewrite Hc, prog_bind_returns.
    rewrite Hgpu, Hbuf. simpl andb. cbv iota.
    destruct (MixMemory.cpu_ m) as [c0|] eqn:Hc0; [|lia].
    destruct Hs as [_ Hgs]. rewrite Hbuf in Hgs.
    set (n := Z.to_nat (bytes_ x)).
    assert (Hup : list_inserts 0 (take n b) c0 = take n b ++ drop n c0).
    { rewrite list_inserts_inside; rewrite length_take; [|lia].
      simpl. do 2 f_equal. lia. }
    do 3 eexists. split; [prog_unfold; reflexivity|]. simpl.
    change (Z.to_nat 0) with 0%nat. fold n. rewrite Hup.
    split; [reflexivity|]. split.
    + rewrite take_app_le by (rewrite length_take; lia).
      rewrite take_take, Nat.min_id. reflexivity.
    + split; [rewrite length_app, length_take, length_drop; lia|auto].
  - destruct (decide (Host = Host)) as [_|E]; [|congruence].
    destruct Hs as [Hcs _]. rewrite Hbuf in Hcs.
    exists x, [], b. rewrite Hbuf. repeat split; auto. lia.
Qed.

(** What the loader makes of a header, the dimensions and the elements put
    one after the other. *)
Lemma load_tensor_layout (shape : list Z) (data : list Byte.byte) :
  Z.of_nat (length shape) < 2 ^ 32 ->
  Forall (fun d => 0 <= d < 2 ^ 32) shape ->
  Z.of_nat (length data) = 4 * product shape ->
  load_tensor (le32 4241482466 ++ le32 (Z.of_nat (length shape)) ++ le32 0 ++
               concat (map le32 shape) ++ data) = Some (shape, data).
Proof.
  intros Hnd Hdims Hlen.
  set (rest := concat (map le32 shape) ++ data).
  set (file := le32 4241482466 ++ le32 (Z.of_nat (length shape)) ++ le32 0 ++ rest).
  assert (H3 : uint32s 3 file = Some [4241482466; Z.of_nat (length shape); 0]).
  { unfold file. rewrite uint32s_le32 by lia. rewrite uint32s_le32 by lia.
    rewrite uint32s_le32 by lia. reflexivity. }
  assert (H12 : drop (3 * 4) file = rest) by reflexivity.
  assert (Hdrop : drop (Z.to_nat ((Z.of_nat (length shape) + 3) * 4)) file = data).
  { replace (Z.to_nat ((Z.of_nat (length shape) + 3) * 4))
      with (12 + 4 * length shape)%nat by lia.
    rewrite <- drop_drop. change (drop 12 file) with rest. unfold rest.
    rewrite drop_app_length'; [reflexivity|]. symmetry. apply length_dims. }
  clearbody file. unfold load_tensor. rewrite H3, H12.
  change (negb (4241482466 =? 4241482466)) with false. cbv iota.
  rewrite Nat2Z.id. unfold rest. rewrite uint32s_dims by exact Hdims.
  change (0 =? 0) with true. cbv iota. rewrite Hdrop, Hlen.
  replace (4 * product shape) with (product shape * 4) by lia.
  rewrite Z.mod_mul, Z.div_mul, !Z.eqb_refl by lia. reflexivity.
Qed.

(** X25: a tensor that is saved can be loaded again.  For a tensor with
    data on either side, a shape of positive dimensions (fewer than 2^31 of
    them) and four bytes per element, whose file can be opened,
    [save_to_file] returns with a file of twelve bytes of header, four
    bytes per dimension and the bytes of the tensor; the loader given with
    the class reads it back as the shape and the bytes of the tensor.  When
    the file cannot be opened nothing is written and the tensor is left
    alone. *)
Theorem save_then_load_round_trip (x : t) (b : list Byte.byte) :
  covered x -> head_buffer x = Some b ->
  Z.of_nat (length (shape_ x)) < 2 ^ 31 -> Forall (fun d => 0 < d) (shape_ x) ->
  4 * product (shape_ x) < 2 ^ 31 -> bytes_ x = 4 * product (shape_ x) ->
  (exists x' tr content,
     save_to_file true x = (Returns (x', Some content), tr) /\
     Z.of_nat (length content) = 12 + 4 * Z.of_nat (length (shape_ x)) + bytes_ x /\
     load_tensor content = Some (shape_ x, take (Z.to_nat (bytes_ x)) b)) /\
  save_to_file false x = (Returns (x, None), []).
Proof.
  intros Hc Hbuf Hnd Hpos Hlt Hbytes.
  pose proof (product_pos _ Hpos) as Hp.
  assert (Hnonempty : empty x = false).
  { unfold empty. unfold head_buffer in Hbuf.
    destruct (head_ x); [discriminate| |]; rewrite Hbuf; simpl;
      [apply andb_false_r|reflexivity]. }
  split; [|unfold save_to_file; rewrite Hnonempty; reflexivity].
  destruct (to_cpu_data x b Hc Hbuf ltac:(lia)) as (x' & tr & c & Hto & Hcpu & Htake & Hlen & Hsh & Hby & _).
  unfold save_to_file. rewrite Hnonempty. simpl negb. cbv iota. cbv zeta.
  rewrite Hto, prog_bind_returns. rewrite Hcpu, Hby. simpl default.
  set (n := Z.to_nat (bytes_ x)) in *.
  set (ndims := length (shape_ x)).
  assert (Hint : int32 (Z.of_nat ndims) = Z.of_nat ndims)
    by (apply int32_small; unfold ndims; lia).
  assert (Hdims : Forall (fun d => 0 <= d < 2 ^ 32) (shape_ x)).
  { assert (Hle : forall l, Forall (fun d => 0 < d) l ->
                    Forall (fun d => 0 < d <= product l) l).
    { clear. induction 1 as [|d l Hd Hl IH]; constructor.
      - pose proof (product_pos l Hl). simpl. nia.
      - eapply Forall_impl; [exact IH|]. simpl. intros e He. nia. }
    eapply Forall_impl; [exact (Hle _ Hpos)|]. simpl. intros d Hd. lia. }
  set (data := take n c).
  assert (Hdata : length data = n) by (unfold data; rewrite length_take; lia).
  do 3 eexists. split; [reflexivity|]. fold ndims. rewrite Hint. split.
  - rewrite !length_app, length_dims. fold ndims. fold data. rewrite Hdata.
    simpl length. unfold n. lia.
  - fold data. rewrite <- !app_assoc. unfold ndims.
    rewrite load_tensor_layout; [|lia|exact Hdims|rewrite Hdata; unfold n; lia].
    unfold data. rewrite Htake. reflexivity.
Qed.

End FileFacts.
Section FileWitnesses.

Import Tensor TensorMore TensorFile.

Lemma save_then_load_round_trip_witness :
  (exists x' tr content,
     save_to_file true on_device = (Returns (x', Some content), tr) /\
     Z.of_nat (length content) =
       12 + 4 * Z.of_nat (length (shape_ on_device)) + bytes_ on_device /\
     load_tensor content =
       Some (shape_ on_device, take (Z.to_nat (bytes_ on_device)) (MixMemory.zeros 16))) /\
  save_to_file false on_device = (Returns (on_device, None), []).
Proof.
  apply (save_then_load_round_trip on_device (MixMemory.zeros 16)); try reflexivity.
  - repeat split; simpl; lia.
  - repeat constructor.
Defined.

End FileWitnesses.

(** ** The pool after its destructor has begun *)

Section PoolShutdown.

Context {Item : Type}.

Import MonopolyAllocator MonopolyMore.

Abbreviation shared_pool := (MonopolyAllocator.t Item).

Lemma wakes_cons (a : action (Item := Item)) acts :
  wakes (a :: acts) = ((if is_wake a then 1 else 0) + wakes acts)%nat.
Proof.
  unfold wakes. destruct (is_wake a) eqn:E.
  - rewrite filter_cons_True by exact E. reflexivity.
  - rewrite filter_cons_False by congruence. reflexivity.
Qed.

(** What one action does to a pool that is no longer running. *)
Lemma exec_stopped a (s : shared_pool) :
  run_ s = false ->
  run_ (exec a s) = false /\
  num_wait_thread_ (exec a s) = num_wait_thread_ s - Z.of_nat (wakes [a]) /\
  forall i d, datas_ s !! i = Some d -> available_ d = true ->
    exists d', datas_ (exec a s) !! i = Some d' /\ available_ d' = true.
Proof.
  intros Hrun. rewrite wakes_cons. change (wakes []) with 0%nat.
  destruct a as [| |prq|prq item|]; simpl.
  - unfold query_enter. rewrite Hrun. simpl. repeat split; eauto; lia.
  - unfold query_wake, waiter_left. prog_unfold. simpl. rewrite Hrun. simpl.
    rewrite orb_true_r. simpl. repeat split; eauto.
  - unfold release_one. destruct (datas_ s !! prq) as [d0|] eqn:Hd.
    + destruct (available_ d0) eqn:Ha; simpl.
      * repeat split; eauto; lia.
      * repeat split; auto; try lia. intros i d Hi Hav.
        destruct (decide (i = prq)) as [->|Hne].
        -- rewrite list_lookup_insert_eq by (eapply lookup_lt_Some; eauto). eauto.
        -- rewrite list_lookup_insert_ne by auto. eauto.
    + simpl. repeat split; eauto; lia.
  - repeat split; auto; try lia. intros i d Hi Hav.
    rewrite list_lookup_alter. destruct (decide (prq = i)) as [->|Hne].
    + rewrite Hi. simpl. eauto.
    + rewrite Hi. destruct (decide (i = prq)); simpl; eauto.
  - repeat split; eauto; lia.
Qed.

Lemma run_stopped (acts : list action) : forall s : shared_pool,
  run_ s = false ->
  run_ (run acts s) = false /\
  num_wait_thread_ (run acts s) = num_wait_thread_ s - Z.of_nat (wakes acts) /\
  forall i d, datas_ s !! i = Some d -> available_ d = true ->
    exists d', datas_ (run acts s) !! i = Some d' /\ available_ d' = true.
Proof.
  induction acts as [|a acts IH]; intros s Hrun.
  - simpl. repeat split; eauto. unfold wakes. simpl. lia.
  - destruct (exec_stopped a s Hrun) as (H1 & H2 & H3).
    destruct (IH (exec a s) H1) as (H4 & H5 & H6).
    change (run (a :: acts) s) with (run acts (exec a s)).
    split; [exact H4|]. split.
    + rewrite H5, H2, !wakes_cons. change (wakes []) with 0%nat. lia.
    + intros i d Hi Hav. destruct (H3 i d Hi Hav) as (d' & Hi' & Hav'). eauto.
Qed.

(** X26: once the destructor of a pool has begun, the pool hands out
    nothing any more.  Whatever the threads that share it do afterwards
    (queries, wake-ups of blocked queries, releases, stores into slots),
    the pool stays stopped, a [query] returns the null pointer at once and
    changes nothing, no slot that was available is taken, and each wake-up
    lowers the number of waiting threads by one: when every query that was
    blocked has woken, the count the destructor waits for is zero. *)
Theorem destroyed_pool_hands_out_nothing (s : shared_pool) (acts : list action) :
  let s' := run acts (exec Shutdown s) in
  run_ s' = false /\
  (forall interference, query interference s' = (Returns (s', None), [])) /\
  (forall i d, datas_ s !! i = Some d -> available_ d = true ->
     exists d', datas_ s' !! i = Some d' /\ available_ d' = true) /\
  num_wait_thread_ s' = num_wait_thread_ s - Z.of_nat (wakes acts) /\
  (Z.of_nat (wakes acts) = num_wait_thread_ s -> num_wait_thread_ s' = 0).
Proof.
  intros s'. destruct (run_stopped acts (exec Shutdown s) eq_refl) as (H1 & H2 & H3).
  fold s' in H1, H2, H3. simpl in H2.
  split; [exact H1|]. split; [|split; [|split]].
  - intros interference. unfold query, query_enter. rewrite H1. reflexivity.
  - intros i d Hi Hav. apply (H3 i d Hi Hav).
  - exact H2.
  - intros Hw. lia.
Qed.

End PoolShutdown.

Section PoolShutdownWitnesses.

Import MonopolyAllocator MonopolyMore.

Lemma destroyed_pool_hands_out_nothing_witness :
  let s' := run [QueryEnter; QueryWake; Release 0%nat] (exec Shutdown one_waiting) in
  run_ s' = false /\
  (forall interference, query interference s' = (Returns (s', None), [])) /\
  num_wait_thread_ s' = 0.
Proof.
  destruct (destroyed_pool_hands_out_nothing one_waiting
              [QueryEnter; QueryWake; Release 0%nat]) as (H1 & H2 & _ & _ & H5).
  split; [exact H1|]. split; [exact H2|]. apply H5. reflexivity.
Defined.

End PoolShutdownWitnesses.

(** ** The file name of a log line *)

Section FileNameFacts.

Import Stdlib.Strings.Ascii FileName.

Lemma rfind_absent (l : list ascii) (ch : ascii) : ch ∉ l -> rfind l ch = npos.
Proof.
  induction l as [|a l IH]; intros Hn; [reflexivity|].
  apply not_elem_of_cons in Hn as [Ha Hl]. simpl. rewrite (IH Hl), Z.eqb_refl.
  destruct (decide (a = ch)); congruence.
Qed.

Lemma rfind_last (l1 l2 : list ascii) (ch : ascii) :
  ch ∉ l2 -> Z.of_nat (length (l1 ++ ch :: l2)) < npos ->
  rfind (l1 ++ ch :: l2) ch = Z.of_nat (length l1).
Proof.
  intros Hn. induction l1 as [|a l1 IH]; intros Hlen; simpl.
  - rewrite (rfind_absent _ _ Hn), Z.eqb_refl. destruct (decide (ch = ch)); [reflexivity|congruence].
  - simpl in Hlen. rewrite IH by lia.
    rewrite length_app in Hlen. simpl in Hlen.
    assert ((Z.of_nat (length l1) =? npos) = false) as -> by (apply Z.eqb_neq; lia).
    lia.
Qed.

(** A character that occurs in a list has a last occurrence. *)
Lemma last_occurrence (l : list ascii) (ch : ascii) :
  ch ∉ l \/ exists l1 l2, l = l1 ++ ch :: l2 /\ ch ∉ l2.
Proof.
  induction l as [|a l [IH|(l1 & l2 & -> & Hn)]].
  - left. apply not_elem_of_nil.
  - destruct (decide (a = ch)) as [->|Hne].
    + right. exists [], l. auto.
    + left. apply not_elem_of_cons. auto.
  - right. exists (a :: l1), l2. auto.
Qed.

Lemma substr_rest (dir base : list ascii) count :
  Z.of_nat (length base) <= count ->
  substr (dir ++ base) (Z.of_nat (length dir)) count = Some base.
Proof.
  intros Hc. unfold substr. rewrite length_app.
  assert ((Z.of_nat (length dir + length base) <? Z.of_nat (length dir)) = false) as ->
    by (apply Z.ltb_ge; lia).
  rewrite Nat2Z.id, drop_app_length. f_equal. apply take_ge. lia.
Qed.

Lemma substr_middle (dir stem rest : list ascii) :
  substr (dir ++ stem ++ rest) (Z.of_nat (length dir)) (Z.of_nat (length stem)) = Some stem.
Proof.
  unfold substr. rewrite !length_app.
  assert ((Z.of_nat (length dir + (length stem + length rest)) <? Z.of_nat (length dir))
          = false) as -> by (apply Z.ltb_ge; lia).
  rewrite Nat2Z.id, drop_app_length. f_equal.
  rewrite Z.min_l by lia. rewrite Nat2Z.id. apply take_app_length.
Qed.

(** The position behind the last slash is the length of the directory
    part. *)
Lemma behind_last_slash (dir base : list ascii) :
  "/"%char ∉ base -> dir = [] \/ last dir = Some "/"%char ->
  Z.of_nat (length (dir ++ base)) < 2 ^ 31 ->
  int32 (int32 (rfind (dir ++ base) "/"%char) + 1) = Z.of_nat (length dir).
Proof.
  intros Hb Hd Hlen. destruct Hd as [->|Hd].
  - simpl. rewrite (rfind_absent _ _ Hb). reflexivity.
  - apply last_Some in Hd as [dir0 ->]. rewrite <- app_assoc. simpl.
    rewrite <- app_assoc in Hlen. simpl in Hlen.
    rewrite rfind_last; [|exact Hb|unfold npos; lia].
    rewrite !length_app in *. simpl in *.
    rewrite (int32_small (Z.of_nat (length dir0))) by lia.
    rewrite int32_small by lia. lia.
Qed.

(** X27: [file_name] takes a path apart at its last slash and the last
    dot behind it.  For a path of a directory part, which is empty or ends
    with a slash, and a name without a slash, of fewer than 2^31
    characters together: with the suffix included the result is the name;
    without it the result is the name up to its last dot, and the whole
    name when it has no dot or only the one it begins with, also when the
    directory part has a dot. *)
Theorem file_name_takes_the_path_apart (dir base : list ascii) :
  "/"%char ∉ base -> dir = [] \/ last dir = Some "/"%char ->
  Z.of_nat (length (dir ++ base)) < 2 ^ 31 ->
  file_name (dir ++ base) true = Some base /\
  ("."%char ∉ base -> file_name (dir ++ base) false = Some base) /\
  (forall stem ext, base = stem ++ "."%char :: ext -> "."%char ∉ ext ->
     file_name (dir ++ base) false = Some (if decide (stem = []) then base else stem)).
Proof.
  intros Hb Hd Hlen.
  pose proof (behind_last_slash dir base Hb Hd Hlen) as Hp.
  assert (Hsz : size_t_of (Z.of_nat (length dir)) = Z.of_nat (length dir)).
  { apply size_t_of_small. rewrite length_app in Hlen. lia. }
  assert (Hnpos : Z.of_nat (length base) <= npos).
  { rewrite length_app in Hlen. unfold npos. lia. }
  assert (Hempty : dir ++ base = [] -> base = []).
  { intros H. apply app_eq_nil in H. tauto. }
  assert (Hwhole : size_t_of (int32 (int32 (Z.of_nat (length (dir ++ base)))
                                     - Z.of_nat (length dir))) = Z.of_nat (length base)).
  { rewrite (int32_small (Z.of_nat _)) by lia. rewrite length_app in *.
    rewrite int32_small by lia. rewrite size_t_of_small by lia. lia. }
  split; [|split].
  - unfold file_name. destruct (decide (dir ++ base = [])) as [E|_].
    + rewrite (Hempty E). reflexivity.
    + cbv zeta. rewrite Hp, Hsz. apply substr_rest, Hnpos.
  - intros Hdot. unfold file_name. destruct (decide (dir ++ base = [])) as [E|_].
    + rewrite (Hempty E). reflexivity.
    + cbv zeta. rewrite Hp, Hsz.
      destruct (int32 (rfind (dir ++ base) ".") =? -1) eqn:Hu;
        [apply substr_rest, Hnpos|].
      destruct (last_occurrence dir "."%char) as [Hnd|(d1 & d2 & -> & Hn2)].
      * rewrite rfind_absent in Hu; [discriminate|].
        rewrite not_elem_of_app. auto.
      * rewrite <- app_assoc in Hu |- *. simpl in Hu |- *.
        rewrite <- app_assoc in Hlen, Hwhole. simpl in Hlen, Hwhole.
        rewrite rfind_last; [|rewrite not_elem_of_app; auto|unfold npos; lia].
        rewrite (int32_small (Z.of_nat (length d1)))
          by (rewrite !length_app in Hlen; simpl in Hlen; lia).
        assert ((Z.of_nat (length d1) <=? Z.of_nat (length (d1 ++ "."%char :: d2))) = true)
          as -> by (apply Z.leb_le; rewrite length_app; simpl; lia).
        rewrite Hwhole.
        change (d1 ++ "."%char :: d2 ++ base) with (d1 ++ ("."%char :: d2) ++ base).
        rewrite app_assoc. apply substr_rest. lia.
  - intros stem ext -> Hext. unfold file_name.
    destruct (decide (dir ++ stem ++ "."%char :: ext = [])) as [E|_].
    + apply Hempty in E. destruct stem; discriminate.
    + cbv zeta. rewrite Hp, Hsz.
      assert (Hu : rfind (dir ++ stem ++ "."%char :: ext) "." =
                   Z.of_nat (length dir + length stem)).
      { rewrite app_assoc. rewrite rfind_last; [rewrite length_app; reflexivity|exact Hext|].
        rewrite <- app_assoc. unfold npos. lia. }
      rewrite Hu. rewrite !length_app in Hlen. simpl in Hlen.
      rewrite (int32_small (Z.of_nat (length dir + length stem))) by lia.
      assert ((Z.of_nat (length dir + length stem) =? -1) = false) as ->
        by (apply Z.eqb_neq; lia).
      destruct (decide (stem = [])) as [->|Hne].
      * simpl. rewrite Nat.add_0_r, Z.leb_refl. simpl in Hwhole. rewrite Hwhole.
        apply substr_rest. simpl. lia.
      * assert (0 < length stem)%nat by (destruct stem; [congruence|simpl; lia]).
        assert ((Z.of_nat (length dir + length stem) <=? Z.of_nat (length dir)) = false)
          as -> by (apply Z.leb_gt; lia).
        replace (Z.of_nat (length dir + length stem) - Z.of_nat (length dir))
          with (Z.of_nat (length stem)) by lia.
        rewrite int32_small by lia. rewrite size_t_of_small by lia.
        apply substr_middle.
Qed.

End FileNameFacts.

Section FileNameWitnesses.

Import Stdlib.Strings.Ascii FileName.

Lemma file_name_takes_the_path_apart_witness :
  file_name source_path true = Some (list_ascii_of_string "simple_yolo.cu") /\
  file_name source_path false = Some (list_ascii_of_string "simple_yolo") /\
  file_name hidden_path false = Some (list_ascii_of_string "a").
Proof.
  assert (Hs : "/"%char ∉ list_ascii_of_string "simple_yolo.cu")
    by (apply (bool_decide_unpack _); vm_compute; exact I).
  assert (Ha : "/"%char ∉ list_ascii_of_string "a")
    by (apply (bool_decide_unpack _); vm_compute; exact I).
  destruct (file_name_takes_the_path_apart (list_ascii_of_string "src/")
              (list_ascii_of_string "simple_yolo.cu") Hs
              (or_intror eq_refl) ltac:(vm_compute; reflexivity)) as (H1 & _ & H3).
  destruct (file_name_takes_the_path_apart (list_ascii_of_string ".config/")
              (list_ascii_of_string "a") Ha
              (or_intror eq_refl) ltac:(vm_compute; reflexivity)) as (_ & H2 & _).
  split; [exact H1|]. split.
  - apply (H3 (list_ascii_of_string "simple_yolo") (list_ascii_of_string "cu") eq_refl).
    apply (bool_decide_unpack _). vm_compute. exact I.
  - apply H2. apply (bool_decide_unpack _). vm_compute. exact I.
Defined.

End FileNameWitnesses.

(** ** InferImpl: what [forward] hands to the engine *)

Section ForwardFacts.

Import Tensor TensorMore InferImpl Forward.

Lemma bind_returns_both {A B} (m : prog A) (f : A -> prog B) a tr b tr' :
  m = (Returns a, tr) -> f a = (Returns b, tr') -> m ≫= f = (Returns b, tr ++ tr').
Proof. intros -> H. rewrite prog_bind_returns, H. reflexivity. Qed.

(** [to_gpu] returns, with the tensor on the device. *)
Lemma to_gpu_returns copy (x : Tensor.t) :
  covered x ->
  exists x' tr, to_gpu copy x = (Returns x', tr) /\
    covered x' /\ head_ x' = Device /\ shape_ x' = shape_ x /\
    (head_ x = Device -> x' = x).
Proof.
  intros Hc. pose proof Hc as (Hs & Hb & Hh).
  assert (Hr : exists x' tr, to_gpu copy x = (Returns x', tr) /\ shape_ x' = shape_ x /\
                              (head_ x = Device -> x' = x)).
  { unfold to_gpu. destruct (decide (head_ x = Device)) as [Hd|Hd].
    - exists x, []. auto.
    - destruct (gpu_sized (bytes_ x) (data_ x) Hs) as (m' & tr & Hg & _); [lia|].
      simpl. rewrite Hg, prog_bind_returns.
      destruct (copy && negb (is_null (MixMemory.cpu_ m'))); simpl;
        do 2 eexists; (split; [reflexivity|]); split; auto; contradiction. }
  destruct Hr as (x' & tr & Hr & Hshape & Hsame). exists x', tr.
  destruct (to_gpu_covered copy x x' Hc) as (Hc' & Hd' & _); [rewrite Hr; reflexivity|].
  auto.
Qed.

(** The first loop of [resize] on a shape that differs from the old one in
    its dimensions only, not in their number. *)
Lemma setup_dims_kept (x : Tensor.t) (dims : list Z) : forall i,
  (forall j d, dims !! j = Some d -> d = -1 -> nth (i + j) (shape_ x) 0 = -1) ->
  forall n, n = length (shape_ x) ->
  setup_dims x n i dims = (Returns dims, []).
Proof.
  induction dims as [|d dims IH]; intros i H n Hn; [reflexivity|].
  simpl. rewrite (IH (S i)); [|intros j e Hj He|exact Hn].
  - destruct (d =? -1) eqn:Hd.
    + apply Z.eqb_eq in Hd. unfold Assert.
      rewrite bool_decide_eq_true_2 by exact Hn.
      rewrite !prog_ret_bind.
      pose proof (H 0%nat d eq_refl Hd) as H0. rewrite Nat.add_0_r in H0.
      rewrite H0, Hd. reflexivity.
    + rewrite !prog_ret_bind. reflexivity.
  - replace (S i + j)%nat with (i + S j)%nat by lia. apply (H (S j) e Hj He).
Qed.

(** [resize_single_dim(0, size)] returns, with the first dimension
    replaced. *)
Lemma resize_single_dim_returns size (x : Tensor.t) :
  covered x -> shape_ x <> [] -> size <> -1 ->
  exists x', resize_single_dim 0 size x = (Returns x', []) /\
    covered x' /\ shape_ x' = <[0%nat := size]> (shape_ x).
Proof.
  intros Hc Hne Hsize.
  assert (Hr : exists x', resize_single_dim 0 size x = (Returns x', []) /\
                          shape_ x' = <[0%nat := size]> (shape_ x)).
  { unfold resize_single_dim, Assert.
    assert ((0 <=? 0) && (0 <? Z.of_nat (length (shape_ x))) = true) as ->.
    { destruct (shape_ x); [congruence|reflexivity]. }
    rewrite prog_ret_bind. unfold resize.
    rewrite setup_dims_kept.
    - rewrite prog_bind_returns. eexists. split; [reflexivity|].
      match goal with |- context [adajust_memory_by_update_dims_or_type ?y] =>
        destruct (adajust_keeps y) as [-> _] end. reflexivity.
    - intros j d Hj Hd. destruct (shape_ x) as [|d0 rest]; [congruence|].
      destruct j as [|j]; simpl in Hj.
      + congruence.
      + simpl. rewrite <- Hd. apply nth_lookup_Some with (d := 0). exact Hj.
    - apply length_insert. }
  destruct Hr as (x' & Hr & Hshape). exists x'. split; [exact Hr|]. split; [|exact Hshape].
  apply (perform_covered one_device (ResizeSingleDim 0 size) x x' Hc).
  simpl. rewrite Hr. reflexivity.
Qed.

Lemma same_views_refl s : same_views s s.
Proof. repeat split. Qed.

Lemma same_views_trans s1 s2 s3 : same_views s1 s2 -> same_views s2 s3 -> same_views s1 s3.
Proof.
  unfold same_views.
  intros (A1 & A2 & A3 & A4 & A5 & A6 & A7 & A8 & A9 & A10)
         (B1 & B2 & B3 & B4 & B5 & B6 & B7 & B8 & B9 & B10).
  repeat split; congruence.
Qed.

Lemma same_views_store p x s : same_views s (store p x s).
Proof. repeat split. simpl. apply length_insert. Qed.

(** The loop over the outputs. *)
Lemma forward_outputs_spec (inputBatchSize : Z) (outputs : list nat) :
  inputBatchSize <> -1 ->
  forall s,
  Forall covered (tensors s) ->
  (forall p, p ∈ outputs -> exists x, tensors s !! p = Some x /\ shape_ x <> []) ->
  exists s' tr,
    forward_outputs inputBatchSize outputs s = (Returns s', tr) /\
    same_views s s' /\ bindingsPtr_ s' = bindingsPtr_ s /\
    Forall covered (tensors s') /\
    forall p x, tensors s !! p = Some x ->
      exists x', tensors s' !! p = Some x' /\
        (p ∈ outputs ->
           shape_ x' = <[0%nat := inputBatchSize]> (shape_ x) /\ head_ x' = Device) /\
        (p ∉ outputs -> x' = x).
Proof.
  intros Hb. induction outputs as [|p outputs IH]; intros s Hcov Hout.
  - exists s, []. split; [reflexivity|]. split; [apply same_views_refl|].
    split; [reflexivity|]. split; [exact Hcov|].
    intros p x Hp. exists x. split; [exact Hp|]. split; [|auto].
    intros H. apply elem_of_nil in H. contradiction.
  - destruct (Hout p) as (x & Hx & Hne); [left|].
    assert (Hcx : covered x) by (eapply Forall_lookup_1; eauto).
    destruct (resize_single_dim_returns inputBatchSize x Hcx Hne Hb) as (x1 & Hr1 & Hc1 & Hs1).
    destruct (to_gpu_returns false x1 Hc1) as (x2 & tr2 & Hr2 & Hc2 & Hd2 & Hs2 & _).
    assert (Hlt : (p < length (tensors s))%nat) by (eapply lookup_lt_Some; eauto).
    destruct (IH (store p x2 s)) as (s' & tr & Hr & Hv & Hptr & Hcov' & Hall).
    + simpl. apply Forall_insert; assumption.
    + intros q Hq. simpl. destruct (decide (q = p)) as [->|Hqp].
      * exists x2. rewrite list_lookup_insert_eq by exact Hlt. split; [reflexivity|].
        rewrite Hs2, Hs1. intros E. apply (f_equal length) in E.
        rewrite length_insert in E. destruct (shape_ x); [congruence|discriminate].
      * rewrite list_lookup_insert_ne by auto. apply Hout. right. exact Hq.
    + exists s', (tr2 ++ tr).
      split.
      { simpl. unfold deref. rewrite Hx, prog_ret_bind.
        apply (bind_returns_both _ _ x1 [] s' (tr2 ++ tr)); [exact Hr1|].
        apply bind_returns_both with (a := x2); [exact Hr2|exact Hr]. }
      split; [eapply same_views_trans; [apply (same_views_store p x2)|exact Hv]|].
      split; [exact Hptr|]. split; [exact Hcov'|].
      intros q y Hq. destruct (decide (q = p)) as [->|Hqp].
      * assert (y = x) by congruence. subst y.
        destruct (Hall p x2) as (x' & Hx' & Hin & Hnot).
        { simpl. apply list_lookup_insert_eq. exact Hlt. }
        exists x'. split; [exact Hx'|]. split; [|intros Hn; exfalso; apply Hn; left].
        intros _. destruct (decide (p ∈ outputs)) as [Hi|Hi].
        -- destruct (Hin Hi) as [E1 E2]. split; [|exact E2].
           rewrite E1, Hs2, Hs1. apply list_insert_insert_eq.
        -- rewrite (Hnot Hi). split; [congruence|exact Hd2].
      * destruct (Hall q y) as (x' & Hx' & Hin & Hnot).
        { simpl. rewrite list_lookup_insert_ne by auto. exact Hq. }
        exists x'. split; [exact Hx'|]. split.
        -- intros Hi. apply Hin. apply elem_of_cons in Hi as [Hi|Hi]; [congruence|exact Hi].
        -- intros Hn. apply Hnot. intros Hi. apply Hn. right. exact Hi.
Qed.

(** The loop over the blobs. *)
Lemma forward_bindings_spec (blobs : list nat) : forall (i : nat) s,
  Forall covered (tensors s) ->
  (forall p, p ∈ blobs -> (p < length (tensors s))%nat) ->
  (i + length blobs <= length (bindingsPtr_ s))%nat ->
  exists s' tr,
    forward_bindings (Z.of_nat i) blobs s = (Returns s', tr) /\
    same_views s s' /\ length (bindingsPtr_ s') = length (bindingsPtr_ s) /\
    Forall covered (tensors s') /\
    (forall p x, tensors s !! p = Some x ->
       exists x', tensors s' !! p = Some x' /\ shape_ x' = shape_ x /\
         (head_ x = Device -> x' = x) /\ (p ∈ blobs -> head_ x' = Device)) /\
    (forall k p, blobs !! k = Some p ->
       exists x', tensors s' !! p = Some x' /\
         bindingsPtr_ s' !! (i + k)%nat = Some (pointer p x')) /\
    (forall j, (j < i)%nat -> bindingsPtr_ s' !! j = bindingsPtr_ s !! j).
Proof.
  induction blobs as [|p blobs IH]; intros i s Hcov Hin Hlen.
  - exists s, []. split; [reflexivity|]. split; [apply same_views_refl|].
    split; [reflexivity|]. split; [exact Hcov|]. split; [|split].
    + intros p x Hp. exists x. repeat split; auto.
      intros H. apply elem_of_nil in H. contradiction.
    + intros k p Hk. discriminate.
    + reflexivity.
  - destruct (lookup_lt_is_Some_2 (tensors s) p) as [x Hx]; [apply Hin; left|].
    assert (Hcx : covered x) by (eapply Forall_lookup_1; eauto).
    destruct (to_gpu_returns true x Hcx) as (x2 & tr2 & Hr2 & Hc2 & Hd2 & Hs2 & Hsame2).
    assert (Hlt : (p < length (tensors s))%nat) by (eapply lookup_lt_Some; eauto).
    simpl in Hlen.
    set (s1 := with_pointers (<[i := pointer p x2]> (bindingsPtr_ s)) (store p x2 s)).
    destruct (IH (S i) s1) as (s' & tr & Hr & Hv & Hl & Hcov' & Hall & Hptr & Hold).
    + simpl. apply Forall_insert; assumption.
    + intros q Hq. simpl. rewrite length_insert. apply Hin. right. exact Hq.
    + simpl. rewrite length_insert. lia.
    + exists s', (tr2 ++ tr). split.
      { simpl. unfold gpu, deref. rewrite Hx, prog_ret_bind.
        rewrite (bind_returns_both _ _ x2 tr2 _ [] Hr2 eq_refl), app_nil_r.
        rewrite prog_bind_returns. unfold result at 1, trace at 1. simpl fst. simpl snd.
        unfold put. simpl bindingsPtr_.
        assert ((Z.of_nat i <? 0) || (Z.of_nat (length (bindingsPtr_ s)) <=? Z.of_nat i)
                = false) as ->.
        { apply orb_false_iff. split; [apply Z.ltb_ge|apply Z.leb_gt]; lia. }
        rewrite prog_ret_bind, Nat2Z.id.
        replace (Z.of_nat i + 1) with (Z.of_nat (S i)) by lia.
        fold s1. rewrite Hr. reflexivity. }
      split; [eapply same_views_trans; [apply (same_views_store p x2)|exact Hv]|].
      split; [rewrite Hl; simpl; apply length_insert|].
      split; [exact Hcov'|]. split; [|split].
      * intros q y Hq. destruct (decide (q = p)) as [->|Hqp].
        -- assert (y = x) by congruence. subst y.
           destruct (Hall p x2) as (x' & Hx' & Hsh & Hdev & _).
           { simpl. apply list_lookup_insert_eq. exact Hlt. }
           exists x'. split; [exact Hx'|]. rewrite (Hdev Hd2).
           split; [exact Hs2|]. split; [exact Hsame2|]. intros _. exact Hd2.
        -- destruct (Hall q y) as (x' & Hx' & Hsh & Hdev & Hblob).
           { simpl. rewrite list_lookup_insert_ne by auto. exact Hq. }
           exists x'. split; [exact Hx'|]. split; [exact Hsh|]. split; [exact Hdev|].
           intros Hi. apply Hblob. apply elem_of_cons in Hi as [Hi|Hi]; [congruence|exact Hi].
      * intros k q Hk. destruct k as [|k]; simpl in Hk.
        -- inversion Hk; subst q.
           destruct (Hall p x2) as (x' & Hx' & _ & Hdev & _).
           { simpl. apply list_lookup_insert_eq. exact Hlt. }
           exists x'. split; [exact Hx'|]. rewrite (Hdev Hd2).
           rewrite Nat.add_0_r, Hold by lia. simpl.
           apply list_lookup_insert_eq. lia.
        -- destruct (Hptr k q Hk) as (x' & Hx' & Hp'). exists x'. split; [exact Hx'|].
           replace (i + S k)%nat with (S i + k)%nat by lia. exact Hp'.
      * intros j Hj. rewrite Hold by lia. simpl. apply list_lookup_insert_ne. lia.
Qed.

(** X28: [forward] gives the engine blobs of the batch size of its first
    input, all of them on the device.  On an engine whose tensors have
    their data where their head says, whose first input has a batch size
    other than -1 in front, whose outputs have a dimension to resize and
    that has a binding pointer for every blob, [forward] reaches its call
    of [enqueueV2]; it has told the engine the dimensions of each input
    binding with the batch size in front; every output tensor has got this
    batch size as its first dimension, the shape of every other tensor is
    unchanged; every blob is on the device; and the pointer of binding [i]
    is the device buffer of blob [i], null only for a tensor without device
    memory.  The views by number and by name are unchanged. *)
Theorem forward_hands_over_batched_blobs (s : InferImpl.t) (context : EngineContext)
    (first : nat) (x0 : Tensor.t) (inputBatchSize : Z) (rest : list Z) :
  context_ s = Some context ->
  inputs_ s !! 0%nat = Some first -> tensors s !! first = Some x0 ->
  shape_ x0 = inputBatchSize :: rest -> inputBatchSize <> -1 ->
  Forall covered (tensors s) ->
  (forall p, p ∈ outputs_ s -> exists x, tensors s !! p = Some x /\ shape_ x <> []) ->
  (forall p, p ∈ orderdBlobs_ s -> (p < length (tensors s))%nat) ->
  length (bindingsPtr_ s) = length (orderdBlobs_ s) ->
  exists s' tr,
    Forward.forward s =
      (Returns (s', set_binding_dimensions inputBatchSize 0 (bindings context)), tr) /\
    inputs_ s' = inputs_ s /\ outputs_ s' = outputs_ s /\
    orderdBlobs_ s' = orderdBlobs_ s /\ blobsNameMapper_ s' = blobsNameMapper_ s /\
    length (bindingsPtr_ s') = length (orderdBlobs_ s) /\
    (forall p x, tensors s !! p = Some x ->
       exists x', tensors s' !! p = Some x' /\ covered x' /\
         (p ∈ outputs_ s -> shape_ x' = <[0%nat := inputBatchSize]> (shape_ x)) /\
         (p ∉ outputs_ s -> shape_ x' = shape_ x) /\
         (p ∈ outputs_ s \/ p ∈ orderdBlobs_ s -> head_ x' = Device)) /\
    (forall i p, orderdBlobs_ s !! i = Some p ->
       exists x', tensors s' !! p = Some x' /\ head_ x' = Device /\
         bindingsPtr_ s' !! i = Some (pointer p x')).
Proof.
  intros Hctx Hfirst Hx0 Hshape Hb Hcov Hout Hblobs Hlen.
  destruct (forward_outputs_spec inputBatchSize (outputs_ s) Hb s Hcov Hout)
    as (s1 & tr1 & Hr1 & Hv1 & Hp1 & Hcov1 & Hall1).
  pose proof Hv1 as (V1 & V2 & V3 & V4 & V5 & V6 & V7 & V8 & V9 & V10).
  destruct (forward_bindings_spec (orderdBlobs_ s1) 0 s1 Hcov1)
    as (s2 & tr2 & Hr2 & Hv2 & Hl2 & Hcov2 & Hall2 & Hptr2 & _).
  { intros p Hp. rewrite V10. apply Hblobs. rewrite <- V7. exact Hp. }
  { rewrite Hp1, V7. simpl. lia. }
  pose proof Hv2 as (W1 & W2 & W3 & W4 & W5 & W6 & W7 & W8 & W9 & W10).
  exists s2, (tr1 ++ tr2). split.
  { unfold Forward.forward. rewrite Hctx. unfold at_. simpl.
    change (Z.to_nat 0) with 0%nat.
    rewrite Hfirst, prog_ret_bind. unfold deref. rewrite Hx0, prog_ret_bind.
    unfold size, at_. rewrite Hshape.
    change ((inputBatchSize :: rest) !! Z.to_nat 0) with (Some inputBatchSize).
    change (0 <? 0) with false. cbv iota. rewrite prog_ret_bind.
    apply bind_returns_both with (a := s1); [exact Hr1|].
    rewrite <- (app_nil_r tr2).
    apply bind_returns_both with (a := s2); [exact Hr2|reflexivity]. }
  split; [congruence|]. split; [congruence|]. split; [congruence|]. split; [congruence|].
  split; [rewrite Hl2, Hp1; exact Hlen|]. split.
  - intros p x Hp. destruct (Hall1 p x Hp) as (x1 & Hx1 & Hin1 & Hnot1).
    destruct (Hall2 p x1 Hx1) as (x2 & Hx2 & Hs2 & Hdev2 & Hblob2).
    exists x2. split; [exact Hx2|]. split; [eapply Forall_lookup_1; eauto|].
    split; [|split].
    + intros Hi. rewrite Hs2. apply Hin1, Hi.
    + intros Hn. rewrite Hs2, (Hnot1 Hn). reflexivity.
    + intros [Hi|Hi].
      * destruct (Hin1 Hi) as [_ Hd]. rewrite (Hdev2 Hd). exact Hd.
      * apply Hblob2. rewrite V7. exact Hi.
  - intros i p Hi. rewrite <- V7 in Hi.
    destruct (Hptr2 i p Hi) as (x2 & Hx2 & Hp2). exists x2. split; [exact Hx2|].
    split; [|exact Hp2].
    assert (Hlt : (p < length (tensors s1))%nat).
    { rewrite V10. apply Hblobs. rewrite <- V7. eapply list_elem_of_lookup_2. exact Hi. }
    destruct (lookup_lt_is_Some_2 _ _ Hlt) as [x1 Hx1].
    destruct (Hall2 p x1 Hx1) as (x2' & Hx2' & _ & _ & Hblob2).
    assert (x2' = x2) by congruence. subst x2'.
    apply Hblob2. eapply list_elem_of_lookup_2. exact Hi.
Qed.

End ForwardFacts.

Section ForwardWitnesses.

Import Tensor TensorMore InferImpl Forward.

Lemma forward_hands_over_batched_blobs_witness :
  exists s' tr x',
    Forward.forward two_images = (Returns (s', [(0, [2; 3; 2; 2])]), tr) /\
    tensors s' !! 1%nat = Some x' /\
    shape_ x' = [2; 1; 7] /\ head_ x' = Device /\
    bindingsPtr_ s' !! 1%nat = Some (pointer 1 x').
Proof.
  pose (x0 := YoloInferMore.returned (deref 0 two_images) fresh).
  pose (x1 := YoloInferMore.returned (deref 1 two_images) fresh).
  assert (H0 : tensors two_images !! 0%nat = Some x0) by (vm_compute; reflexivity).
  assert (H1 : tensors two_images !! 1%nat = Some x1) by (vm_compute; reflexivity).
  assert (Hn : length (tensors two_images) = 2%nat) by (vm_compute; reflexivity).
  assert (Ho : outputs_ two_images = [1%nat]) by (vm_compute; reflexivity).
  assert (Hb : orderdBlobs_ two_images = [0%nat; 1%nat]) by (vm_compute; reflexivity).
  assert (Hctx : context_ two_images = Some yolo_context) by (vm_compute; reflexivity).
  assert (Hin : inputs_ two_images !! 0%nat = Some 0%nat) by (vm_compute; reflexivity).
  assert (Hs0 : shape_ x0 = [2; 3; 2; 2]) by (vm_compute; reflexivity).
  assert (Hs1 : shape_ x1 = [4; 1; 7]) by (vm_compute; reflexivity).
  assert (Hlen : length (bindingsPtr_ two_images) = length (orderdBlobs_ two_images))
    by (vm_compute; reflexivity).
  assert (Hc0 : covered x0) by (vm_compute; repeat split; discriminate).
  assert (Hc1 : covered x1) by (vm_compute; repeat split; discriminate).
  assert (Hc : Forall covered (tensors two_images)).
  { apply Forall_lookup_2. intros i x Hx.
    assert (Hi : (i < 2)%nat) by (rewrite <- Hn; eapply lookup_lt_Some; exact Hx).
    destruct i as [|[|i]]; [| |lia].
    - rewrite H0 in Hx. injection Hx as <-. exact Hc0.
    - rewrite H1 in Hx. injection Hx as <-. exact Hc1. }
  assert (Hout : forall p, p ∈ outputs_ two_images ->
                   exists x, tensors two_images !! p = Some x /\ shape_ x <> []).
  { intros p Hp. rewrite Ho in Hp. apply list_elem_of_singleton in Hp as ->.
    exists x1. split; [exact H1|]. rewrite Hs1. discriminate. }
  assert (Hbl : forall p, p ∈ orderdBlobs_ two_images ->
                  (p < length (tensors two_images))%nat).
  { intros p Hp. rewrite Hb in Hp. rewrite Hn.
    apply elem_of_cons in Hp as [-> | Hp];
      [|apply list_elem_of_singleton in Hp as ->]; lia. }
  assert (Hne : 2 <> -1) by discriminate.
  destruct (forward_hands_over_batched_blobs two_images yolo_context 0 x0 2 [3; 2; 2]
              Hctx Hin H0 Hs0 Hne Hc Hout Hbl Hlen)
    as (s' & tr & Hr & _ & _ & _ & _ & _ & Hall & Hptr).
  assert (Hb1 : orderdBlobs_ two_images !! 1%nat = Some 1%nat) by (rewrite Hb; reflexivity).
  destruct (Hptr 1%nat 1%nat Hb1) as (x' & Hx' & Hd & Hp).
  destruct (Hall 1%nat x1 H1) as (x'' & Hx'' & _ & Hs & _).
  assert (x'' = x') by congruence. subst x''.
  exists s', tr, x'. split; [exact Hr|]. split; [exact Hx'|].
  split; [|split; [exact Hd|exact Hp]].
  rewrite Hs; [rewrite Hs1; reflexivity|].
  rewrite Ho. apply list_elem_of_singleton. reflexivity.
Defined.

End ForwardWitnesses.

(** ** Rounding up to an alignment *)

Section UpboundFacts.

(** X29: [upbound] rounds up to the alignment.  For [n >= 0] and a
    positive [align] whose sum fits an [int], the result is what the [int]
    arithmetic of the source computes, it is a multiple of [align], it is
    at least [n] and less than [n + align], and no multiple of [align]
    that is at least [n] is smaller. *)
Theorem upbound_is_least_multiple (n align : Z) :
  0 <= n -> 0 < align -> n + align < 2 ^ 31 ->
  upbound n align = int32 (Z.quot (int32 (int32 (n + align) - 1)) align * align) /\
  upbound n align mod align = 0 /\
  n <= upbound n align < n + align /\
  forall m, m mod align = 0 -> n <= m -> upbound n align <= m.
Proof.
  intros Hn Ha Hsum.
  pose proof (Z.div_mod (n + align - 1) align ltac:(lia)) as Hdm.
  pose proof (Z.mod_pos_bound (n + align - 1) align Ha) as Hmod.
  assert (Hfloor : upbound n align = (n + align - 1) / align * align).
  { unfold upbound. rewrite (int32_small (n + align)) by lia.
    rewrite (int32_small (n + align - 1)) by lia.
    rewrite Z.quot_div_nonneg by lia.
    assert (0 <= (n + align - 1) / align) by (apply Z.div_pos; lia).
    apply int32_small. nia. }
  split; [reflexivity|]. rewrite Hfloor.
  set (q := (n + align - 1) / align) in *.
  assert (Hq : 0 <= q) by (apply Z.div_pos; lia).
  assert (Hbound : n <= q * align < n + align) by lia.
  split; [|split].
  - apply Z.mod_mul. lia.
  - exact Hbound.
  - intros m Hm Hle. apply Z.mod_divide in Hm; [|lia]. destruct Hm as [k ->].
    assert (q <= k); [|nia].
    destruct (Z_le_gt_dec q k) as [H|H]; [exact H|]. exfalso.
    assert (k * align <= (q - 1) * align) by (apply Z.mul_le_mono_nonneg_r; lia). lia.
Qed.

Lemma upbound_is_least_multiple_witness :
  upbound 24 32 = 32 /\ upbound 24 32 mod 32 = 0 /\ 24 <= upbound 24 32 < 24 + 32.
Proof.
  destruct (upbound_is_least_multiple 24 32) as (H1 & H2 & H3 & _); try lia.
  split; [exact H1|]. split; [exact H2|exact H3].
Defined.

End UpboundFacts.

(** ** Single precision: comparisons and the counter *)

Section Binary32Facts.

Import Binary32.

Lemma compare_cont_compare (m n : positive) : Pos.compare_cont Eq m n = Pos.compare m n.
Proof. reflexivity. Qed.

(** Exchanging the operands of a comparison turns its result around. *)
Lemma compare_exchange (x y : float) :
  SpecFloat.SFcompare y x = CompOpp <$> SpecFloat.SFcompare x y.
Proof.
  destruct x as [sx|sx| |sx mx ex], y as [sy|sy| |sy my ey]; try reflexivity;
    try (destruct sx; reflexivity); try (destruct sy; reflexivity);
    try (destruct sx, sy; reflexivity).
  destruct sx, sy; simpl; try reflexivity;
    rewrite !compare_cont_compare, (Z.compare_antisym ex ey), (Pos.compare_antisym mx my);
    destruct (ex ?= ey); simpl; try reflexivity; destruct (mx ?= my); reflexivity.
Qed.

(** A number that is not below another one is at least that one. *)
Lemma not_below (x y : float) :
  is_nan x = false -> is_nan y = false -> flt x y = false -> fge x y = true.
Proof.
  unfold flt, fge, fle, SpecFloat.SFltb, SpecFloat.SFleb. rewrite (compare_exchange x y).
  intros Hx Hy. destruct (SpecFloat.SFcompare x y) as [[| |]|] eqn:E; simpl;
    try reflexivity; try discriminate.
  destruct x, y; simpl in *; discriminate.
Qed.

Lemma flt_irrefl (x : float) : flt x x = false.
Proof.
  destruct x as [s|s| |s m e]; try reflexivity; try (destruct s; reflexivity).
  unfold flt, SpecFloat.SFltb. simpl.
  rewrite compare_cont_compare, Z.compare_refl, Pos.compare_refl. destruct s; reflexivity.
Qed.

Lemma flt_trans (x y z : float) : flt x y = true -> flt y z = true -> flt x z = true.
Proof.
  unfold flt, SpecFloat.SFltb.
  destruct x as [sx|sx| |sx mx ex], y as [sy|sy| |sy my ey], z as [sz|sz| |sz mz ez];
    simpl; try discriminate; try reflexivity;
    try (destruct sx; simpl; try discriminate; try reflexivity;
         destruct sy; simpl; try discriminate; try reflexivity;
         destruct sz; simpl; try discriminate; reflexivity);
    try (destruct sx, sy; simpl; try discriminate; reflexivity);
    try (destruct sy, sz; simpl; try discriminate; reflexivity);
    try (destruct sx, sz; simpl; try discriminate; reflexivity).
  all: destruct sx, sy, sz; simpl; try discriminate; try reflexivity.
  all: rewrite (compare_cont_compare mx my), (compare_cont_compare my mz),
         (compare_cont_compare mx mz).
  all: destruct (Z.compare_spec ex ey), (Z.compare_spec ey ez), (Z.compare_spec ex ez);
    try discriminate; try reflexivity; try lia.
  all: destruct (Pos.compare_spec mx my), (Pos.compare_spec my mz), (Pos.compare_spec mx mz);
    simpl; intros; try congruence; try lia.
Qed.

(** The counter of a box array counts exactly up to the capacity of the
    array: below 1024 the sum with [1.0f] is the next integer, and the
    conversions to [int] give the integer back. *)
Lemma counter_table (t : Z) :
  0 <= t <= 1024 ->
  to_int (of_int t) = t /\ to_int_device (of_int t) = t /\
  fadd (of_int t) one = of_int (t + 1).
Proof.
  intros Ht.
  assert (Hall : forallb (fun t => bool_decide (to_int (of_int t) = t)
                                   && bool_decide (to_int_device (of_int t) = t)
                                   && bool_decide (fadd (of_int t) one = of_int (t + 1)))
                   (seqZ 0 1025) = true) by (vm_compute; reflexivity).
  rewrite forallb_forall in Hall. specialize (Hall t).
  rewrite !andb_true_iff, !bool_decide_eq_true in Hall.
  destruct Hall as [[H1 H2] H3]; [|auto].
  apply list_elem_of_In, elem_of_seqZ. lia.
Qed.

End Binary32Facts.

(** ** The kernels in single precision *)

Section Kernel32Facts.

Import Binary32 Kernel32.

Lemma rd32_wr_eq (a : list float) i v :
  0 <= i < Z.of_nat (length a) -> rd (wr a i v) i = v.
Proof.
  intros Hi. unfold rd, wr.
  assert ((i <? 0) = false) as -> by (apply Z.ltb_ge; lia).
  apply nth_lookup_Some with (d := zero).
  apply list_lookup_insert_eq. lia.
Qed.

Lemma rd32_wr_ne (a : list float) i j v : i <> j -> rd (wr a i v) j = rd a j.
Proof.
  intros Hne. unfold rd, wr. destruct (i <? 0) eqn:Hi; [reflexivity|].
  destruct (j <? 0) eqn:Hj; [reflexivity|].
  apply Z.ltb_ge in Hi, Hj. rewrite !nth_lookup, list_lookup_insert_ne; [reflexivity|lia].
Qed.

Lemma length_wr32 (a : list float) i v : length (wr a i v) = length a.
Proof. unfold wr. destruct (i <? 0); [reflexivity|apply length_insert]. Qed.

Context (fmad : float -> float -> float -> float).

(** The class loop returns the score of the class it names, and no class
    scores more. *)
Lemma scan_classes32_spec (predict : list float) (base : Z) n :
  forall i confidence label,
  0 <= label < i -> confidence = rd predict (base + label) ->
  (forall j, 0 <= j < i -> fgt (rd predict (base + j)) confidence = false) ->
  let r := scan_classes predict n (base + i) i confidence label in
  0 <= snd r < i + Z.of_nat n /\ fst r = rd predict (base + snd r) /\
  forall j, 0 <= j < i + Z.of_nat n -> fgt (rd predict (base + j)) (fst r) = false.
Proof.
  induction n as [|n IH]; intros i confidence label Hl Hc Hmax; simpl.
  - split; [lia|]. split; [exact Hc|]. intros j Hj. apply Hmax. lia.
  - destruct (fgt (rd predict (base + i)) confidence) eqn:Hgt.
    + replace (base + i + 1) with (base + (i + 1)) by lia.
      destruct (IH (i + 1) (rd predict (base + i)) i) as (H1 & H2 & H3); [lia|reflexivity| |].
      * intros j Hj. destruct (decide (j = i)) as [->|Hne]; [apply flt_irrefl|].
        destruct (fgt (rd predict (base + j)) (rd predict (base + i))) eqn:E; [|reflexivity].
        unfold fgt in *. rewrite <- (Hmax j ltac:(lia)). symmetry.
        eapply flt_trans; eassumption.
      * split; [lia|]. split; [exact H2|]. intros j Hj. apply H3. lia.
    + replace (base + i + 1) with (base + (i + 1)) by lia.
      destruct (IH (i + 1) confidence label) as (H1 & H2 & H3); [lia|exact Hc| |].
      * intros j Hj. destruct (decide (j = i)) as [->|Hne]; [exact Hgt|apply Hmax; lia].
      * split; [lia|]. split; [exact H2|]. intros j Hj. apply H3. lia.
Qed.

Lemma best_class32_spec (predict : list float) (num_classes pitem : Z) :
  1 <= num_classes ->
  let r := best_class predict num_classes pitem in
  0 <= snd r < num_classes /\ fst r = rd predict (pitem + 5 + snd r) /\
  forall j, 0 <= j < num_classes -> fgt (rd predict (pitem + 5 + j)) (fst r) = false.
Proof.
  intros Hn. unfold best_class.
  replace (pitem + 6) with (pitem + 5 + 1) by lia.
  destruct (scan_classes32_spec predict (pitem + 5) (Z.to_nat (num_classes - 1)) 1
              (rd predict (pitem + 5)) 0) as (H1 & H2 & H3).
  - lia.
  - f_equal. lia.
  - intros j Hj. replace j with 0 by lia. rewrite Z.add_0_r. apply flt_irrefl.
  - replace (1 + Z.of_nat (Z.to_nat (num_classes - 1))) with num_classes in * by lia.
    auto.
Qed.

(** What one thread of the decode kernel does to the box array. *)
Lemma decode_thread32_cases (predict : list float) (num_bboxes num_classes : Z)
    (threshold : float) (matrix : list float) (max_objects : Z) (parray : list float)
    (position : Z) :
  let pitem := (5 + num_classes) * position in
  let objectness := rd predict (pitem + 4) in
  let confidence := fmul (fst (best_class predict num_classes pitem)) objectness in
  let label := snd (best_class predict num_classes pitem) in
  let old := rd parray 0 in
  let index := to_int_device old in
  let pout_item := 1 + index * Kernel.NUM_BOX_ELEMENT in
  let a' := decode_thread fmad predict num_bboxes num_classes threshold matrix max_objects
              parray position in
  (a' = parray /\
   (num_bboxes <= position \/ flt objectness threshold = true \/
    flt confidence threshold = true)) \/
  (position < num_bboxes /\ flt objectness threshold = false /\
   flt confidence threshold = false /\
   ((max_objects <= index /\ a' = wr parray 0 (fadd old one)) \/
    (index < max_objects /\ exists v0 v1 v2 v3,
       a' = wr (wr (wr (wr (wr (wr (wr (wr parray 0 (fadd old one))
                 pout_item v0) (pout_item + 1) v1) (pout_item + 2) v2)
                 (pout_item + 3) v3) (pout_item + 4) confidence)
                 (pout_item + 5) (of_int label)) (pout_item + 6) one))).
Proof.
  intros pitem objectness confidence label old index pout_item a'.
  unfold a', decode_thread. fold pitem. fold objectness.
  destruct (num_bboxes <=? position) eqn:Hp.
  { left. split; [reflexivity|]. left. apply Z.leb_le, Hp. }
  apply Z.leb_gt in Hp.
  destruct (flt objectness threshold) eqn:Ho.
  { left. split; [reflexivity|]. right. left. reflexivity. }
  unfold confidence, label.
  destruct (best_class predict num_classes pitem) as [best lab]. simpl fst. simpl snd.
  destruct (flt (fmul best objectness) threshold) eqn:Hc.
  { left. split; [reflexivity|]. right. right. reflexivity. }
  right. split; [exact Hp|]. split; [reflexivity|]. split; [reflexivity|].
  fold old. fold index.
  destruct (max_objects <=? index) eqn:Hm.
  { left. split; [apply Z.leb_le, Hm|reflexivity]. }
  right. split; [apply Z.leb_gt, Hm|].
  destruct (affine_project fmad matrix _ _) as [l t].
  destruct (affine_project fmad matrix _ _) as [r b].
  exists l, t, r, b. reflexivity.
Qed.

Lemma row_length32 : Z.of_nat YoloInferImpl.row_length = 7169.
Proof. reflexivity. Qed.

Lemma decode_thread32_counted (predict : list float) (num_bboxes num_classes : Z)
    (threshold : float) (matrix : list float) (a : list float) (position t : Z) :
  counted threshold a t ->
  exists t', t <= t' /\
    counted threshold
      (decode_thread fmad predict num_bboxes num_classes threshold matrix
         YoloInferImpl.MAX_IMAGE_BBOX a position) t'.
Proof.
  intros (Ht & Hlen & Hcnt & Hconf).
  pose proof row_length32 as Hrow.
  pose proof (decode_thread32_cases predict num_bboxes num_classes threshold matrix
                YoloInferImpl.MAX_IMAGE_BBOX a position) as Hcases.
  cbv zeta in Hcases.
  destruct Hcases as [[-> _]|(_ & _ & Hc & [[Hm ->]|(Hm & v0 & v1 & v2 & v3 & ->)])].
  - exists t. split; [lia|]. repeat split; assumption.
  - exists (t + 1). split; [lia|]. split; [lia|]. split; [rewrite length_wr32; exact Hlen|].
    unfold YoloInferImpl.MAX_IMAGE_BBOX in Hm. split.
    + intros Ht'. rewrite rd32_wr_eq by lia. rewrite (Hcnt ltac:(lia)).
      apply (counter_table t). lia.
    + assert (Hfull : 1024 <= t).
      { destruct (Z_lt_ge_dec t 1024) as [Hlt|Hge]; [|lia].
        rewrite (Hcnt ltac:(lia)) in Hm.
        destruct (counter_table t ltac:(lia)) as (_ & Hd & _). lia. }
      intros i Hi. unfold Kernel.field, Kernel.NUM_BOX_ELEMENT.
      rewrite rd32_wr_ne by lia. apply Hconf. lia.
  - unfold YoloInferImpl.MAX_IMAGE_BBOX in Hm.
    set (index := to_int_device (rd a 0)) in *.
    exists (t + 1). split; [lia|]. split; [lia|].
    split; [rewrite !length_wr32; exact Hlen|]. split.
    + intros Ht'. destruct (counter_table t ltac:(lia)) as (_ & Hd & Ha).
      assert (Hi : index = t) by (unfold index; rewrite (Hcnt ltac:(lia)); exact Hd).
      unfold Kernel.NUM_BOX_ELEMENT. rewrite !rd32_wr_ne by lia.
      rewrite rd32_wr_eq by lia. rewrite (Hcnt ltac:(lia)). exact Ha.
    + intros i Hi. unfold Kernel.field, Kernel.NUM_BOX_ELEMENT in *.
      destruct (decide (i = index)) as [->|Hne].
      * rewrite rd32_wr_ne by lia. rewrite rd32_wr_ne by lia.
        rewrite rd32_wr_eq by (rewrite !length_wr32; lia). exact Hc.
      * rewrite !rd32_wr_ne by lia. apply Hconf.
        assert (index = t \/ 1024 <= t) as [Hx|Hx]; [|lia|lia].
        destruct (Z_lt_ge_dec t 1024) as [Hlt|Hge]; [left|right; lia].
        unfold index. rewrite (Hcnt ltac:(lia)). apply (counter_table t). lia.
Qed.

Lemma decode_kernel32_counted (schedule : list Z) (predict : list float)
    (num_bboxes num_classes : Z) (threshold : float) (matrix : list float) :
  forall a t, counted threshold a t ->
  exists t', counted threshold
    (decode_kernel fmad schedule predict num_bboxes num_classes threshold matrix a
       YoloInferImpl.MAX_IMAGE_BBOX) t'.
Proof.
  unfold decode_kernel. induction schedule as [|position schedule IH]; intros a t Ha.
  - exists t. exact Ha.
  - destruct (decode_thread32_counted predict num_bboxes num_classes threshold matrix a
                position t Ha) as (t' & _ & Ha').
    simpl. apply (IH _ t' Ha').
Qed.

(** The NMS kernel writes keep-flags only. *)
Lemma nms_kernel32_counted (schedule : list Z) (max_objects : Z)
    (nms_threshold threshold : float) :
  Forall (fun q => 0 <= q) schedule ->
  forall a t, counted threshold a t ->
  counted threshold (nms_kernel schedule a max_objects nms_threshold) t.
Proof.
  unfold nms_kernel. induction 1 as [|position schedule Hp _ IH]; intros a t Ha; [exact Ha|].
  simpl. apply IH. unfold nms_thread.
  destruct (_ <=? position); [exact Ha|].
  destruct (nms_scan a nms_threshold position _ 0); [|exact Ha].
  destruct Ha as (Ht & Hlen & Hcnt & Hconf).
  unfold Kernel.field, Kernel.NUM_BOX_ELEMENT.
  split; [exact Ht|]. split; [rewrite length_wr32; exact Hlen|]. split.
  - intros Ht'. rewrite rd32_wr_ne by lia. apply Hcnt, Ht'.
  - intros i Hi. unfold Kernel.field, Kernel.NUM_BOX_ELEMENT.
    rewrite rd32_wr_ne by lia. apply Hconf, Hi.
Qed.

Lemma collect_boxes32_all (P : Box -> Prop) (parray : list float) n :
  forall i acc, Forall P acc ->
  (forall j, i <= j < i + Z.of_nat n ->
     P (mkBox (rd parray (Kernel.field j 0)) (rd parray (Kernel.field j 1))
              (rd parray (Kernel.field j 2)) (rd parray (Kernel.field j 3))
              (rd parray (Kernel.field j 4)) (to_int (rd parray (Kernel.field j 5))))) ->
  Forall P (collect_boxes parray n i acc).
Proof.
  induction n as [|n IH]; intros i acc Hacc Hall; [exact Hacc|].
  simpl. apply IH.
  - destruct (_ =? 1); [|exact Hacc]. apply Forall_app. split; [exact Hacc|].
    constructor; [|constructor]. specialize (Hall i ltac:(lia)).
    unfold Kernel.field in Hall. rewrite Z.add_0_r in Hall. exact Hall.
  - intros j Hj. apply Hall. lia.
Qed.

Lemma read_back32_confident (threshold : float) (a : list float) (t : Z) :
  counted threshold a t ->
  Forall (fun b => flt (confidence b) threshold = false) (read_back a []).
Proof.
  intros (Ht & Hlen & Hcnt & Hconf). unfold read_back.
  apply collect_boxes32_all; [constructor|].
  intros j Hj. simpl. apply Hconf.
  unfold YoloInferImpl.MAX_IMAGE_BBOX in Hj.
  destruct (Z_le_gt_dec t 1024) as [Hle|Hgt]; [|lia].
  rewrite (Hcnt Hle) in Hj. destruct (counter_table t ltac:(lia)) as (Hi & _). lia.
Qed.

Lemma worker_decode32_counted (schedule_decode schedule_nms : list Z) (predict : list float)
    (num_bboxes num_classes : Z) (threshold nms_threshold : float)
    (matrix output_array : list float) :
  length output_array = YoloInferImpl.row_length ->
  Forall (fun q => 0 <= q) schedule_nms ->
  exists t, counted threshold
    (worker_decode fmad schedule_decode schedule_nms predict num_bboxes num_classes
       threshold nms_threshold matrix output_array) t.
Proof.
  intros Hlen Hs. unfold worker_decode, decode_kernel_invoker.
  pose proof row_length32 as Hrow.
  destruct (decode_kernel32_counted schedule_decode predict num_bboxes num_classes
              threshold matrix (wr output_array 0 zero) 0) as [t Ht].
  - split; [lia|]. split; [rewrite length_wr32; exact Hlen|]. split.
    + intros _. apply rd32_wr_eq. lia.
    + intros i Hi. lia.
  - exists t. apply nms_kernel32_counted; assumption.
Qed.

(** C4: the decode kernel in single precision.  A thread stores a
    detection only if its objectness is not below the confidence threshold
    and the best class score, multiplied by the objectness and rounded, is
    not below it either; otherwise it leaves the box array as it is.  The
    best class score is the score of the class the loop names, and no class
    scores more.  For scores and a threshold that are not NaN, not below
    means at least.  A detection that passes both tests raises the
    counter by [1.0f] and, when there is room, is stored with its
    confidence, its class and the keep-flag 1.  Every box the worker reads
    back for an image has a confidence that is not below the threshold: at
    least the threshold, unless it is NaN.  The detection with objectness
    0.9 and best class score 0.4 is dropped at the threshold 0.5. *)
Theorem decode_keeps_confident_detections
    (schedule_decode schedule_nms : list Z) (forward_row : list float)
    (nms_threshold : float) (output_array : list float)
    (predict : list float) (num_bboxes num_classes : Z) (threshold : float)
    (matrix : list float) (max_objects : Z) (parray : list float) (position : Z) :
  1 <= num_classes ->
  0 <= max_objects ->
  0 <= to_int_device (rd parray 0) ->
  1 + max_objects * Kernel.NUM_BOX_ELEMENT <= Z.of_nat (length parray) ->
  length output_array = YoloInferImpl.row_length ->
  Forall (fun q => 0 <= q) schedule_nms ->
  let pitem := (5 + num_classes) * position in
  let objectness := rd predict (pitem + 4) in
  let best := fst (best_class predict num_classes pitem) in
  let label := snd (best_class predict num_classes pitem) in
  let confidence_ := fmul best objectness in
  let index := to_int_device (rd parray 0) in
  let a' := decode_thread fmad predict num_bboxes num_classes threshold matrix max_objects
              parray position in
  (0 <= label < num_classes /\ best = rd predict (pitem + 5 + label) /\
   forall j, 0 <= j < num_classes -> fgt (rd predict (pitem + 5 + j)) best = false) /\
  (flt objectness threshold = true \/ flt confidence_ threshold = true -> a' = parray) /\
  (a' <> parray ->
   flt objectness threshold = false /\ flt confidence_ threshold = false /\
   (is_nan objectness = false -> is_nan threshold = false ->
    fge objectness threshold = true) /\
   (is_nan confidence_ = false -> is_nan threshold = false ->
    fge confidence_ threshold = true)) /\
  (position < num_bboxes -> flt objectness threshold = false ->
   flt confidence_ threshold = false ->
   rd a' 0 = fadd (rd parray 0) one /\
   (index < max_objects ->
    rd a' (Kernel.field index 4) = confidence_ /\
    rd a' (Kernel.field index 5) = of_int label /\
    rd a' (Kernel.field index 6) = one)) /\
  Forall (fun b => flt (confidence b) threshold = false /\
                   (is_nan (confidence b) = false -> is_nan threshold = false ->
                    fge (confidence b) threshold = true))
    (read_back (worker_decode fmad schedule_decode schedule_nms forward_row num_bboxes
                  num_classes threshold nms_threshold matrix output_array) []) /\
  flt (fmul (literal 4 10) (literal 9 10)) (literal 1 2) = true /\
  decode_kernel fmad [0] weak_detection 1 2 (literal 1 2) identity_matrix
    (replicate 15 zero) 2 = replicate 15 zero.
Proof.
  intros Hnc Hmax Hidx Hlen Hrow Hs pitem objectness best label confidence_ index a'.
  pose proof (decode_thread32_cases predict num_bboxes num_classes threshold matrix
                max_objects parray position) as Hcases.
  cbv zeta in Hcases.
  fold pitem in Hcases. fold objectness in Hcases. fold best in Hcases.
  fold label in Hcases. fold confidence_ in Hcases. fold index in Hcases.
  fold a' in Hcases.
  split; [exact (best_class32_spec predict num_classes pitem Hnc)|].
  split; [|split; [|split; [|split; [|split]]]].
  - intros Hbelow.
    destruct Hcases as [[He _]|(_ & Ho & Hc & _)]; [exact He|].
    destruct Hbelow as [H|H]; congruence.
  - intros Hne.
    destruct Hcases as [[He _]|(_ & Ho & Hc & _)]; [contradiction|].
    split; [exact Ho|]. split; [exact Hc|].
    split; intros H1 H2; apply not_below; assumption.
  - intros Hp Ho Hc. unfold Kernel.field, Kernel.NUM_BOX_ELEMENT in *.
    destruct Hcases as [[_ [H|[H|H]]]|(_ & _ & _ & [[Hm He]|[Hm (v0 & v1 & v2 & v3 & He)]])];
      try lia; try congruence.
    + rewrite He. split; [apply rd32_wr_eq; lia|]. lia.
    + rewrite He. split.
      * rewrite !rd32_wr_ne by lia. apply rd32_wr_eq. lia.
      * intros _. split; [|split].
        -- rewrite rd32_wr_ne by lia. rewrite rd32_wr_ne by lia.
           apply rd32_wr_eq. rewrite !length_wr32. lia.
        -- rewrite rd32_wr_ne by lia. apply rd32_wr_eq. rewrite !length_wr32. lia.
        -- apply rd32_wr_eq. rewrite !length_wr32. lia.
  - destruct (worker_decode32_counted schedule_decode schedule_nms forward_row num_bboxes
                num_classes threshold nms_threshold matrix output_array Hrow Hs) as [t Ht].
    eapply Forall_impl; [exact (read_back32_confident threshold _ t Ht)|].
    intros b Hb. split; [exact Hb|]. intros H1 H2. apply not_below; assumption.
  - vm_compute. reflexivity.
  - unfold decode_kernel. simpl fold_left.
    destruct (decode_thread32_cases weak_detection 1 2 (literal 1 2) identity_matrix 2
                (replicate 15 zero) 0) as [[He _]|(_ & _ & Hc & _)]; [exact He|].
    exfalso. revert Hc. vm_compute. discriminate.
Qed.

End Kernel32Facts.

Section Kernel32Witnesses.

Import Binary32 Kernel32.

Lemma decode_keeps_confident_detections_witness :
  read_back (worker_decode unfused [0] (seqZ 0 1024)
               [zero; zero; of_int 2; of_int 2; literal 9 10; literal 8 10] 1 1
               (literal 1 2) (literal 1 2) identity_matrix
               (replicate YoloInferImpl.row_length zero)) [] <> [] /\
  Forall (fun b => flt (confidence b) (literal 1 2) = false /\
                   (is_nan (confidence b) = false -> is_nan (literal 1 2) = false ->
                    fge (confidence b) (literal 1 2) = true))
    (read_back (worker_decode unfused [0] (seqZ 0 1024)
                  [zero; zero; of_int 2; of_int 2; literal 9 10; literal 8 10] 1 1
                  (literal 1 2) (literal 1 2) identity_matrix
                  (replicate YoloInferImpl.row_length zero)) []).
Proof.
  assert (Hs : Forall (fun q => 0 <= q) (seqZ 0 1024)).
  { apply Forall_forall. intros q Hq. apply elem_of_seqZ in Hq. lia. }
  assert (Hr : read_back (worker_decode unfused [0] (seqZ 0 1024)
                 [zero; zero; of_int 2; of_int 2; literal 9 10; literal 8 10] 1 1
                 (literal 1 2) (literal 1 2) identity_matrix
                 (replicate YoloInferImpl.row_length zero)) [] <> [])
    by (vm_compute; discriminate).
  split; [exact Hr|].
  refine (proj1 (proj2 (proj2 (proj2 (proj2
    (decode_keeps_confident_detections unfused [0] (seqZ 0 1024)
       [zero; zero; of_int 2; of_int 2; literal 9 10; literal 8 10]
       (literal 1 2) (replicate YoloInferImpl.row_length zero)
       [zero; zero; of_int 2; of_int 2; literal 9 10; literal 8 10] 1 1
       (literal 1 2) identity_matrix 2 (replicate 15 zero) 0 _ _ _ _ _ Hs)))))).
  - lia.
  - lia.
  - vm_compute. discriminate.
  - vm_compute. discriminate.
  - apply length_replicate.
Defined.

(** C4, as the claim states it, fails on a NaN: a detection whose
    objectness is NaN passes both tests of the kernel, since no comparison
    with NaN holds.  It is stored, and the worker returns it with the
    confidence NaN, which is not at least the threshold 0.5, as its
    objectness is not. *)
Lemma decode_keeps_nan_detection :
  exists b,
    read_back (worker_decode unfused [0] (seqZ 0 1024) nan_detection 1 1
                 (literal 1 2) (literal 1 2) identity_matrix
                 (replicate YoloInferImpl.row_length zero)) [] = [b] /\
    fge (confidence b) (literal 1 2) = false /\
    fge (rd nan_detection 4) (literal 1 2) = false.
Proof.
  eexists. split; [vm_compute; reflexivity|]. split; reflexivity.
Qed.

(** The product of the second test is the rounded one.  With the
    objectness 2156601 / 2^22 and the class score 8157367 / 2^23 the exact
    product is below one half and the product in single precision is one
    half: at the threshold 0.5 the detection is stored and returned. *)
Lemma decode_keeps_rounded_product :
  let objectness := fdiv (of_int 2156601) (of_int (2 ^ 22)) in
  let score := fdiv (of_int 8157367) (of_int (2 ^ 23)) in
  objectness = SpecFloat.S754_finite false 8626404 (-24) /\
  score = SpecFloat.S754_finite false 16314734 (-24) /\
  8626404 * 16314734 < 2 ^ 47 /\
  fmul score objectness = literal 1 2 /\
  exists b,
    read_back (worker_decode unfused [0] (seqZ 0 1024)
                 [zero; zero; of_int 2; of_int 2; objectness; score] 1 1
                 (literal 1 2) (literal 1 2) identity_matrix
                 (replicate YoloInferImpl.row_length zero)) [] = [b] /\
    confidence b = literal 1 2.
Proof.
  cbv zeta. split; [vm_compute; reflexivity|]. split; [vm_compute; reflexivity|].
  split; [lia|]. split; [vm_compute; reflexivity|].
  eexists. split; [vm_compute; reflexivity|]. reflexivity.
Qed.

End Kernel32Witnesses.

(** ** Resizing and the head of a tensor *)

Section ResizeFacts.

Import Tensor TensorMore Footprint.




End ResizeFacts.

Section ResizeWitnesses.

Import Tensor TensorMore Footprint.



End ResizeWitnesses.

(** ** Single precision: integers that are exact *)

Section Binary32Exact.

Import Binary32.

(** The number of binary digits of a positive number. *)
Lemma digits_bounds (p : positive) :
  2 ^ (Z.pos (SpecFloat.digits2_pos p) - 1) <= Z.pos p < 2 ^ Z.pos (SpecFloat.digits2_pos p).
Proof.
  induction p as [p IH|p IH|]; simpl SpecFloat.digits2_pos.
  - rewrite Pos2Z.inj_succ. replace (Z.succ (Z.pos (SpecFloat.digits2_pos p)) - 1)
      with (Z.succ (Z.pos (SpecFloat.digits2_pos p) - 1)) by lia.
    rewrite !Z.pow_succ_r by lia. lia.
  - rewrite Pos2Z.inj_succ. replace (Z.succ (Z.pos (SpecFloat.digits2_pos p)) - 1)
      with (Z.succ (Z.pos (SpecFloat.digits2_pos p) - 1)) by lia.
    rewrite !Z.pow_succ_r by lia. lia.
  - simpl. lia.
Qed.

Lemma digits_unique (p : positive) (d : Z) :
  2 ^ (d - 1) <= Z.pos p < 2 ^ d -> Z.pos (SpecFloat.digits2_pos p) = d.
Proof.
  intros [Hl Hu]. pose proof (digits_bounds p) as [Hl' Hu'].
  set (d' := Z.pos (SpecFloat.digits2_pos p)) in *.
  assert (0 < d') by (unfold d'; lia).
  assert (0 < d).
  { destruct (Z_lt_le_dec 0 d) as [H0|H0]; [exact H0|]. exfalso.
    destruct (Z.eq_dec d 0) as [->|Hne]; [simpl in Hu; lia|].
    rewrite Z.pow_neg_r in Hu by lia. lia. }
  destruct (Z.lt_trichotomy d d') as [Hlt|[Heq|Hgt]]; [|symmetry; exact Heq|]; exfalso.
  - assert (2 ^ d <= 2 ^ (d' - 1)) by (apply Z.pow_le_mono_r; lia). lia.
  - assert (2 ^ d' <= 2 ^ (d - 1)) by (apply Z.pow_le_mono_r; lia). lia.
Qed.

(** Shifting a mantissa to the left. *)
Lemma iter_xO (m k : positive) : Z.pos (Pos.iter xO m k) = Z.pos m * 2 ^ Z.pos k.
Proof.
  induction k as [|k IH] using Pos.peano_ind.
  - simpl. lia.
  - rewrite Pos.iter_succ, Pos2Z.inj_succ, Z.pow_succ_r by lia.
    rewrite Pos2Z.inj_xO, IH. lia.
Qed.

Lemma shl_align_spec (m : positive) (e e' : Z) :
  e' <= e ->
  snd (SpecFloat.shl_align m e e') = e' /\
  Z.pos (fst (SpecFloat.shl_align m e e')) = Z.pos m * 2 ^ (e - e').
Proof.
  intros Hle. unfold SpecFloat.shl_align.
  destruct (e' - e) as [|d|d] eqn:Hd; simpl; try lia.
  - replace (e - e') with 0 by lia. split; lia.
  - rewrite iter_xO. split; [reflexivity|]. f_equal. f_equal. lia.
Qed.

(** Shifting out zeros to the right is exact. *)
Lemma shr_zeros (k m : positive) :
  SpecFloat.iter_pos SpecFloat.shr_1 k
    (SpecFloat.Build_shr_record (Z.pos (Pos.iter xO m k)) false false)
  = SpecFloat.Build_shr_record (Z.pos m) false false.
Proof.
  revert m. induction k as [k IH|k IH|]; intros m; simpl.
  - rewrite !IH. reflexivity.
  - rewrite !IH. reflexivity.
  - reflexivity.
Qed.

Lemma fexp_normal (e : Z) : -125 <= e -> SpecFloat.fexp prec emax e = e - 24.
Proof. intros He. unfold SpecFloat.fexp, SpecFloat.emin, prec, emax. lia. Qed.

(** Rounding a mantissa of 24 digits that was shifted to the left by [k]
    gives the mantissa back. *)
Lemma round_exact (m q : positive) (k e : Z) :
  Z.pos (SpecFloat.digits2_pos m) = 24 -> 0 <= k -> -149 <= e + k <= 104 ->
  Z.pos q = Z.pos m * 2 ^ k ->
  SpecFloat.binary_round_aux prec emax false (Z.pos q) e SpecFloat.loc_Exact
  = SpecFloat.S754_finite false m (e + k).
Proof.
  intros Hd Hk He Hq.
  assert (Hdq : Z.pos (SpecFloat.digits2_pos q) = 24 + k).
  { apply digits_unique. pose proof (digits_bounds m) as Hb. rewrite Hd in Hb.
    rewrite Hq. replace (24 + k - 1) with (23 + k) by lia.
    rewrite !Z.pow_add_r by lia. simpl (24 - 1) in Hb.
    assert (0 < 2 ^ k) by (apply Z.pow_pos_nonneg; lia). nia. }
  unfold SpecFloat.binary_round_aux, SpecFloat.shr_fexp.
  simpl SpecFloat.Zdigits2. rewrite Hdq.
  assert (Hf : SpecFloat.fexp prec emax (24 + k + e) - e = k).
  { unfold SpecFloat.fexp, SpecFloat.emin, prec, emax. lia. }
  rewrite Hf. simpl SpecFloat.shr_record_of_loc.
  assert (Hshr : SpecFloat.shr (SpecFloat.Build_shr_record (Z.pos q) false false) e k
                 = (SpecFloat.Build_shr_record (Z.pos m) false false, e + k)).
  { destruct k as [|kp|kp]; [| |lia].
    - simpl. f_equal; [|lia]. f_equal. lia.
    - simpl. f_equal. rewrite <- (shr_zeros kp m). do 2 f_equal.
      rewrite iter_xO. exact Hq. }
  rewrite Hshr. simpl SpecFloat.shr_m. simpl SpecFloat.loc_of_shr_record.
  simpl SpecFloat.round_nearest_even. simpl SpecFloat.Zdigits2. rewrite Hd.
  assert (Hf' : SpecFloat.fexp prec emax (24 + (e + k)) - (e + k) = 0).
  { unfold SpecFloat.fexp, SpecFloat.emin, prec, emax. lia. }
  rewrite Hf'. simpl.
  assert ((e + k <=? emax - prec) = true) as -> by (apply Z.leb_le; unfold emax, prec; lia).
  reflexivity.
Qed.

(** An integer below [2^24] is a [float]: its mantissa is the integer
    shifted to 24 digits. *)
Lemma of_int_exact (t : positive) (d : Z) :
  Z.pos (SpecFloat.digits2_pos t) = d -> d <= 24 ->
  exists m, Z.pos (SpecFloat.digits2_pos m) = 24 /\ Z.pos m = Z.pos t * 2 ^ (24 - d) /\
    of_int (Z.pos t) = SpecFloat.S754_finite false m (d - 24).
Proof.
  intros Hd Hle. unfold of_int. simpl SpecFloat.binary_normalize.
  unfold SpecFloat.binary_round. rewrite Hd, Z.add_0_r.
  assert (0 < d) by lia.
  rewrite fexp_normal by lia.
  destruct (shl_align_spec t 0 (d - 24) ltac:(lia)) as [He Hm].
  destruct (SpecFloat.shl_align t 0 (d - 24)) as [m e]. simpl in He, Hm. subst e.
  replace (0 - (d - 24)) with (24 - d) in Hm by lia.
  assert (Hdm : Z.pos (SpecFloat.digits2_pos m) = 24).
  { apply digits_unique. pose proof (digits_bounds t) as Hb. rewrite Hd in Hb.
    assert (E1 : 2 ^ (24 - 1) = 2 ^ (d - 1) * 2 ^ (24 - d))
      by (rewrite <- Z.pow_add_r by lia; f_equal; lia).
    assert (E2 : 2 ^ 24 = 2 ^ d * 2 ^ (24 - d))
      by (rewrite <- Z.pow_add_r by lia; f_equal; lia).
    rewrite Hm, E1, E2.
    assert (0 < 2 ^ (24 - d)) by (apply Z.pow_pos_nonneg; lia). nia. }
  exists m. split; [exact Hdm|]. split; [exact Hm|].
  rewrite (round_exact m m 0 (d - 24) Hdm); [f_equal; lia|lia|lia|lia].
Qed.

Lemma shl_align_none (m : positive) (e e' : Z) :
  e <= e' -> SpecFloat.shl_align m e e' = (m, e).
Proof.
  intros Hle. unfold SpecFloat.shl_align. destruct (e' - e) eqn:E; try reflexivity. lia.
Qed.

Lemma digits_le_24 (t : positive) : Z.pos t < 2 ^ 24 -> Z.pos (SpecFloat.digits2_pos t) <= 24.
Proof.
  intros Ht. pose proof (digits_bounds t) as [Hl _].
  destruct (Z_le_gt_dec (Z.pos (SpecFloat.digits2_pos t)) 24) as [H|H]; [exact H|].
  exfalso. assert (2 ^ 24 <= 2 ^ (Z.pos (SpecFloat.digits2_pos t) - 1))
    by (apply Z.pow_le_mono_r; lia). lia.
Qed.

(** The conversions of an integer below [2^24] to [float] and back. *)
Lemma to_int_of_int (t : Z) :
  0 <= t < 2 ^ 24 -> truncate (of_int t) = Some t.
Proof.
  intros Ht. destruct t as [|t|t]; [reflexivity| |lia].
  pose proof (digits_le_24 t ltac:(lia)) as Hd.
  destruct (of_int_exact t _ eq_refl Hd) as (m & _ & Hm & ->).
  set (d := Z.pos (SpecFloat.digits2_pos t)) in *.
  assert (0 < d) by (unfold d; lia).
  unfold truncate. destruct (0 <=? d - 24) eqn:E.
  - apply Z.leb_le in E. replace (d - 24) with 0 by lia.
    replace (24 - d) with 0 in Hm by lia. f_equal. lia.
  - f_equal. replace (- (d - 24)) with (24 - d) by lia. rewrite Hm.
    apply Z.div_mul. apply Z.pow_nonzero; lia.
Qed.

(** Adding [1.0f] to an integer below [2^24 - 1]. *)
Lemma fadd_one_exact (t : Z) :
  0 <= t < 2 ^ 24 - 1 -> fadd (of_int t) one = of_int (t + 1).
Proof.
  intros Ht. destruct t as [|t|t]; [reflexivity| |lia].
  pose proof (digits_le_24 t ltac:(lia)) as Hd.
  destruct (of_int_exact t _ eq_refl Hd) as (m & Hdm & Hm & ->).
  set (d := Z.pos (SpecFloat.digits2_pos t)) in *.
  assert (0 < d) by (unfold d; lia).
  assert (Hs : exists s, Z.pos t + 1 = Z.pos s) by (exists (t + 1)%positive; lia).
  destruct Hs as [s Hs]. rewrite Hs.
  pose proof (digits_le_24 s ltac:(lia)) as Hd'.
  destruct (of_int_exact s _ eq_refl Hd') as (m' & Hdm' & Hm' & ->).
  set (d' := Z.pos (SpecFloat.digits2_pos s)) in *.
  assert (0 < d') by (unfold d'; lia).
  change one with (SpecFloat.S754_finite false 8388608 (-23)).
  unfold fadd, SpecFloat.SFadd.
  replace (Z.min (d - 24) (-23)) with (-23) by lia.
  destruct (shl_align_spec m (d - 24) (-23) ltac:(lia)) as [_ Hx].
  rewrite (shl_align_none 8388608 (-23) (-23)) by lia.
  simpl SpecFloat.cond_Zopp. simpl fst.
  set (x := fst (SpecFloat.shl_align m (d - 24) (-23))) in *.
  change (Z.pos x + 8388608) with (Z.pos (x + 8388608)).
  simpl SpecFloat.binary_normalize. unfold SpecFloat.binary_round.
  assert (Hsum : Z.pos (x + 8388608) = Z.pos m' * 2 ^ (d' - 1)).
  { rewrite Pos2Z.inj_add, Hx, Hm, Hm'. rewrite <- Hs.
    replace (d - 24 - -23) with (d - 1) by lia.
    rewrite <- !Z.mul_assoc, <- !Z.pow_add_r by lia.
    replace (24 - d + (d - 1)) with 23 by lia.
    replace (24 - d' + (d' - 1)) with 23 by lia. change (2 ^ 23) with 8388608. lia. }
  assert (Hds : Z.pos (SpecFloat.digits2_pos (x + 8388608)) = 23 + d').
  { apply digits_unique. pose proof (digits_bounds m') as Hb. rewrite Hdm' in Hb.
    rewrite Hsum. simpl (24 - 1) in Hb.
    assert (E1 : 2 ^ (23 + d' - 1) = 2 ^ 23 * 2 ^ (d' - 1))
      by (rewrite <- Z.pow_add_r by lia; f_equal; lia).
    assert (E2 : 2 ^ (23 + d') = 2 ^ 24 * 2 ^ (d' - 1))
      by (rewrite <- Z.pow_add_r by lia; f_equal; lia).
    rewrite E1, E2.
    assert (0 < 2 ^ (d' - 1)) by (apply Z.pow_pos_nonneg; lia). nia. }
  rewrite Hds. replace (23 + d' + -23) with d' by lia.
  rewrite fexp_normal by lia. rewrite shl_align_none by lia.
  rewrite (round_exact m' (x + 8388608) (d' - 1) (-23) Hdm'); [f_equal; lia|lia|lia|exact Hsum].
Qed.

(** The counter of a box array counts exactly up to [2^24], and stays
    there: [2^24 + 1] rounds to [2^24]. *)
Lemma counter_exact (t : Z) :
  0 <= t <= 2 ^ 24 ->
  to_int (of_int t) = t /\ to_int_device (of_int t) = t /\
  fadd (of_int t) one = of_int (Z.min (t + 1) (2 ^ 24)).
Proof.
  intros Ht.
  destruct (Z.eq_dec t (2 ^ 24)) as [->|Hne]; [vm_compute; auto|].
  destruct (Z.eq_dec t (2 ^ 24 - 1)) as [->|Hne']; [vm_compute; auto|].
  pose proof (to_int_of_int t ltac:(lia)) as Htr.
  split; [|split].
  - unfold to_int. rewrite Htr.
    assert ((- 2 ^ 31 <=? t) && (t <? 2 ^ 31) = true) as ->; [|reflexivity].
    apply andb_true_iff. split; [apply Z.leb_le|apply Z.ltb_lt]; lia.
  - unfold to_int_device.
    destruct (of_int t) eqn:E; try (simpl in Htr; discriminate).
    + injection Htr as <-. reflexivity.
    + cbv beta iota. rewrite Htr. simpl default. lia.
  - rewrite Z.min_l by lia. apply fadd_one_exact. lia.
Qed.

(** Dividing an integer below [2^24] by 512 is exact up to the
    truncation of the conversion to [unsigned int]. *)
Lemma fdiv_512 (n : Z) :
  512 <= n < 2 ^ 24 -> to_uint (fdiv (of_int n) (of_int 512)) = n / 512.
Proof.
  intros Hn. destruct n as [|t|t]; try lia.
  pose proof (digits_le_24 t ltac:(lia)) as Hd.
  pose proof (digits_bounds t) as Hb.
  destruct (of_int_exact t _ eq_refl Hd) as (m & Hdm & Hm & ->).
  set (d := Z.pos (SpecFloat.digits2_pos t)) in *.
  assert (Hd10 : 10 <= d).
  { destruct (Z_le_gt_dec 10 d) as [H|H]; [exact H|]. exfalso.
    assert (2 ^ d <= 2 ^ 9) by (apply Z.pow_le_mono_r; lia). lia. }
  change (of_int 512) with (SpecFloat.S754_finite false 8388608 (-14)).
  unfold fdiv, SpecFloat.SFdiv, SpecFloat.SFdiv_core_binary.
  change (SpecFloat.Zdigits2 8388608) with 24.
  change (SpecFloat.Zdigits2 (Z.pos m)) with (Z.pos (SpecFloat.digits2_pos m)).
  rewrite Hdm. cbv zeta.
  replace (24 + (d - 24) - (24 + -14)) with (d - 10) by lia.
  rewrite fexp_normal by lia.
  replace (Z.min (d - 10 - 24) (d - 24 - -14)) with (d - 34) by lia.
  replace (d - 24 - -14 - (d - 34)) with 24 by lia. cbv iota.
  assert (Hdiv : Z.div_eucl (Z.shiftl (Z.pos m) 24) 8388608 = (Z.pos m~0, 0)).
  { rewrite Z.shiftl_mul_pow2 by lia. change (2 ^ 24) with 16777216.
    pose proof (Z_div_mod (Z.pos m * 16777216) 8388608 ltac:(lia)) as H.
    destruct (Z.div_eucl (Z.pos m * 16777216) 8388608) as [q r].
    destruct H as [H1 H2].
    assert (r = 8388608 * (2 * Z.pos m - q)) by lia.
    assert (r = 0) by lia. f_equal; lia. }
  rewrite Hdiv. change (SpecFloat.new_location 8388608 0) with SpecFloat.loc_Exact.
  simpl xorb.
  rewrite (round_exact m (m~0) 1 (d - 34) Hdm); [|lia|lia|lia].
  unfold to_uint, truncate.
  assert ((0 <=? d - 34 + 1) = false) as -> by (apply Z.leb_gt; lia).
  assert (Hq : Z.pos m / 2 ^ (- (d - 34 + 1)) = Z.pos t / 512).
  { rewrite Hm. replace (- (d - 34 + 1)) with (9 + (24 - d)) by lia.
    rewrite Z.pow_add_r by lia. change (2 ^ 9) with 512.
    apply Z.div_mul_cancel_r; [lia|apply Z.pow_nonzero; lia]. }
  rewrite Hq.
  assert (0 <= Z.pos t / 512 < 2 ^ 15).
  { split; [apply Z.div_pos; lia|apply Z.div_lt_upper_bound; lia]. }
  assert ((- 2 ^ 63 <=? Z.pos t / 512) && (Z.pos t / 512 <? 2 ^ 63) = true) as ->.
  { apply andb_true_iff. split; [apply Z.leb_le|apply Z.ltb_lt]; lia. }
  apply Z.mod_small. lia.
Qed.

End Binary32Exact.
(** ** The launch dimensions *)

Section LaunchFacts.

Import Kernel.

(** The launches of less than a full block, and the launches for which
    [numJobs + 511] is no [float], one by one. *)
Lemma launch_table (lo : Z) :
  lo = 1 \/ lo = 2 ^ 24 - 511 ->
  forall numJobs, lo <= numJobs < lo + 511 ->
  numJobs <= grid_dims numJobs * block_dims numJobs < numJobs + block_dims numJobs.
Proof.
  intros Hlo numJobs Hn.
  assert (Hall : forallb (fun n => (n <=? grid_dims n * block_dims n)
                                   && (grid_dims n * block_dims n <? n + block_dims n))
                   (seqZ lo 511) = true)
    by (destruct Hlo as [->| ->]; vm_compute; reflexivity).
  rewrite forallb_forall in Hall. specialize (Hall numJobs).
  rewrite andb_true_iff, Z.leb_le, Z.ltb_lt in Hall. apply Hall.
  apply list_elem_of_In, elem_of_seqZ. lia.
Qed.

(** X14: a kernel launched for [numJobs] jobs, at least one and fewer
    than [2^24], has a thread for every job: the blocks have at most 512
    threads, and grid times block covers all positions below [numJobs] with
    less than one block of threads to spare.  The number of blocks is
    computed in [float]: at [2^24] jobs [numJobs + 511] rounds up, and a
    whole block more is launched. *)
Theorem launch_covers_all_jobs (numJobs : Z) :
  1 <= numJobs < 2 ^ 24 ->
  1 <= block_dims numJobs <= GPU_BLOCK_THREADS /\
  numJobs <= grid_dims numJobs * block_dims numJobs < numJobs + block_dims numJobs /\
  (forall position, 0 <= position < numJobs -> position ∈ launched numJobs) /\
  grid_dims (2 ^ 24) * block_dims (2 ^ 24) = 2 ^ 24 + block_dims (2 ^ 24).
Proof.
  intros Hn.
  assert (Hb : 1 <= block_dims numJobs <= GPU_BLOCK_THREADS).
  { unfold block_dims, GPU_BLOCK_THREADS. destruct (numJobs <? 512) eqn:E; lia. }
  assert (Hcover : numJobs <= grid_dims numJobs * block_dims numJobs
                   < numJobs + block_dims numJobs).
  { destruct (Z_lt_ge_dec numJobs 512) as [Hsmall|Hbig];
      [apply (launch_table 1); [left; reflexivity|lia]|].
    destruct (Z_lt_ge_dec numJobs (2 ^ 24 - 511)) as [Hmid|Hhigh];
      [|apply (launch_table (2 ^ 24 - 511)); [right; reflexivity|lia]].
    assert (Hblock : block_dims numJobs = 512).
    { unfold block_dims, GPU_BLOCK_THREADS.
      assert ((numJobs <? 512) = false) as -> by (apply Z.ltb_ge; lia). reflexivity. }
    assert (Hgrid : grid_dims numJobs = (numJobs + 511) / 512).
    { unfold grid_dims. rewrite Hblock.
      assert (Hsum : int32 (int32 (numJobs + 512) - 1) = numJobs + 511).
      { unfold int32. rewrite (Z.mod_small (numJobs + 512 + 2 ^ 31)) by lia.
        rewrite Z.mod_small by lia. lia. }
      rewrite Hsum. apply fdiv_512. lia. }
    rewrite Hgrid, Hblock.
    pose proof (Z.div_mod (numJobs + 511) 512 ltac:(lia)).
    pose proof (Z.mod_pos_bound (numJobs + 511) 512 ltac:(lia)). lia. }
  split; [exact Hb|]. split; [exact Hcover|]. split; [|vm_compute; reflexivity].
  intros position Hp. unfold launched. apply elem_of_seqZ. lia.
Qed.

End LaunchFacts.

(** ** The counter of the decode kernel *)

Section CountingFacts.

Import Binary32 Kernel32 Counting.

Context (fmad : float -> float -> float -> float).

(** What one thread does to the counter. *)
Lemma decode_thread_counts (predict : list float) (num_bboxes num_classes : Z)
    (threshold : float) (matrix : list float) (max_objects : Z) (a : list float)
    (position k : Z) :
  0 <= max_objects ->
  1 + max_objects * Kernel.NUM_BOX_ELEMENT <= Z.of_nat (length a) ->
  0 <= k <= counter_max -> rd a 0 = of_int k ->
  let a' := decode_thread fmad predict num_bboxes num_classes threshold matrix max_objects
              a position in
  let k' := if passes predict num_bboxes num_classes threshold position
            then Z.min (k + 1) counter_max else k in
  rd a' 0 = of_int k' /\ length a' = length a /\
  forall i, 1 + max_objects * Kernel.NUM_BOX_ELEMENT <= i -> rd a' i = rd a i.
Proof.
  intros Hmax Hlen Hk Hcnt a' k'. unfold counter_max in *.
  pose proof (decode_thread32_cases fmad predict num_bboxes num_classes threshold matrix
                max_objects a position) as Hcases.
  cbv zeta in Hcases. fold a' in Hcases.
  unfold Kernel.NUM_BOX_ELEMENT in *.
  destruct (counter_exact k Hk) as (_ & Hdev & Hadd).
  destruct Hcases as [[-> Hno]|(Hp & Ho & Hc & Hyes)].
  - assert (passes predict num_bboxes num_classes threshold position = false) as Hpass.
    { unfold passes. destruct Hno as [Hno|[Hno|Hno]].
      - assert ((position <? num_bboxes) = false) as -> by (apply Z.ltb_ge; lia).
        reflexivity.
      - rewrite Hno. apply andb_false_iff. left. apply andb_false_r.
      - rewrite Hno. apply andb_false_r. }
    unfold k'. rewrite Hpass. auto.
  - assert (passes predict num_bboxes num_classes threshold position = true) as Hpass.
    { unfold passes. rewrite Ho, Hc.
      assert ((position <? num_bboxes) = true) as -> by (apply Z.ltb_lt; lia).
      reflexivity. }
    unfold k'. rewrite Hpass. rewrite Hcnt, Hdev in Hyes.
    destruct Hyes as [[Hm ->]|(Hm & v0 & v1 & v2 & v3 & ->)].
    + rewrite length_wr32. split; [|split; [reflexivity|]].
      * rewrite rd32_wr_eq by lia. exact Hadd.
      * intros i Hi. apply rd32_wr_ne. lia.
    + rewrite !length_wr32. split; [|split; [reflexivity|]].
      * rewrite !rd32_wr_ne by lia. rewrite rd32_wr_eq by lia. exact Hadd.
      * intros i Hi. rewrite !rd32_wr_ne by lia. reflexivity.
Qed.

(** X13: the counter of [decode_kernel] counts every detection that
    passes, not only those it stores, up to [2^24], where it stays.  Started
    on a box array whose counter holds an integer [k] between 0 and [2^24],
    with the threads in any order, the kernel leaves the counter at [k]
    plus the number of threads that are within the bounds and pass both
    tests, or at [2^24] if that is more; the host reads this number back.
    The length of the array is the same, and no cell behind the
    [max_objects]-th box changes. *)
Theorem decode_kernel_counts_detections (schedule : list Z) (predict : list float)
    (num_bboxes num_classes : Z) (threshold : float) (matrix : list float)
    (max_objects : Z) (parray : list float) (k : Z) :
  0 <= max_objects ->
  1 + max_objects * Kernel.NUM_BOX_ELEMENT <= Z.of_nat (length parray) ->
  0 <= k <= counter_max -> rd parray 0 = of_int k ->
  let a' := decode_kernel fmad schedule predict num_bboxes num_classes threshold matrix
              parray max_objects in
  let n := Z.min (k + passing predict num_bboxes num_classes threshold schedule)
             counter_max in
  rd a' 0 = of_int n /\ to_int (rd a' 0) = n /\ to_int_device (rd a' 0) = n /\
  length a' = length parray /\
  (forall i, 1 + max_objects * Kernel.NUM_BOX_ELEMENT <= i -> rd a' i = rd parray i) /\
  fadd (of_int counter_max) one = of_int counter_max.
Proof.
  intros Hmax Hlen Hk Hcnt a' n.
  assert (Hmain : rd a' 0 = of_int n /\ length a' = length parray /\
            forall i, 1 + max_objects * Kernel.NUM_BOX_ELEMENT <= i ->
              rd a' i = rd parray i).
  { unfold a', n, decode_kernel, passing. clear a' n.
    revert parray k Hlen Hk Hcnt.
    induction schedule as [|position schedule IH]; intros parray k Hlen Hk Hcnt.
    - simpl. rewrite Z.add_0_r, Z.min_l by lia. auto.
    - destruct (decode_thread_counts predict num_bboxes num_classes threshold matrix
                  max_objects parray position k Hmax Hlen Hk Hcnt) as (H1 & H2 & H3).
      cbv zeta in H1.
      set (a1 := decode_thread fmad predict num_bboxes num_classes threshold matrix
                   max_objects parray position) in *.
      simpl fold_left. fold a1.
      destruct (passes predict num_bboxes num_classes threshold position) eqn:Hpass.
      + rewrite filter_cons_True by exact Hpass.
        destruct (IH a1 (Z.min (k + 1) counter_max)) as (G1 & G2 & G3);
          [rewrite H2; exact Hlen|unfold counter_max in *; lia|exact H1|].
        split; [|split].
        * rewrite G1. f_equal. simpl length. unfold counter_max in *. lia.
        * rewrite G2. exact H2.
        * intros i Hi. rewrite G3 by exact Hi. apply H3, Hi.
      + rewrite filter_cons_False by (rewrite Hpass; discriminate).
        destruct (IH a1 k) as (G1 & G2 & G3); [rewrite H2; exact Hlen|exact Hk|exact H1|].
        split; [exact G1|]. split; [rewrite G2; exact H2|].
        intros i Hi. rewrite G3 by exact Hi. apply H3, Hi. }
  destruct Hmain as (H1 & H2 & H3).
  assert (Hn : 0 <= n <= 2 ^ 24) by (unfold n, passing, counter_max in *; lia).
  destruct (counter_exact n Hn) as (Hi & Hd & _).
  rewrite H1. repeat split; auto.
Qed.

End CountingFacts.
Section CountingWitnesses.

Import Binary32 Kernel32 Counting.

Lemma launch_covers_all_jobs_witness :
  1 <= Kernel.block_dims 25200 <= Kernel.GPU_BLOCK_THREADS /\
  25200 <= Kernel.grid_dims 25200 * Kernel.block_dims 25200
        < 25200 + Kernel.block_dims 25200.
Proof.
  destruct (launch_covers_all_jobs 25200 ltac:(lia)) as (H1 & H2 & _).
  split; [exact H1|exact H2].
Defined.

Lemma decode_kernel_counts_detections_witness :
  passing two_detections 2 1 (literal 1 2) [1; 0] = 1 /\
  rd (decode_kernel unfused [1; 0] two_detections 2 1 (literal 1 2) identity_matrix
        (replicate 15 zero) 2) 0 = of_int 1.
Proof.
  assert (Hp : passing two_detections 2 1 (literal 1 2) [1; 0] = 1)
    by (vm_compute; reflexivity).
  split; [exact Hp|].
  assert (Hlen : 1 + 2 * Kernel.NUM_BOX_ELEMENT <= Z.of_nat (length (replicate 15 zero)))
    by (vm_compute; discriminate).
  assert (Hk : 0 <= 0 <= counter_max) by (vm_compute; split; discriminate).
  pose proof (decode_kernel_counts_detections unfused [1; 0] two_detections 2 1
                (literal 1 2) identity_matrix 2 (replicate 15 zero) 0
                ltac:(lia) Hlen Hk eq_refl) as H.
  cbv zeta in H. rewrite Hp in H. exact (proj1 H).
Defined.

End CountingWitnesses.

(** ** Single precision: order and symmetry *)

Section Binary32Order.

Import Binary32.







End Binary32Order.
(** ** The NMS kernel in single precision *)

Section Nms32Facts.

Import Binary32 Kernel32 Suppression.










End Nms32Facts.
Section Nms32Witnesses.

Import Binary32 Kernel32 Suppression.


End Nms32Witnesses.
